(** * Decision and reconciliation layer of the sales forecaster

    A shallow embedding of the shipment calculator, the constraint engine,
    the model evaluator and the forecast ledger, of the baseline model and of
    the orchestrator's use of them, with the properties stated about them.

    Conventions.  Quantities, stocks and metric values are binary floating
    point numbers in the program; they are idealised here as exact rationals
    ([Q]), so every equation between quantities below is the setoid equality
    [==] of [Q] and speaks about the arithmetic the program intends, not
    about rounding.  Where a rounded result decides which rows are taken
    (the split index of the cross-validation), the rounding operation is a
    parameter of the definition.  A DataFrame is the list of its rows, a
    column missing from a frame is a field of type [option]. *)

From Stdlib Require Import QArith Qround Qabs Lqa ZArith Lia Ascii String.
From stdpp Require Import gmap strings list.

(** ** Numbers *)

Definition Qltb (x y : Q) : bool := negb (Qle_bool y x).

(** [Series.sum()]: the values are added from the first row on. *)
Definition Qsum (l : list Q) : Q := fold_left Qplus l 0%Q.

(** ** Strings *)

(** Whether a character occurs in a string. *)
Fixpoint contains (c : ascii) (s : string) : bool :=
  match s with
  | EmptyString => false
  | String d s' => Ascii.eqb c d || contains c s'
  end.

(** ** Timestamps and monthly periods *)

Record timestamp := Timestamp { year : Z; month : Z; day : Z }.

Record period := Period { p_year : Z; p_month : Z }.

#[global] Instance timestamp_eq_dec : EqDecision timestamp.
Proof. solve_decision. Defined.

#[global] Instance period_eq_dec : EqDecision period.
Proof. solve_decision. Defined.

(** [dt.to_period('M')] and [dt.to_timestamp()]: a month, and its first day. *)
Definition to_period_M (t : timestamp) : period := Period (year t) (month t).

Definition to_timestamp (p : period) : timestamp := Timestamp (p_year p) (p_month p) 1.

Definition Zlex (c : comparison) (k : comparison) : comparison :=
  match c with Eq => k | _ => c end.

Definition timestamp_compare (a b : timestamp) : comparison :=
  Zlex (year a ?= year b)%Z (Zlex (month a ?= month b)%Z (day a ?= day b)%Z).

Definition period_compare (a b : period) : comparison :=
  Zlex (p_year a ?= p_year b)%Z (p_month a ?= p_month b)%Z.

(** [a > b] on timestamps. *)
Definition timestamp_gtb (a b : timestamp) : bool :=
  match timestamp_compare a b with Gt => true | _ => false end.

(** [Series.max()] of a column of dates whose first entry is [d]. *)
Definition max_date (d : timestamp) (ds : list timestamp) : timestamp :=
  fold_left (fun m x => if timestamp_gtb x m then x else m) ds d.

(** ** Group-by with sum

    [frame.groupby(keys)[col].sum().reset_index()]: one row per distinct key,
    holding the sum of the column over the rows of that key in their order of
    appearance; the rows of the result are sorted by key. *)

Section GroupBy.
Context {K : Type} `{EqDecision K}.
Variable leb : K -> K -> bool.

Fixpoint group_add (k : K) (v : Q) (acc : list (K * Q)) : list (K * Q) :=
  match acc with
  | [] => [(k, v)]
  | (k', v') :: rest =>
      if decide (k = k') then (k', (v' + v)%Q) :: rest
      else (k', v') :: group_add k v rest
  end.

Definition group_sums (rows : list (K * Q)) : list (K * Q) :=
  fold_left (fun acc kv => group_add kv.1 kv.2 acc) rows [].

Fixpoint sort_insert (x : K * Q) (l : list (K * Q)) : list (K * Q) :=
  match l with
  | [] => [x]
  | y :: rest => if leb x.1 y.1 then x :: l else y :: sort_insert x rest
  end.

Definition sort_by_key (l : list (K * Q)) : list (K * Q) :=
  foldr sort_insert [] l.

Definition groupby_sum (rows : list (K * Q)) : list (K * Q) :=
  sort_by_key (group_sums rows).

End GroupBy.

Definition string_leb (a b : string) : bool :=
  match String.compare a b with Gt => false | _ => true end.

Definition pair_leb {A B : Type} (ca : A -> A -> comparison) (lb : B -> B -> bool)
    (x y : A * B) : bool :=
  match ca x.1 y.1 with Lt => true | Eq => lb x.2 y.2 | Gt => false end.

(** ** Frames *)

(** Forecast: columns date, unified_code, quantity. *)
Record forecast_row := ForecastRow {
  f_date : timestamp;
  f_unified_code : string;
  f_quantity : Q
}.

(** Stocks: columns date, warehouse, unified_code, stock. *)
Record stock_row := StockRow {
  s_date : timestamp;
  s_warehouse : string;
  s_unified_code : string;
  s_stock : Q
}.

(** Shipments: the columns written by [calculate_shipments], and [boxes],
    which only [apply_box_constraints] adds. *)
Record shipment_row := ShipmentRow {
  sh_date : timestamp;
  sh_warehouse : string;
  sh_unified_code : string;
  sh_forecasted_sales : Q;
  sh_current_stock : Q;
  sh_required_stock : Q;
  sh_shipment : Q;
  sh_boxes : option Z
}.

(** ** shipment_calculator.py *)

Module ShipmentCalculator.

(** [forecast.groupby(['year_month', 'unified_code'])['quantity'].sum()],
    with the date of each month set to its first day. *)
Definition forecast_monthly (forecast : list forecast_row) : list forecast_row :=
  fmap (fun kv => ForecastRow (to_timestamp kv.1.1) kv.1.2 kv.2)
      (groupby_sum (pair_leb period_compare string_leb)
         (fmap (fun r => ((to_period_M (f_date r), f_unified_code r), f_quantity r))
              forecast)).

(** The rows of the most recent date of the stock table. *)
Definition latest_stocks (stocks : list stock_row) : list stock_row :=
  match stocks with
  | [] => []
  | r :: rest =>
      let latest_date := max_date (s_date r) (fmap s_date rest) in
      filter (fun x => s_date x = latest_date) stocks
  end.

(** [latest_stocks.groupby(['unified_code', 'warehouse'])['stock'].sum()]. *)
Definition stocks_by_product_warehouse (stocks : list stock_row)
    : list (string * string * Q) :=
  groupby_sum (pair_leb String.compare string_leb)
    (fmap (fun r => ((s_unified_code r, s_warehouse r), s_stock r))
         (latest_stocks stocks)).

(** The rows of one product: its warehouses with their stock. *)
Definition product_stocks (by_pw : list (string * string * Q)) (unified_code : string)
    : list (string * Q) :=
  fmap (fun x => (x.1.2, x.2)) (filter (fun x => x.1.1 = unified_code) by_pw).

(** The [shipment] column of the branch [current_stock_total < required_stock_total]. *)
Definition shipment_column (total_shipment_needed current_stock_total : Q)
    (ps : list (string * Q)) : list (string * Q * Q) :=
  if Qltb 0 current_stock_total then
    fmap (fun x => (x, (total_shipment_needed * x.2 / current_stock_total)%Q)) ps
  else
    let n_warehouses := inject_Z (Z.of_nat (length ps)) in
    fmap (fun x => (x, (total_shipment_needed / n_warehouses)%Q)) ps.

(** The body of the loop over the monthly forecast: the shipment rows of one
    product in one month. *)
Definition shipments_of_row (coverage_coefficient : Q) (row : forecast_row)
    (ps : list (string * Q)) : list shipment_row :=
  let date := f_date row in
  let unified_code := f_unified_code row in
  let forecasted_sales_monthly := f_quantity row in
  match ps with
  | [] => []
  | _ :: _ =>
      let required_stock_total := (forecasted_sales_monthly * coverage_coefficient)%Q in
      let current_stock_total := Qsum (fmap snd ps) in
      if Qltb current_stock_total required_stock_total then
        let total_shipment_needed := (required_stock_total - current_stock_total)%Q in
        fmap (fun x => ShipmentRow date x.1.1 unified_code forecasted_sales_monthly
                        x.1.2 required_stock_total x.2 None)
            (filter (fun x => Qltb 0 x.2 = true)
               (shipment_column total_shipment_needed current_stock_total ps))
      else
        let avg_required_per_warehouse :=
          (required_stock_total / inject_Z (Z.of_nat (length ps)))%Q in
        fmap (fun x => ShipmentRow date x.1 unified_code forecasted_sales_monthly
                        x.2 avg_required_per_warehouse
                        (avg_required_per_warehouse - x.2)%Q None)
            (filter (fun x => Qltb x.2 avg_required_per_warehouse = true) ps)
  end.

Definition calculate_shipments (coverage_coefficient : Q)
    (forecast : list forecast_row) (stocks : list stock_row) : list shipment_row :=
  let by_pw := stocks_by_product_warehouse stocks in
  forecast_monthly forecast ≫= fun row =>
    shipments_of_row coverage_coefficient row
      (product_stocks by_pw (f_unified_code row)).

(** The rows of the result that belong to one product and one month. *)
Definition rows_of (d : timestamp) (unified_code : string) (out : list shipment_row)
    : list shipment_row :=
  filter (fun r => sh_date r = d /\ sh_unified_code r = unified_code) out.

End ShipmentCalculator.

(** ** constraints.py *)

Module Constraints.

(** [self.default_box_size]. *)
Definition default_box_size : Z := 24.

(** The box size of one row, as the loop of [apply_box_constraints] picks it. *)
Definition resolve_box_size (box_sizes : gmap string Z) (unified_code : string) : Z :=
  if bool_decide (box_sizes <> ∅) && bool_decide (is_Some (box_sizes !! unified_code))
  then default 0%Z (box_sizes !! unified_code)
  else if bool_decide (is_Some (box_sizes !! "default"))
  then default 0%Z (box_sizes !! "default")
  else default_box_size.

Definition round_to_box (box_sizes : gmap string Z) (row : shipment_row) : shipment_row :=
  let unified_code := sh_unified_code row in
  let shipment := sh_shipment row in
  let box_size := resolve_box_size box_sizes unified_code in
  let boxes := Qceiling (shipment / inject_Z box_size) in
  let rounded_shipment := (inject_Z boxes * inject_Z box_size)%Q in
  ShipmentRow (sh_date row) (sh_warehouse row) unified_code (sh_forecasted_sales row)
    (sh_current_stock row) (sh_required_stock row) rounded_shipment (Some boxes).

(** [self_box_sizes] is the attribute [self.box_sizes], used when the argument
    [box_sizes] is [None]. *)
Definition apply_box_constraints (self_box_sizes : gmap string Z)
    (shipments : list shipment_row) (box_sizes : option (gmap string Z))
    : list shipment_row :=
  match shipments with
  | [] => shipments
  | _ :: _ =>
      let box_sizes := default self_box_sizes box_sizes in
      fmap (round_to_box box_sizes) shipments
  end.

Definition set_shipment (q : Q) (row : shipment_row) : shipment_row :=
  ShipmentRow (sh_date row) (sh_warehouse row) (sh_unified_code row)
    (sh_forecasted_sales row) (sh_current_stock row) (sh_required_stock row)
    q (sh_boxes row).

(** [withdraw_list] is the column [unified_code] of the withdraw table. *)
Definition apply_shipment_withdraw_constraints (shipments : list shipment_row)
    (withdraw_list : list string) : list shipment_row :=
  match withdraw_list with
  | [] => shipments
  | _ :: _ =>
      let withdraw_codes : gset string := list_to_set withdraw_list in
      fmap (fun r => if bool_decide (sh_unified_code r ∈ withdraw_codes)
                    then set_shipment 0 r else r)
          shipments
  end.

(** [_get_latest_stocks]: the stock of every product at the latest date of the
    table, summed over its rows. *)
Definition _get_latest_stocks (stocks : list stock_row) : gmap string Q :=
  match stocks with
  | [] => ∅
  | r :: rest =>
      let latest_date := max_date (s_date r) (fmap s_date rest) in
      let latest_stocks := filter (fun x => s_date x = latest_date) stocks in
      list_to_map
        (groupby_sum string_leb
           (fmap (fun x => (s_unified_code x, s_stock x)) latest_stocks))
  end.

(** A row of the defecture table.  [d_end_date] is [None] when the table has
    no column [end_date] (the program then takes [pd.Timestamp.max], which no
    date exceeds) or the cell holds no date (no date compares greater). *)
Record defecture_row := DefectureRow {
  d_unified_code : string;
  d_end_date : option timestamp
}.

(** [date > end_date]. *)
Definition after_end_date (date : timestamp) (end_date : option timestamp) : bool :=
  match end_date with
  | Some e => timestamp_gtb date e
  | None => false
  end.

Definition set_quantity (q : Q) (row : forecast_row) : forecast_row :=
  ForecastRow (f_date row) (f_unified_code row) q.

(** [forecast.loc[forecast['unified_code'] == unified_code, 'quantity'] = 0]. *)
Definition zero_product (unified_code : string) (forecast : list forecast_row)
    : list forecast_row :=
  fmap (fun r => if bool_decide (f_unified_code r = unified_code)
                then set_quantity 0 r else r)
      forecast.

(** One turn of the loop over the rows of the defecture table. *)
Definition defecture_step (latest_wb_stocks latest_ozon_stocks : gmap string Q)
    (forecast : list forecast_row) (defecture_row : defecture_row)
    : list forecast_row :=
  let unified_code := d_unified_code defecture_row in
  let end_date := d_end_date defecture_row in
  if bool_decide (unified_code ∈ fmap f_unified_code forecast) then
    let future_dates :=
      filter (fun r => f_unified_code r = unified_code /\
                       after_end_date (f_date r) end_date = true)
             forecast in
    if (length future_dates =? 0)%nat then
      let wb_total := default 0%Q (latest_wb_stocks !! unified_code) in
      let ozon_total := default 0%Q (latest_ozon_stocks !! unified_code) in
      let total_stock := (wb_total + ozon_total)%Q in
      if Qle_bool total_stock 0 then zero_product unified_code forecast
      else forecast
    else forecast
  else forecast.

Definition apply_defecture_constraints (forecast : list forecast_row)
    (defecture_list : list defecture_row) (wb_stocks ozon_stocks : list stock_row)
    : list forecast_row :=
  match defecture_list with
  | [] => forecast
  | _ :: _ =>
      let latest_wb_stocks := _get_latest_stocks wb_stocks in
      let latest_ozon_stocks := _get_latest_stocks ozon_stocks in
      fold_left (defecture_step latest_wb_stocks latest_ozon_stocks)
                defecture_list forecast
  end.

End Constraints.

(** ** model_evaluator.py *)

Module ModelEvaluator.

(** An entry of a numpy array of floats: a finite number, an infinity or NaN. *)
Inductive float := Finite (q : Q) | PosInf | NegInf | NaN.

Definition isfinite (x : float) : bool :=
  match x with Finite _ => true | _ => false end.

(** [x > 0]. *)
Definition positive (x : float) : bool :=
  match x with Finite q => Qltb 0 q | PosInf => true | _ => false end.

(** [x < y] on floats; every comparison with NaN is false. *)
Definition float_ltb (x y : float) : bool :=
  match x, y with
  | NaN, _ | _, NaN => false
  | _, NegInf => false
  | NegInf, _ => true
  | PosInf, _ => false
  | Finite _, PosInf => true
  | Finite a, Finite b => Qltb a b
  end.

Definition to_Q (x : float) : Q :=
  match x with Finite q => q | _ => 0%Q end.

(** The names of the metrics, as the docstring of [select_best_model] lists them. *)
Inductive metric := Mae | Rmse | Mape | R2.

#[global] Instance metric_eq_dec : EqDecision metric.
Proof. solve_decision. Defined.

(** The four metric keys of a result dictionary. *)
Record metrics := Metrics { mae : float; rmse : float; mape : float; r2 : float }.

(** The dictionary that [evaluate_model] builds and stores: the four metric
    keys, [model_name] and [unified_code]. *)
Record result := Result {
  scores : metrics;
  model_name : string;
  unified_code : string
}.

(** What [evaluate_model] returns: the worst-case dictionary of four keys, or
    the stored dictionary of six. *)
Inductive evaluation := Unscored (m : metrics) | Scored (r : result).

Definition worst_case : metrics := Metrics PosInf PosInf PosInf NegInf.

(** [self.evaluation_results]: a dictionary; its keys keep the order in which
    they were first inserted, which is the order [min] and [max] scan them in. *)
Abbreviation store := (list (string * result)).

(** [d[key] = value]. *)
Fixpoint dict_set (key : string) (value : result) (d : store) : store :=
  match d with
  | [] => [(key, value)]
  | (k, v) :: rest =>
      if String.eqb k key then (k, value) :: rest
      else (k, v) :: dict_set key value rest
  end.

(** [d.get(key)]. *)
Fixpoint dict_get (key : string) (d : store) : option result :=
  match d with
  | [] => None
  | (k, v) :: rest => if String.eqb k key then Some v else dict_get key rest
  end.

(** [results.get(metric, default)]: the four keys are always present. *)
Definition get (r : result) (m : metric) : float :=
  match m with
  | Mae => mae (scores r)
  | Rmse => rmse (scores r)
  | Mape => mape (scores r)
  | R2 => r2 (scores r)
  end.

Definition mean (l : list Q) : Q := (Qsum l / inject_Z (Z.of_nat (length l)))%Q.

(** [array[mask]]. *)
Fixpoint select {A : Type} (mask : list bool) (l : list A) : list A :=
  match mask, l with
  | b :: mask', x :: l' => if b then x :: select mask' l' else select mask' l'
  | _, _ => []
  end.

(** [f"{unified_code}_{model_name}"]. *)
Definition store_key (unified_code model_name : string) : string :=
  unified_code +:+ "_" +:+ model_name.

Section Evaluate.

(** [np.sqrt] on the non-negative rationals. *)
Variable np_sqrt : Q -> Q.

Definition evaluate_model (evaluation_results : store)
    (y_true y_pred : list float) (model_name unified_code : string)
    : evaluation * store :=
  if (length y_true =? 0)%nat || (length y_pred =? 0)%nat then
    (Unscored worst_case, evaluation_results)
  else
    let min_len := Nat.min (length y_true) (length y_pred) in
    let y_true := take min_len y_true in
    let y_pred := take min_len y_pred in
    let mask :=
      zip_with (fun t p => isfinite t && isfinite p && positive t) y_true y_pred in
    if (length (filter (fun b => b = true) mask) =? 0)%nat then
      (Unscored worst_case, evaluation_results)
    else
      let y_true_filtered := fmap to_Q (select mask y_true) in
      let y_pred_filtered := fmap to_Q (select mask y_pred) in
      let errors := zip_with Qminus y_true_filtered y_pred_filtered in
      let mae := mean (fmap Qabs errors) in
      let rmse := np_sqrt (mean (fmap (fun e => e * e)%Q errors)) in
      let mape :=
        (mean (fmap Qabs (zip_with Qdiv errors y_true_filtered)) * 100)%Q in
      let ss_res := Qsum (fmap (fun e => e * e)%Q errors) in
      let mu := mean y_true_filtered in
      let ss_tot := Qsum (fmap (fun t => (t - mu) * (t - mu))%Q y_true_filtered) in
      let r2 := if Qltb 0 ss_tot then Finite (1 - ss_res / ss_tot) else NegInf in
      let results :=
        Result (Metrics (Finite mae) (Finite rmse) (Finite mape) r2)
               model_name unified_code in
      let key := store_key unified_code model_name in
      (Scored results, dict_set key results evaluation_results).

End Evaluate.

(** The entries whose key starts with the product key and an underscore. *)
Definition product_results (evaluation_results : store) (unified_code : string)
    : store :=
  filter (fun kv => String.prefix (unified_code +:+ "_") kv.1 = true)
         evaluation_results.

(** [min(keys, key=f)] and [max(keys, key=f)]: the first entry that no later
    entry beats. *)
Definition min_by (f : string * result -> float) (first : string * result)
    (others : store) : string * result :=
  fold_left (fun best x => if float_ltb (f x) (f best) then x else best) others first.

Definition max_by (f : string * result -> float) (first : string * result)
    (others : store) : string * result :=
  fold_left (fun best x => if float_ltb (f best) (f x) then x else best) others first.

Definition select_best_model (evaluation_results : store) (unified_code : string)
    (metric : metric) : option string :=
  match product_results evaluation_results unified_code with
  | [] => None
  | first :: others =>
      let best :=
        if bool_decide (metric ∈ [Mae; Rmse; Mape])
        then min_by (fun kv => get kv.2 metric) first others
        else max_by (fun kv => get kv.2 metric) first others in
      Some (model_name best.2)
  end.

End ModelEvaluator.

(** ** forecast_manager.py *)

Module ForecastManager.

Record datetime := Datetime {
  dt_year : nat; dt_month : nat; dt_day : nat;
  dt_hour : nat; dt_minute : nat; dt_second : nat
}.

Definition digit (n : nat) : ascii := ascii_of_nat (48 + n mod 10).

Definition digits2 (n : nat) : string :=
  String (digit (n / 10)) (String (digit n) EmptyString).

Definition digits4 (n : nat) : string :=
  String (digit (n / 1000)) (String (digit (n / 100)) (digits2 n)).

(** [forecast_date.strftime('%Y%m%d_%H%M%S')]. *)
Definition strftime (d : datetime) : string :=
  digits4 (dt_year d) +:+ digits2 (dt_month d) +:+ digits2 (dt_day d) +:+ "_"
  +:+ digits2 (dt_hour d) +:+ digits2 (dt_minute d) +:+ digits2 (dt_second d).

(** A file of the storage directory: a table that [pd.read_csv] reads back, or
    a document it fails on. *)
Inductive file := Table (rows : list forecast_row) | Document.

(** The storage directory: its files by name, in the order [glob] lists them. *)
Abbreviation storage := (list (string * file)).

Fixpoint write_file (name : string) (content : file) (dir : storage) : storage :=
  match dir with
  | [] => [(name, content)]
  | (n, c) :: rest =>
      if String.eqb n name then (n, content) :: rest
      else (n, c) :: write_file name content rest
  end.

(** [now] is the value of [datetime.now()], used when no date is given;
    [metadata] tells whether a non-empty metadata dictionary was passed. *)
Definition save_forecast (now : datetime) (dir : storage)
    (forecast : list forecast_row) (model_name marketplace : string)
    (forecast_date : option datetime) (metadata : bool) : storage :=
  let forecast_date := default now forecast_date in
  let filename :=
    marketplace +:+ "_" +:+ model_name +:+ "_" +:+ strftime forecast_date +:+ ".csv" in
  let dir := write_file filename (Table forecast) dir in
  if metadata then
    let metadata_filename :=
      marketplace +:+ "_" +:+ model_name +:+ "_" +:+ strftime forecast_date
      +:+ "_metadata.json" in
    write_file metadata_filename Document dir
  else dir.

(** Shell-style matching of a file name against a pattern in which [*]
    stands for any run of characters.  The other wildcards of [glob], the
    question mark and the bracket classes, occur in no name that this program
    builds and are read as plain characters here. *)
Fixpoint fnmatch (pattern name : string) : bool :=
  match pattern with
  | EmptyString => match name with EmptyString => true | _ => false end
  | String c pattern' =>
      if Ascii.eqb c "*" then
        (fix star (s : string) : bool :=
           fnmatch pattern' s ||
           match s with EmptyString => false | String _ s' => star s' end) name
      else
        match name with
        | EmptyString => false
        | String d name' => Ascii.eqb c d && fnmatch pattern' name'
        end
  end.

(** [s.split(sep)]. *)
Fixpoint split_on (sep : ascii) (s : string) : list string :=
  match s with
  | EmptyString => [EmptyString]
  | String c s' =>
      if Ascii.eqb c sep then EmptyString :: split_on sep s'
      else match split_on sep s' with
           | p :: ps => String c p :: ps
           | [] => [String c EmptyString]
           end
  end.

(** [Path.stem]: the name without its last suffix. *)
Definition stem (name : string) : string :=
  match reverse (split_on "." name) with
  | _ :: (_ :: _) as front =>
      match String.concat "." (reverse front) with
      | EmptyString => name
      | s => s
      end
  | _ => name
  end.

(** The truth value of an optional string argument: [None] and the empty
    string are false. *)
Definition truthy (s : option string) : bool :=
  match s with
  | None | Some EmptyString => false
  | Some _ => true
  end.

(** A row of the history table: the row of the snapshot with the three
    columns that [get_forecast_history] adds. *)
Record history_row := HistoryRow {
  h_row : forecast_row;
  h_marketplace : option string;
  h_model_name : option string;
  h_forecast_date : option string
}.

Definition glob_pattern (marketplace model_name : option string) : string :=
  let pattern := "*_*_*.csv" in
  let pattern :=
    if truthy marketplace then default EmptyString marketplace +:+ "_*_*.csv"
    else pattern in
  let pattern :=
    if truthy model_name then "*_" +:+ default EmptyString model_name +:+ "_*.csv"
    else pattern in
  pattern.

Definition annotate (name : string) (rows : list forecast_row) : list history_row :=
  let parts := split_on "_" (stem name) in
  if (3 <=? length parts)%nat then
    fmap (fun r => HistoryRow r (parts !! 0%nat) (parts !! 1%nat)
                    (Some (String.concat "_" (drop 2 parts))))
        rows
  else fmap (fun r => HistoryRow r None None None) rows.

Definition get_forecast_history (dir : storage)
    (marketplace model_name unified_code : option string) : list history_row :=
  let pattern := glob_pattern marketplace model_name in
  let files := filter (fun f => fnmatch pattern f.1 = true) dir in
  let all_forecasts :=
    omap (fun f => match f.2 with
                   | Table rows => Some (annotate f.1 rows)
                   | Document => None
                   end)
         files in
  let result := mjoin all_forecasts in
  if truthy unified_code then
    filter (fun r => f_unified_code (h_row r) = default EmptyString unified_code) result
  else result.

End ForecastManager.


(** ** Example data

    The tables of the scenarios of the specification: a product with a
    demand of 100 in February 2024, forecast over two days, and its stock in
    two warehouses at the latest date of the stock table. *)

Module Scenario.

Definition forecast : list forecast_row :=
  [ForecastRow (Timestamp 2024 2 3) "Q" 60; ForecastRow (Timestamp 2024 2 9) "Q" 40].

Definition monthly : forecast_row := ForecastRow (Timestamp 2024 2 1) "Q" 100.

(** Stock 30 and 70: the total 100 is below the required 150. *)
Definition short_stocks : list stock_row :=
  [StockRow (Timestamp 2024 1 30) "W1" "Q" 500;
   StockRow (Timestamp 2024 1 31) "W1" "Q" 30;
   StockRow (Timestamp 2024 1 31) "W2" "Q" 70].

(** Stock 10 and 200: the total 210 covers the required 150. *)
Definition ample_stocks : list stock_row :=
  [StockRow (Timestamp 2024 1 31) "W1" "Q" 10;
   StockRow (Timestamp 2024 1 31) "W2" "Q" 200].

(** Scenario A: a demand of 100 and one warehouse holding 50, hence a
    shipment of 100. *)
Definition forecast_A : list forecast_row :=
  [ForecastRow (Timestamp 2024 2 1) "P" 100].

Definition stocks_A : list stock_row :=
  [StockRow (Timestamp 2024 1 31) "W" "P" 50].

Definition shipments : list shipment_row :=
  [ShipmentRow (Timestamp 2024 2 1) "W" "P" 100 50 150 100 None].

Definition box_sizes : gmap string Z := {[ "default" := 24%Z ]}.

Definition y_true : list ModelEvaluator.float :=
  [ModelEvaluator.Finite 0; ModelEvaluator.NaN; ModelEvaluator.Finite (-3);
   ModelEvaluator.Finite 5].

Definition y_pred : list ModelEvaluator.float :=
  [ModelEvaluator.Finite 1; ModelEvaluator.Finite 2; ModelEvaluator.Finite 2;
   ModelEvaluator.PosInf; ModelEvaluator.Finite 7].

End Scenario.

(** ** constraints.py: the remaining passes *)

Module ConstraintPasses.

Import Constraints.

(** One turn of the loop of [apply_withdraw_constraints] over the withdrawn
    products. *)
Definition withdraw_step (latest_wb_stocks latest_ozon_stocks latest_our_stocks
                            : gmap string Q)
    (forecast : list forecast_row) (unified_code : string) : list forecast_row :=
  if bool_decide (unified_code ∈ fmap f_unified_code forecast) then
    let wb_total := default 0%Q (latest_wb_stocks !! unified_code) in
    let ozon_total := default 0%Q (latest_ozon_stocks !! unified_code) in
    let our_total := default 0%Q (latest_our_stocks !! unified_code) in
    let total_stock := (wb_total + ozon_total + our_total)%Q in
    if Qle_bool total_stock 0 then zero_product unified_code forecast
    else forecast
  else forecast.

(** [withdraw_list] is the column [unified_code] of the withdraw table; the
    loop runs over the set of its values, in the order [elements] lists it. *)
Definition apply_withdraw_constraints (forecast : list forecast_row)
    (withdraw_list : list string) (wb_stocks ozon_stocks our_stocks : list stock_row)
    : list forecast_row :=
  match withdraw_list with
  | [] => forecast
  | _ :: _ =>
      let withdraw_codes : gset string := list_to_set withdraw_list in
      let latest_wb_stocks := _get_latest_stocks wb_stocks in
      let latest_ozon_stocks := _get_latest_stocks ozon_stocks in
      let latest_our_stocks := _get_latest_stocks our_stocks in
      fold_left (withdraw_step latest_wb_stocks latest_ozon_stocks latest_our_stocks)
                (elements withdraw_codes) forecast
  end.

Definition apply_shipment_defecture_constraints (shipments : list shipment_row)
    (defecture_list : list defecture_row) : list shipment_row :=
  match defecture_list with
  | [] => shipments
  | _ :: _ =>
      let defecture_codes : gset string :=
        list_to_set (fmap d_unified_code defecture_list) in
      fmap (fun r => if bool_decide (sh_unified_code r ∈ defecture_codes)
                     then set_shipment 0 r else r)
           shipments
  end.

End ConstraintPasses.

(** ** model_evaluator.py: cross-validation and the summaries *)

Module Evaluation.

Import ModelEvaluator.

(** A forecasting model as [cross_validate] uses it.  [fit_predict train
    unified_code periods] stands for [model.fit(train, unified_code)] followed
    by [model.predict(unified_code, periods=periods)]: the predictions, or
    [None] when the model has no [predict] or one of the calls raises, which
    [cross_validate] answers alike. *)
Record model := Model {
  fit_predict : list forecast_row -> string -> nat -> option (list float);
  get_model_name : string
}.

(** [int(x)]: rounding towards zero. *)
Definition py_int (x : Q) : Z := if Qle_bool 0 x then Qfloor x else Qceiling x.

(** [data.iloc[:k]] and [data.iloc[k:]]; a negative [k] counts from the end. *)
Definition iloc_to {A : Type} (k : Z) (data : list A) : list A :=
  if (0 <=? k)%Z then take (Z.to_nat k) data
  else take (length data - Z.to_nat (- k)) data.

Definition iloc_from {A : Type} (k : Z) (data : list A) : list A :=
  if (0 <=? k)%Z then drop (Z.to_nat k) data
  else drop (length data - Z.to_nat (- k)) data.

Section CrossValidate.

Variable np_sqrt : Q -> Q.

(** [x * y] on doubles: the product, rounded to a double.  Nothing is
    assumed about the rounding.  The product is taken to be finite: on an
    infinity or NaN [int] raises and [cross_validate] returns nothing. *)
Variable float_mul : Q -> Q -> Q.

Definition cross_validate (evaluation_results : store) (data : list forecast_row)
    (model : model) (unified_code : string) (train_size : Q)
    : evaluation * store :=
  if (length data <? 10)%nat then (Unscored worst_case, evaluation_results)
  else
    let split_idx :=
      py_int (float_mul (inject_Z (Z.of_nat (length data))) train_size) in
    let train_data := iloc_to split_idx data in
    let test_data := iloc_from split_idx data in
    if (length test_data =? 0)%nat then (Unscored worst_case, evaluation_results)
    else
      let periods := length test_data in
      match fit_predict model train_data unified_code periods with
      | None => (Unscored worst_case, evaluation_results)
      | Some y_pred =>
          let y_true := fmap (fun r => Finite (f_quantity r)) test_data in
          evaluate_model np_sqrt evaluation_results y_true y_pred
            (get_model_name model) unified_code
      end.

End CrossValidate.

(** The rows of the summary table, in the order of the store. *)
Definition get_evaluation_summary (evaluation_results : store) : list result :=
  fmap snd evaluation_results.

(** [key.split('_')[0]]. *)
Definition key_product (key : string) : string :=
  hd EmptyString (ForecastManager.split_on "_" key).

(** A row of the table of best models: a stored dictionary with the column
    [best_model].  The loop runs over the set of product keys, in the order
    [elements] lists it. *)
Definition get_best_models_summary (evaluation_results : store)
    : list (result * string) :=
  let products : gset string :=
    list_to_set (fmap (fun kv => key_product kv.1) evaluation_results) in
  omap (fun product =>
          match select_best_model evaluation_results product Mape with
          | Some best_model =>
              if ForecastManager.truthy (Some best_model) then
                let key := store_key product best_model in
                match dict_get key evaluation_results with
                | Some metrics => Some (metrics, best_model)
                | None => None
                end
              else None
          | None => None
          end)
       (elements products).

End Evaluation.

(** ** baseline.py *)

Module BaselineModel.

Fixpoint insert_sorted (x : Q) (l : list Q) : list Q :=
  match l with
  | [] => [x]
  | y :: rest => if Qle_bool x y then x :: l else y :: insert_sorted x rest
  end.

Definition sort_values (l : list Q) : list Q := foldr insert_sorted [] l.

(** [Series.median()]: the middle of the sorted values, or the mean of the
    two middle ones. *)
Definition median (l : list Q) : Q :=
  let sorted := sort_values l in
  let n := length l in
  if Nat.even n
  then ((nth (n / 2 - 1) sorted 0 + nth (n / 2) sorted 0) / 2)%Q
  else nth (n / 2) sorted 0%Q.

(** [fit]: [data] is the column [quantity] of the history of the product,
    a column of numbers, [fitted_values] the attribute [self.fitted_values]. *)
Definition fit (method : string) (fitted_values : gmap string Q)
    (data : list Q) (unified_code : string) : gmap string Q :=
  match data with
  | [] => <[unified_code := 0%Q]> fitted_values
  | _ :: _ =>
      let value :=
        if String.eqb method "mean" then ModelEvaluator.mean data
        else if String.eqb method "median" then median data
        else if String.eqb method "last" then List.last data 0%Q
        else ModelEvaluator.mean data in
      <[unified_code := value]> fitted_values
  end.

Definition predict (fitted_values : gmap string Q) (unified_code : string)
    (periods : nat) : list Q :=
  match fitted_values !! unified_code with
  | None => replicate periods 0%Q
  | Some value => replicate periods value
  end.

Definition get_model_name (method : string) : string :=
  "Baseline (" +:+ method +:+ ")".

End BaselineModel.

(** ** forecast_manager.py: loading a snapshot *)

Module Ledger.

Import ForecastManager.

(** What [load_forecast] gives back: a table, or the error that
    [pd.read_csv] raises on a file that is no table. *)
Inductive loaded := Frame (rows : list forecast_row) | ReadError.

Definition lookup_file (name : string) (dir : storage) : option file :=
  snd <$> List.find (fun f => String.eqb f.1 name) dir.

(** [max(files, key=lambda p: p.stat().st_mtime)]: the first file that no
    later file exceeds. *)
Definition latest_file (mtime : string -> Z) (first : string * file)
    (others : storage) : string * file :=
  fold_left (fun best f => if (mtime best.1 <? mtime f.1)%Z then f else best)
            others first.

(** [mtime] gives the modification time of the files of the directory. *)
Definition load_forecast (mtime : string -> Z) (dir : storage)
    (marketplace model_name : string) (forecast_date : option string) : loaded :=
  let filename :=
    if truthy forecast_date then
      Some (marketplace +:+ "_" +:+ model_name +:+ "_"
            +:+ default EmptyString forecast_date +:+ ".csv")
    else
      let pattern := marketplace +:+ "_" +:+ model_name +:+ "_*.csv" in
      match filter (fun f => fnmatch pattern f.1 = true) dir with
      | [] => None
      | first :: others => Some (latest_file mtime first others).1
      end in
  match filename with
  | None => Frame []
  | Some filename =>
      match lookup_file filename dir with
      | None => Frame []
      | Some (Table rows) => Frame rows
      | Some Document => ReadError
      end
  end.

(** [a <= b] on timestamps. *)
Definition timestamp_leb (a b : timestamp) : bool := negb (timestamp_gtb a b).

(** [frame.groupby(keys).agg({col: 'mean'}).reset_index()]: the sum of
    every group divided by the number of its rows. *)
Definition groupby_mean {K : Type} `{EqDecision K} (leb : K -> K -> bool)
    (rows : list (K * Q)) : list (K * Q) :=
  fmap (fun kv =>
          (kv.1,
           (kv.2 / inject_Z (Z.of_nat (length (filter (fun x => x.1 = kv.1) rows))))%Q))
       (groupby_sum leb rows).

(** A row of the comparison table: columns model_name, date, quantity. *)
Record comparison_row := ComparisonRow {
  c_model_name : string;
  c_date : timestamp;
  c_quantity : Q
}.

(** [actual_sales] is [None] when the argument is not given.  Rows of the
    history without a model name have no group. *)
Definition compare_forecasts (dir : storage) (marketplace unified_code : string)
    (actual_sales : option (list forecast_row)) : list comparison_row :=
  let forecasts :=
    get_forecast_history dir (Some marketplace) None (Some unified_code) in
  match forecasts with
  | [] => []
  | _ :: _ =>
      let comparison :=
        fmap (fun kv => ComparisonRow kv.1.1 kv.1.2 kv.2)
          (groupby_mean (pair_leb String.compare timestamp_leb)
             (omap (fun r => (fun m => ((m, f_date (h_row r)), f_quantity (h_row r)))
                               <$> h_model_name r)
                   forecasts)) in
      match actual_sales with
      | Some ((_ :: _) as actual_sales) =>
          let actual :=
            filter (fun r => f_unified_code r = unified_code) actual_sales in
          match actual with
          | [] => comparison
          | _ :: _ =>
              comparison
              ++ fmap (fun kv => ComparisonRow "Actual" kv.1 kv.2)
                   (groupby_sum timestamp_leb
                      (fmap (fun r => (f_date r, f_quantity r)) actual))
          end
      | _ => comparison
      end
  end.

End Ledger.

(** ** forecaster.py: the orchestrator's use of the passes *)

Module Forecaster.

Import ShipmentCalculator Constraints ConstraintPasses ModelEvaluator.

(** [withdraw] and [defecture] are the tables of [self.data], empty when the
    key is missing; the three stock tables likewise. *)
Definition apply_constraints_to_forecast (forecast : list forecast_row)
    (withdraw : list string) (defecture : list defecture_row)
    (wb_stocks ozon_stocks our_stocks : list stock_row) : list forecast_row :=
  let forecast :=
    match withdraw with
    | [] => forecast
    | _ :: _ =>
        apply_withdraw_constraints forecast withdraw wb_stocks ozon_stocks our_stocks
    end in
  match defecture with
  | [] => forecast
  | _ :: _ => apply_defecture_constraints forecast defecture wb_stocks ozon_stocks
  end.

(** [stocks] is the stock table of the marketplace, [box_sizes] the
    attribute [self.constraints.box_sizes]. *)
Definition calculate_shipments (coverage_coefficient : Q) (box_sizes : gmap string Z)
    (stocks : list stock_row) (withdraw : list string)
    (defecture : list defecture_row) (forecast : list forecast_row)
    : list shipment_row :=
  match stocks with
  | [] => []
  | _ :: _ =>
      let forecast_for_shipment := forecast_monthly forecast in
      let shipments :=
        ShipmentCalculator.calculate_shipments coverage_coefficient
          forecast_for_shipment stocks in
      let shipments :=
        match withdraw with
        | [] => shipments
        | _ :: _ => apply_shipment_withdraw_constraints shipments withdraw
        end in
      let shipments :=
        match defecture with
        | [] => shipments
        | _ :: _ => apply_shipment_defecture_constraints shipments defecture
        end in
      apply_box_constraints box_sizes shipments None
  end.

(** The model classes of the program with the attributes that their
    [get_model_name] reads; [order] and [seasonal_order] stand for the text
    that the f-string makes of the tuples. *)
Inductive model_kind :=
  | Baseline (method : string)
  | LinearRegression (use_feature_selection : bool)
  | BinaryLinearRegression
  | ARIMA (order : string) (seasonal_order : option string)
  | SARIMAX (order seasonal_order : string)
  | Prophet.

Definition get_model_name (model : model_kind) : string :=
  match model with
  | Baseline method => BaselineModel.get_model_name method
  | LinearRegression use_feature_selection =>
      if use_feature_selection then "Linear Regression (Feature Selection)"
      else "Linear Regression"
  | BinaryLinearRegression => "Linear Regression (Binary Features)"
  | ARIMA order seasonal_order =>
      match seasonal_order with
      | Some seasonal_order => "SARIMA" +:+ order +:+ "x" +:+ seasonal_order
      | None => "ARIMA" +:+ order
      end
  | SARIMAX order seasonal_order => "SARIMAX" +:+ order +:+ "x" +:+ seasonal_order
  | Prophet => "Prophet"
  end.

(** [self.models] after [prepare_models], when every library is there: the
    keys, which become the keys of the forecasts, with their models. *)
Definition prepare_models : list (string * model_kind) :=
  [("baseline_mean", Baseline "mean");
   ("baseline_median", Baseline "median");
   ("baseline_last", Baseline "last");
   ("linear_regression", LinearRegression true);
   ("binary_linear_regression", BinaryLinearRegression);
   ("arima", ARIMA "(1, 1, 1)" None);
   ("sarima", ARIMA "(1, 1, 1)" (Some "(1, 1, 1, 12)"));
   ("sarimax", SARIMAX "(1, 1, 1)" "(1, 1, 1, 12)");
   ("prophet", Prophet)].

(** [forecasts] maps the key of a model to its forecast; a row of the result
    carries the column [selected_model].  The loop runs over the set of all
    products of the forecasts, in the order [elements] lists it. *)
Definition select_best_forecasts (evaluation_results : store)
    (forecasts : gmap string (list forecast_row)) : list (forecast_row * string) :=
  let all_products : gset string :=
    list_to_set (fmap f_unified_code (mjoin (fmap snd (map_to_list forecasts)))) in
  mjoin
    (omap (fun product =>
             match select_best_model evaluation_results product Mape with
             | Some best_model =>
                 if ForecastManager.truthy (Some best_model) then
                   match forecasts !! best_model with
                   | Some forecast =>
                       Some (fmap (fun r => (r, best_model))
                               (filter (fun r => f_unified_code r = product) forecast))
                   | None => None
                   end
                 else None
             | None => None
             end)
          (elements all_products)).

End Forecaster.

(** * Properties *)

Import ShipmentCalculator Constraints ModelEvaluator ForecastManager.

(** ** Numbers *)

Lemma Qltb_lt (x y : Q) : Qltb x y = true <-> (x < y)%Q.
Proof.
  unfold Qltb. rewrite negb_true_iff. split; intros H.
  - apply Qnot_le_lt. intros Hle. apply Qle_bool_iff in Hle. congruence.
  - destruct (Qle_bool y x) eqn:E; [|reflexivity].
    apply Qle_bool_iff in E. apply Qlt_not_le in H. contradiction.
Qed.

Lemma Qltb_ge (x y : Q) : Qltb x y = false <-> (y <= x)%Q.
Proof.
  unfold Qltb. rewrite negb_false_iff. apply Qle_bool_iff.
Qed.

Lemma fold_left_Qplus (l : list Q) (a : Q) :
  (fold_left Qplus l a == a + fold_left Qplus l 0)%Q.
Proof.
  revert a. induction l as [|x l IH]; intros a; simpl.
  - ring.
  - rewrite (IH (a + x)%Q), (IH (0 + x)%Q). ring.
Qed.

Lemma Qsum_nil : Qsum [] = 0%Q.
Proof. reflexivity. Qed.

Lemma Qsum_cons (x : Q) (l : list Q) : (Qsum (x :: l) == x + Qsum l)%Q.
Proof.
  unfold Qsum. simpl. rewrite fold_left_Qplus. ring.
Qed.

Lemma Qsum_scale {A : Type} (c : Q) (f : A -> Q) (l : list A) :
  (Qsum ((fun x => c * f x) <$> l) == c * Qsum (f <$> l))%Q.
Proof.
  induction l as [|x l IH]; cbn [fmap list_fmap].
  - rewrite !Qsum_nil. ring.
  - rewrite !Qsum_cons, IH. ring.
Qed.

Lemma Qsum_const {A : Type} (c : Q) (l : list A) :
  (Qsum ((fun _ => c) <$> l) == inject_Z (Z.of_nat (length l)) * c)%Q.
Proof.
  induction l as [|x l IH].
  - cbn [fmap list_fmap length]. rewrite Qsum_nil. ring.
  - cbn [fmap list_fmap length]. rewrite Qsum_cons, IH, Nat2Z.inj_succ.
    unfold Z.succ. rewrite inject_Z_plus. ring.
Qed.

Lemma Qsum_ext {A : Type} (f g : A -> Q) (l : list A) :
  (forall x, x ∈ l -> (f x == g x)%Q) ->
  (Qsum (f <$> l) == Qsum (g <$> l))%Q.
Proof.
  induction l as [|x l IH]; intros H; cbn [fmap list_fmap].
  - reflexivity.
  - rewrite !Qsum_cons, IH, (H x).
    + reflexivity.
    + apply elem_of_cons. by left.
    + intros y Hy. apply H, elem_of_cons. by right.
Qed.

(** Dropping the entries that are not positive keeps the sum when no entry is
    negative. *)
Lemma Qsum_filter_positive {A : Type} (f : A -> Q) (l : list A) :
  Forall (fun x => (0 <= f x)%Q) l ->
  (Qsum (f <$> filter (fun x => Qltb 0 (f x) = true) l) == Qsum (f <$> l))%Q.
Proof.
  induction 1 as [|x l Hx Hl IH]; [reflexivity|].
  rewrite filter_cons. destruct (decide (Qltb 0 (f x) = true)) as [Hp|Hn].
  - cbn [fmap list_fmap]. rewrite !Qsum_cons, IH. reflexivity.
  - cbn [fmap list_fmap]. rewrite Qsum_cons, IH.
    apply not_true_is_false, Qltb_ge in Hn.
    assert (f x == 0)%Q as -> by (apply Qle_antisym; assumption). ring.
Qed.

Lemma length_nonzero {A : Type} (l : list A) :
  l <> [] -> ~ (inject_Z (Z.of_nat (length l)) == 0)%Q.
Proof.
  intros Hl H. destruct l as [|x l]; [done|].
  unfold Qeq in H. simpl in H. lia.
Qed.

(** ** Group-by *)

Section GroupByFacts.
Context {K : Type} `{EqDecision K}.
Variable leb : K -> K -> bool.

Lemma group_add_keys (k : K) (v : Q) (acc : list (K * Q)) :
  (group_add k v acc).*1 = if decide (k ∈ acc.*1) then acc.*1 else acc.*1 ++ [k].
Proof.
  induction acc as [|[k' v'] acc IH]; cbn [group_add fmap list_fmap fst].
  - destruct (decide (k ∈ [])) as [Hin|_]; [|reflexivity].
    by apply elem_of_nil in Hin.
  - destruct (decide (k = k')) as [->|Hne]; cbn [fmap list_fmap fst].
    + rewrite decide_True; [reflexivity|]. apply elem_of_cons. by left.
    + change (list_fmap _ _ fst ?l) with (l.*1). rewrite IH.
      destruct (decide (k ∈ acc.*1)) as [Hin|Hnin].
      * rewrite decide_True; [reflexivity|]. apply elem_of_cons. by right.
      * rewrite decide_False; [reflexivity|].
        intros [?|?]%elem_of_cons; contradiction.
Qed.

Lemma group_add_NoDup (k : K) (v : Q) (acc : list (K * Q)) :
  NoDup acc.*1 -> NoDup (group_add k v acc).*1.
Proof.
  intros Hnd. rewrite group_add_keys.
  destruct (decide (k ∈ acc.*1)) as [Hin|Hnin]; [assumption|].
  apply NoDup_app. split; [assumption|]. split.
  - intros x Hx Hk. apply list_elem_of_singleton in Hk. by subst.
  - apply NoDup_singleton.
Qed.

Lemma group_sums_NoDup (rows : list (K * Q)) : NoDup (group_sums rows).*1.
Proof.
  unfold group_sums.
  assert (forall acc : list (K * Q), NoDup acc.*1 ->
            NoDup (fold_left (fun acc kv => group_add kv.1 kv.2 acc) rows acc).*1)
    as Hgen.
  { induction rows as [|kv rows IH]; intros acc Hacc; cbn [fold_left].
    - assumption.
    - apply IH, group_add_NoDup, Hacc. }
  apply Hgen. constructor.
Qed.

Lemma sort_insert_perm (x : K * Q) (l : list (K * Q)) :
  sort_insert leb x l ≡ₚ x :: l.
Proof.
  induction l as [|y l IH]; cbn [sort_insert].
  - reflexivity.
  - destruct (leb x.1 y.1); [reflexivity|].
    rewrite IH. apply Permutation_swap.
Qed.

Lemma sort_by_key_perm (l : list (K * Q)) : sort_by_key leb l ≡ₚ l.
Proof.
  induction l as [|x l IH]; cbn [sort_by_key foldr].
  - reflexivity.
  - rewrite sort_insert_perm. apply Permutation_skip, IH.
Qed.

(** The result of a group-by holds every key once. *)
Lemma groupby_sum_NoDup (rows : list (K * Q)) : NoDup (groupby_sum leb rows).*1.
Proof.
  unfold groupby_sum. rewrite sort_by_key_perm. apply group_sums_NoDup.
Qed.

End GroupByFacts.

(** ** Lists *)

Lemma filter_all {A : Type} (P : A -> Prop) `{!forall x, Decision (P x)} (l : list A) :
  (forall x, x ∈ l -> P x) -> filter P l = l.
Proof.
  induction l as [|x l IH]; intros Hall; [reflexivity|].
  rewrite filter_cons_True, IH; [reflexivity| |].
  - intros y Hy. apply Hall, elem_of_cons. by right.
  - apply Hall, elem_of_cons. by left.
Qed.

Lemma filter_none {A : Type} (P : A -> Prop) `{!forall x, Decision (P x)} (l : list A) :
  (forall x, x ∈ l -> ~ P x) -> filter P l = [].
Proof.
  induction l as [|x l IH]; intros Hall; [reflexivity|].
  rewrite filter_cons_False, IH; [reflexivity| |].
  - intros y Hy. apply Hall, elem_of_cons. by right.
  - apply Hall, elem_of_cons. by left.
Qed.

(** When the rows of a frame have distinct keys and every row produced from
    a row carries its key, the produced rows of one key are those of its row. *)
Lemma filter_bind_key {A B K : Type} (key : A -> K) (P : K -> B -> Prop)
    `{!forall k x, Decision (P k x)} (f : A -> list B) (l : list A) (a : A) :
  NoDup (key <$> l) ->
  a ∈ l ->
  (forall r x, x ∈ f r -> P (key r) x) ->
  (forall r k x, x ∈ f r -> P k x -> k = key r) ->
  filter (P (key a)) (l ≫= f) = f a.
Proof.
  intros Hnd Ha Hown Hkey.
  induction l as [|r l IH]; [by apply elem_of_nil in Ha|].
  rewrite bind_cons, filter_app.
  cbn [fmap list_fmap] in Hnd. apply NoDup_cons in Hnd as [Hr Hnd].
  apply elem_of_cons in Ha as [->|Hin].
  - rewrite (filter_all _ (f r)) by (intros x Hx; by apply Hown).
    rewrite (filter_none _ (l ≫= f)); [apply app_nil_r|].
    intros x [r' [Hx Hr']]%list_elem_of_bind HP.
    apply Hr. rewrite (Hkey _ _ _ Hx HP). by apply list_elem_of_fmap_2.
  - rewrite (filter_none _ (f r)); [by apply IH|].
    intros x Hx HP. apply Hr. rewrite <- (Hkey _ _ _ Hx HP).
    by apply list_elem_of_fmap_2.
Qed.

(** ** Shipment calculator *)

Lemma forecast_monthly_NoDup (forecast : list forecast_row) :
  NoDup ((fun r => (f_date r, f_unified_code r)) <$> forecast_monthly forecast).
Proof.
  unfold forecast_monthly. rewrite <- list_fmap_compose.
  set (g := groupby_sum _ _).
  assert (NoDup g.*1) as Hg by apply groupby_sum_NoDup.
  change (NoDup ((fun k : period * string => (to_timestamp k.1, k.2)) ∘ fst <$> g)).
  rewrite list_fmap_compose.
  apply NoDup_fmap_2_strong; [|assumption].
  intros [[y m] c] [[y' m'] c'] _ _ Heq.
  unfold to_timestamp in Heq. cbn in Heq. congruence.
Qed.

Lemma product_stocks_NoDup (stocks : list stock_row) (unified_code : string) :
  NoDup (product_stocks (stocks_by_product_warehouse stocks) unified_code).*1.
Proof.
  unfold product_stocks. rewrite <- list_fmap_compose.
  set (by_pw := stocks_by_product_warehouse stocks).
  set (rows := filter _ by_pw).
  assert (NoDup rows.*1) as Hrows.
  { apply (sublist_NoDup _ by_pw.*1); [apply groupby_sum_NoDup|].
    apply fmap_sublist, sublist_filter. }
  change (NoDup (snd ∘ fst <$> rows)). rewrite list_fmap_compose.
  apply NoDup_fmap_2_strong; [|assumption].
  intros [c1 w1] [c2 w2] H1 H2 Heq. cbn in Heq. subst w2.
  apply list_elem_of_fmap in H1 as [x1 [E1 Hx1]].
  apply list_elem_of_fmap in H2 as [x2 [E2 Hx2]].
  apply list_elem_of_filter in Hx1 as [P1 _].
  apply list_elem_of_filter in Hx2 as [P2 _].
  rewrite <- E1 in P1. rewrite <- E2 in P2. cbn in P1, P2. congruence.
Qed.

Lemma shipments_of_row_key (coverage : Q) (row : forecast_row)
    (ps : list (string * Q)) (x : shipment_row) :
  x ∈ shipments_of_row coverage row ps ->
  sh_date x = f_date row /\ sh_unified_code x = f_unified_code row.
Proof.
  unfold shipments_of_row. destruct ps as [|p ps]; [by intros ?%elem_of_nil|].
  destruct (Qltb _ _); intros [y [-> _]]%list_elem_of_fmap; done.
Qed.

(** The rows that [calculate_shipments] emits for one product and month are
    those of the turn of its loop for that product and month. *)
Lemma rows_of_calculate_shipments (coverage : Q) (forecast : list forecast_row)
    (stocks : list stock_row) (row : forecast_row) :
  row ∈ forecast_monthly forecast ->
  rows_of (f_date row) (f_unified_code row)
    (calculate_shipments coverage forecast stocks)
  = shipments_of_row coverage row
      (product_stocks (stocks_by_product_warehouse stocks) (f_unified_code row)).
Proof.
  intros Hrow. unfold rows_of, calculate_shipments.
  set (f := fun r : forecast_row =>
              shipments_of_row coverage r
                (product_stocks (stocks_by_product_warehouse stocks)
                   (f_unified_code r))).
  assert (forall r x, x ∈ f r ->
            sh_date x = f_date r /\ sh_unified_code x = f_unified_code r) as Hown.
  { intros r x Hx. by apply shipments_of_row_key in Hx. }
  exact (filter_bind_key (fun r => (f_date r, f_unified_code r))
           (fun k x => sh_date x = k.1 /\ sh_unified_code x = k.2)
           f (forecast_monthly forecast) row
           (forecast_monthly_NoDup forecast) Hrow Hown
           (fun r k x Hx HP =>
              eq_trans (surjective_pairing k)
                (f_equal2 pair (eq_trans (eq_sym (proj1 HP)) (proj1 (Hown r x Hx)))
                               (eq_trans (eq_sym (proj2 HP)) (proj2 (Hown r x Hx)))))).
Qed.

Lemma filter_fmap {A B : Type} (P : B -> Prop) `{!forall x, Decision (P x)}
    (f : A -> B) (l : list A) :
  filter P (f <$> l) = f <$> filter (fun x => P (f x)) l.
Proof.
  induction l as [|x l IH]; [reflexivity|].
  cbn [fmap list_fmap]. rewrite !filter_cons.
  destruct (decide (P (f x))); cbn [fmap list_fmap]; by rewrite IH.
Qed.

(** Among rows built from a table with one row per warehouse, the rows of a
    warehouse are the row built from its entry, if the entry is selected. *)
Lemma filter_warehouse {A : Type} (P : A -> Prop) `{!forall x, Decision (P x)}
    (key : A -> string) (mk : A -> shipment_row) (l : list A) (x : A) :
  NoDup (key <$> l) ->
  x ∈ l ->
  (forall y, sh_warehouse (mk y) = key y) ->
  filter (fun r => sh_warehouse r = key x) (mk <$> filter P l)
  = if decide (P x) then [mk x] else [].
Proof.
  intros Hnd Hx Hmk.
  assert (forall l', key x ∉ key <$> l' ->
            filter (fun r => sh_warehouse r = key x) (mk <$> filter P l') = [])
    as Hnone.
  { intros l' Hnin. apply filter_none.
    intros r [z [-> Hz]]%list_elem_of_fmap Hr. apply Hnin.
    apply list_elem_of_filter in Hz as [_ Hz].
    rewrite <- Hr, Hmk. by apply list_elem_of_fmap_2. }
  induction l as [|y l IH]; [by apply elem_of_nil in Hx|].
  cbn [fmap list_fmap] in Hnd. apply NoDup_cons in Hnd as [Hy Hnd].
  apply elem_of_cons in Hx as [->|Hx].
  - rewrite filter_cons. destruct (decide (P y)) as [Hp|Hp].
    + cbn [fmap list_fmap]. rewrite filter_cons_True by apply Hmk.
      by rewrite Hnone.
    + by apply Hnone.
  - assert (key y <> key x) as Hne.
    { intros Heq. apply Hy. rewrite Heq. by apply list_elem_of_fmap_2. }
    rewrite filter_cons. destruct (decide (P y)) as [Hp|Hp].
    + cbn [fmap list_fmap]. rewrite filter_cons_False by (by rewrite Hmk).
      by apply IH.
    + by apply IH.
Qed.

Lemma shipment_column_fmap (needed current : Q) (ps : list (string * Q)) :
  shipment_column needed current ps
  = (fun x => (x, if Qltb 0 current then (needed * x.2 / current)%Q
                  else (needed / inject_Z (Z.of_nat (length ps)))%Q)) <$> ps.
Proof.
  unfold shipment_column. by destruct (Qltb 0 current).
Qed.

Lemma shipment_column_sum (needed current : Q) (ps : list (string * Q)) :
  ps <> [] ->
  (current == Qsum ps.*2)%Q ->
  (Qsum (shipment_column needed current ps).*2 == needed)%Q.
Proof.
  intros Hps Hcur. unfold shipment_column.
  destruct (Qltb 0 current) eqn:E; cbn zeta; rewrite <- list_fmap_compose.
  - apply Qltb_lt in E.
    rewrite (Qsum_ext _ (fun x => (needed / current) * x.2)%Q).
    + rewrite (Qsum_scale (needed / current) snd), <- Hcur. field. lra.
    + intros x _. cbn. field. lra.
  - rewrite (Qsum_const (needed / inject_Z (Z.of_nat (length ps))) ps).
    field. by apply length_nonzero.
Qed.

Lemma shipment_column_nonneg (needed current : Q) (ps : list (string * Q)) :
  ps <> [] ->
  (0 < needed)%Q ->
  Forall (fun x => (0 <= x.2)%Q) ps ->
  Forall (fun x => (0 <= x.2)%Q) (shipment_column needed current ps).
Proof.
  intros Hps Hneeded Hnn. rewrite shipment_column_fmap.
  apply Forall_fmap. eapply Forall_impl; [exact Hnn|].
  intros x Hx. cbn. destruct (Qltb 0 current) eqn:E.
  - apply Qltb_lt in E. apply Qle_shift_div_l; [assumption|].
    rewrite Qmult_0_l. apply Qmult_le_0_compat; [lra|assumption].
  - apply Qle_shift_div_l.
    + assert (0 <= inject_Z (Z.of_nat (length ps)))%Q as Hl
        by (unfold Qle; simpl; lia).
      apply length_nonzero in Hps. lra.
    + lra.
Qed.

Lemma shipments_of_row_shortfall (coverage : Q) (row : forecast_row)
    (ps : list (string * Q)) :
  ps <> [] ->
  (Qsum ps.*2 < f_quantity row * coverage)%Q ->
  shipments_of_row coverage row ps
  = (fun x : string * Q * Q =>
       ShipmentRow (f_date row) x.1.1 (f_unified_code row) (f_quantity row)
         x.1.2 (f_quantity row * coverage)%Q x.2 None)
    <$> filter (fun x => Qltb 0 x.2 = true)
          (shipment_column (f_quantity row * coverage - Qsum ps.*2)%Q
             (Qsum ps.*2) ps).
Proof.
  intros Hps Hlt. apply Qltb_lt in Hlt. unfold shipments_of_row.
  destruct ps as [|p ps]; [done|]. cbn zeta. by rewrite Hlt.
Qed.

Lemma shipments_of_row_balance (coverage : Q) (row : forecast_row)
    (ps : list (string * Q)) :
  ps <> [] ->
  (f_quantity row * coverage <= Qsum ps.*2)%Q ->
  shipments_of_row coverage row ps
  = (fun x : string * Q =>
       ShipmentRow (f_date row) x.1 (f_unified_code row) (f_quantity row) x.2
         (f_quantity row * coverage / inject_Z (Z.of_nat (length ps)))%Q
         (f_quantity row * coverage / inject_Z (Z.of_nat (length ps)) - x.2)%Q
         None)
    <$> filter (fun x =>
                  Qltb x.2 (f_quantity row * coverage
                            / inject_Z (Z.of_nat (length ps)))%Q = true) ps.
Proof.
  intros Hps Hge. apply Qltb_ge in Hge. unfold shipments_of_row.
  destruct ps as [|p ps]; [done|]. cbn zeta. by rewrite Hge.
Qed.

(** C1, as amended.  Take a product and month of the monthly forecast for
    which the product has stock records and the total stock is below the required
    total [monthly demand * coverage coefficient].  When the total stock is
    positive, a warehouse holding stock [s] receives one row, with shipment
    [shortfall * s / current_total] (and none when that amount is not
    positive, that is when [s <= 0]); when the total stock is not positive,
    so in particular when it is zero, every warehouse of the product receives
    one row with the even share [shortfall / warehouse_count].  No other row
    is emitted for the product and month, and when no warehouse holds a
    negative stock the emitted shipments sum to the shortfall
    [required_total - current_total], in exact arithmetic. *)
Theorem shortfall_distribution (coverage : Q) (forecast : list forecast_row)
    (stocks : list stock_row) (row : forecast_row) :
  let ps := product_stocks (stocks_by_product_warehouse stocks) (f_unified_code row) in
  let required_total := (f_quantity row * coverage)%Q in
  let current_total := Qsum ps.*2 in
  let shortfall := (required_total - current_total)%Q in
  let warehouse_count := inject_Z (Z.of_nat (length ps)) in
  let emitted :=
    rows_of (f_date row) (f_unified_code row)
      (calculate_shipments coverage forecast stocks) in
  row ∈ forecast_monthly forecast ->
  ps <> [] ->
  (current_total < required_total)%Q ->
  ((0 < current_total)%Q ->
   forall w s, (w, s) ∈ ps ->
     ((0 < s)%Q ->
      filter (fun r => sh_warehouse r = w) emitted
      = [ShipmentRow (f_date row) w (f_unified_code row) (f_quantity row) s
           required_total (shortfall * s / current_total)%Q None])
     /\ ((s <= 0)%Q -> filter (fun r => sh_warehouse r = w) emitted = []))
  /\ ((current_total <= 0)%Q ->
      forall w s, (w, s) ∈ ps ->
        filter (fun r => sh_warehouse r = w) emitted
        = [ShipmentRow (f_date row) w (f_unified_code row) (f_quantity row) s
             required_total (shortfall / warehouse_count)%Q None])
  /\ (forall r, r ∈ emitted -> sh_warehouse r ∈ ps.*1)
  /\ (Forall (fun x => (0 <= x.2)%Q) ps ->
      (Qsum (sh_shipment <$> emitted) == shortfall)%Q).
Proof.
  intros ps required_total current_total shortfall warehouse_count emitted
    Hrow Hps Hlt.
  assert (emitted
          = (fun x : string * Q * Q =>
               ShipmentRow (f_date row) x.1.1 (f_unified_code row) (f_quantity row)
                 x.1.2 required_total x.2 None)
            <$> filter (fun x => Qltb 0 x.2 = true)
                  (shipment_column shortfall current_total ps)) as Hem.
  { subst emitted. rewrite rows_of_calculate_shipments by assumption.
    by apply shipments_of_row_shortfall. }
  assert (0 < shortfall)%Q as Hneeded by (subst shortfall; lra).
  assert (NoDup (fst <$> ps)) as Hnd by apply product_stocks_NoDup.
  assert (0 < warehouse_count)%Q as Hcount.
  { assert (0 <= warehouse_count)%Q by (unfold warehouse_count, Qle; simpl; lia).
    apply length_nonzero in Hps. fold warehouse_count in Hps. lra. }
  pose proof Hem as Hem'.
  rewrite shipment_column_fmap, filter_fmap, <- list_fmap_compose in Hem.
  split; [|split; [|split]].
  - intros Hpos w s Hws. rewrite Hem.
    apply Qltb_lt in Hpos as Hb.
    rewrite (filter_warehouse _ fst _ ps (w, s) Hnd Hws) by done.
    cbn. rewrite Hb.
    assert (Qltb 0 (shortfall * s / current_total) = Qltb 0 s) as ->.
    { destruct (Qltb 0 s) eqn:E.
      - apply Qltb_lt in E. apply Qltb_lt. apply Qlt_shift_div_l; [assumption|].
        rewrite Qmult_0_l. by apply Qmult_lt_0_compat.
      - apply Qltb_ge in E. apply Qltb_ge. apply Qle_shift_div_r; [assumption|].
        rewrite Qmult_0_l.
        assert (0 <= shortfall * - s)%Q by (apply Qmult_le_0_compat; lra). lra. }
    split; intros Hs.
    + apply Qltb_lt in Hs. rewrite Hs. by rewrite decide_True.
    + apply Qltb_ge in Hs. rewrite Hs. by rewrite decide_False.
  - intros Hzero w s Hws. rewrite Hem.
    apply Qltb_ge in Hzero as Hb.
    rewrite (filter_warehouse _ fst _ ps (w, s) Hnd Hws) by done.
    cbn. rewrite Hb. rewrite decide_True; [reflexivity|].
    apply Qltb_lt. apply Qlt_shift_div_l; [assumption|]. lra.
  - intros r Hr. rewrite Hem in Hr.
    apply list_elem_of_fmap in Hr as [x [-> Hx]].
    apply list_elem_of_filter in Hx as [_ Hx]. cbn.
    by apply list_elem_of_fmap_2.
  - intros Hnn. rewrite Hem', <- list_fmap_compose.
    change (Qsum (snd <$> filter (fun x : string * Q * Q => Qltb 0 (snd x) = true)
                    (shipment_column shortfall current_total ps)) == shortfall)%Q.
    rewrite Qsum_filter_positive.
    + apply shipment_column_sum; [assumption|reflexivity].
    + by apply shipment_column_nonneg.
Qed.

(** C1, as first stated, fails.  The stocks -50 and 100 of a product have
    the positive total 50, below the required total 150, so the shortfall is
    100.  The warehouse with the negative stock receives no row, not the
    amount [shortfall * s / current_total], and the only row emitted carries
    200: the shipments do not sum to the shortfall. *)
Lemma shortfall_sum_counterexample :
  let stocks := [StockRow (Timestamp 2024 1 31) "W1" "Q" (-50);
                 StockRow (Timestamp 2024 1 31) "W2" "Q" 100] in
  let ps := product_stocks (stocks_by_product_warehouse stocks) "Q" in
  let emitted :=
    rows_of (Timestamp 2024 2 1) "Q"
      (calculate_shipments 1.5 Scenario.forecast stocks) in
  Scenario.monthly ∈ forecast_monthly Scenario.forecast
  /\ ps.*1 = ["W1"; "W2"]
  /\ (0 < Qsum ps.*2)%Q
  /\ (Qsum ps.*2 < f_quantity Scenario.monthly * 1.5)%Q
  /\ (f_quantity Scenario.monthly * 1.5 - Qsum ps.*2 == 100)%Q
  /\ sh_warehouse <$> emitted = ["W2"]
  /\ (Qsum (sh_shipment <$> emitted) == 200)%Q.
Proof.
  cbv zeta. split; [vm_compute; constructor|].
  split; [vm_compute; reflexivity|].
  split; [vm_compute; reflexivity|].
  split; [vm_compute; reflexivity|].
  split; [vm_compute; reflexivity|].
  split; vm_compute; reflexivity.
Qed.

(** C8.  Take a product and month of the monthly forecast for which the total
    stock reaches the required total.  Every warehouse of the product whose
    stock is strictly below the even share [required_total / warehouse_count]
    receives exactly one row, with shipment [share - stock]; a warehouse at or
    above the share receives none, and no other row is emitted for the
    product and month. *)
Theorem balancing_pass (coverage : Q) (forecast : list forecast_row)
    (stocks : list stock_row) (row : forecast_row) :
  let ps := product_stocks (stocks_by_product_warehouse stocks) (f_unified_code row) in
  let required_total := (f_quantity row * coverage)%Q in
  let current_total := Qsum ps.*2 in
  let share := (required_total / inject_Z (Z.of_nat (length ps)))%Q in
  let emitted :=
    rows_of (f_date row) (f_unified_code row)
      (calculate_shipments coverage forecast stocks) in
  row ∈ forecast_monthly forecast ->
  (required_total <= current_total)%Q ->
  (forall w s, (w, s) ∈ ps ->
     ((s < share)%Q ->
      filter (fun r => sh_warehouse r = w) emitted
      = [ShipmentRow (f_date row) w (f_unified_code row) (f_quantity row) s
           share (share - s)%Q None])
     /\ ((share <= s)%Q -> filter (fun r => sh_warehouse r = w) emitted = []))
  /\ (forall r, r ∈ emitted -> sh_warehouse r ∈ ps.*1).
Proof.
  intros ps required_total current_total share emitted Hrow Hge.
  assert (NoDup (fst <$> ps)) as Hnd by apply product_stocks_NoDup.
  assert (ps <> [] ->
          emitted
          = (fun x : string * Q =>
               ShipmentRow (f_date row) x.1 (f_unified_code row) (f_quantity row)
                 x.2 share (share - x.2)%Q None)
            <$> filter (fun x => Qltb x.2 share = true) ps) as Hem.
  { intros Hps. subst emitted. rewrite rows_of_calculate_shipments by assumption.
    by apply shipments_of_row_balance. }
  split.
  - intros w s Hws.
    assert (ps <> []) as Hps by (intros E; rewrite E in Hws; by apply elem_of_nil in Hws).
    rewrite (Hem Hps), (filter_warehouse _ fst _ ps (w, s) Hnd Hws) by done.
    cbn. split; intros Hs.
    + apply Qltb_lt in Hs. by rewrite decide_True.
    + apply Qltb_ge in Hs. rewrite decide_False; [done|]. by rewrite Hs.
  - intros r Hr. destruct (decide (ps = [])) as [E|Hps].
    + subst emitted. rewrite rows_of_calculate_shipments in Hr by assumption.
      fold ps in Hr. rewrite E in Hr. by apply elem_of_nil in Hr.
    + rewrite (Hem Hps) in Hr.
      apply list_elem_of_fmap in Hr as [x [-> Hx]].
      apply list_elem_of_filter in Hx as [_ Hx]. cbn.
      by apply list_elem_of_fmap_2.
Qed.

(** ** Constraint engine *)

(** The box size of a product: its own entry, else the entry ["default"],
    else 24. *)
Lemma resolve_box_size_order (box_sizes : gmap string Z) (unified_code : string) :
  resolve_box_size box_sizes unified_code
  = match box_sizes !! unified_code with
    | Some b => b
    | None => match box_sizes !! "default" with
              | Some b => b
              | None => 24%Z
              end
    end.
Proof.
  unfold resolve_box_size.
  destruct (box_sizes !! unified_code) as [b|] eqn:E.
  - rewrite bool_decide_eq_true_2.
    + rewrite bool_decide_eq_true_2; [reflexivity|]. by eexists.
    + intros ->. by rewrite lookup_empty in E.
  - rewrite (bool_decide_eq_false_2 (is_Some None)) by (by intros [? ?]).
    rewrite andb_false_r.
    destruct (box_sizes !! "default") as [b|] eqn:E'.
    + rewrite bool_decide_eq_true_2; [reflexivity|]. by eexists.
    + rewrite bool_decide_eq_false_2; [reflexivity|]. by intros [? ?].
Qed.

Lemma resolve_box_size_positive (box_sizes : gmap string Z) (unified_code : string) :
  map_Forall (fun _ b => (0 < b)%Z) box_sizes ->
  (0 < resolve_box_size box_sizes unified_code)%Z.
Proof.
  intros Hpos. rewrite resolve_box_size_order.
  destruct (box_sizes !! unified_code) as [b|] eqn:E; [by apply (Hpos _ _ E)|].
  destruct (box_sizes !! "default") as [b|] eqn:E'; [by apply (Hpos _ _ E')|].
  lia.
Qed.

Lemma Qceiling_multiple (k b : Z) :
  b <> 0%Z -> Qceiling (inject_Z k * inject_Z b / inject_Z b) = k.
Proof.
  intros Hb.
  assert (inject_Z k * inject_Z b / inject_Z b == inject_Z k)%Q as ->.
  { field. unfold Qeq. simpl. lia. }
  apply Qceiling_Z.
Qed.

Lemma round_to_box_twice (box_sizes : gmap string Z) (row : shipment_row) :
  resolve_box_size box_sizes (sh_unified_code row) <> 0%Z ->
  round_to_box box_sizes (round_to_box box_sizes row) = round_to_box box_sizes row.
Proof.
  intros Hb. unfold round_to_box. cbn [sh_unified_code sh_shipment sh_date
    sh_warehouse sh_forecasted_sales sh_current_stock sh_required_stock].
  by rewrite Qceiling_multiple.
Qed.

(** C2.  When every configured box size is positive, [apply_box_constraints]
    turns each shipment row into a row of the same product and warehouse
    whose box size [b] is the entry of the product, else the entry
    ["default"], else 24; whose box count is [ceil(shipment / b)]; whose
    shipment is [boxes * b], which is at least the original shipment and a
    whole multiple of [b], so that [boxes = rounded / b].  Applying the pass
    again with the same box sizes changes nothing. *)
Theorem box_rounding (self_box_sizes : gmap string Z)
    (box_sizes : option (gmap string Z)) (shipments : list shipment_row) :
  let sizes := default self_box_sizes box_sizes in
  let box_size_of := fun unified_code : string =>
    match sizes !! unified_code with
    | Some b => b
    | None => match sizes !! "default" with Some b => b | None => 24%Z end
    end in
  let rounded := apply_box_constraints self_box_sizes shipments box_sizes in
  map_Forall (fun _ b => (0 < b)%Z) sizes ->
  length rounded = length shipments
  /\ (forall i row, shipments !! i = Some row ->
        exists row', rounded !! i = Some row'
          /\ let b := box_size_of (sh_unified_code row) in
             let boxes := Qceiling (sh_shipment row / inject_Z b) in
             sh_boxes row' = Some boxes
             /\ sh_shipment row' = (inject_Z boxes * inject_Z b)%Q
             /\ (sh_shipment row <= sh_shipment row')%Q
             /\ (exists k : Z, sh_shipment row' == inject_Z (k * b))%Q
             /\ (inject_Z boxes == sh_shipment row' / inject_Z b)%Q
             /\ sh_date row' = sh_date row
             /\ sh_warehouse row' = sh_warehouse row
             /\ sh_unified_code row' = sh_unified_code row
             /\ sh_forecasted_sales row' = sh_forecasted_sales row
             /\ sh_current_stock row' = sh_current_stock row
             /\ sh_required_stock row' = sh_required_stock row)
  /\ apply_box_constraints self_box_sizes rounded box_sizes = rounded.
Proof.
  intros sizes box_size_of rounded Hpos.
  assert (rounded = round_to_box sizes <$> shipments) as Hr.
  { subst rounded. unfold apply_box_constraints. by destruct shipments. }
  split; [|split].
  - by rewrite Hr, length_fmap.
  - intros i row Hi. exists (round_to_box sizes row). split.
    { by rewrite Hr, list_lookup_fmap, Hi. }
    cbn zeta. unfold round_to_box.
    cbn [sh_unified_code sh_shipment sh_date sh_boxes sh_warehouse
         sh_forecasted_sales sh_current_stock sh_required_stock].
    rewrite resolve_box_size_order. fold (box_size_of (sh_unified_code row)).
    assert (0 < box_size_of (sh_unified_code row))%Z as Hb.
    { unfold box_size_of. rewrite <- resolve_box_size_order.
      by apply resolve_box_size_positive. }
    set (b := box_size_of (sh_unified_code row)) in *.
    set (boxes := Qceiling (sh_shipment row / inject_Z b)).
    assert (0 < inject_Z b)%Q as HbQ by (unfold Qlt; simpl; lia).
    repeat split.
    + pose proof (Qle_ceiling (sh_shipment row / inject_Z b)) as Hc.
      fold boxes in Hc.
      apply (Qmult_le_compat_r _ _ (inject_Z b)) in Hc; [|lra].
      assert (sh_shipment row / inject_Z b * inject_Z b == sh_shipment row)%Q as E
        by (field; lra).
      by rewrite E in Hc.
    + exists boxes. by rewrite inject_Z_mult.
    + field. lra.
  - rewrite Hr. unfold apply_box_constraints.
    destruct shipments as [|r0 rest]; [reflexivity|].
    change (round_to_box sizes <$> (round_to_box sizes <$> r0 :: rest)
            = round_to_box sizes <$> r0 :: rest).
    rewrite <- list_fmap_compose. apply list_fmap_ext.
    intros i x _. cbn. apply round_to_box_twice.
    pose proof (resolve_box_size_positive sizes (sh_unified_code x) Hpos). lia.
Qed.

(** C7.  [apply_shipment_withdraw_constraints] sets the shipment of every row
    whose product is in the withdraw list to 0, whatever the stock columns
    hold, keeps every other column of those rows and every other row as it
    is, and applying it again returns the same table. *)
Theorem shipment_withdraw_zeroing (shipments : list shipment_row)
    (withdraw_list : list string) :
  let out := apply_shipment_withdraw_constraints shipments withdraw_list in
  length out = length shipments
  /\ (forall i row, shipments !! i = Some row ->
        (sh_unified_code row ∈ withdraw_list ->
         out !! i = Some (ShipmentRow (sh_date row) (sh_warehouse row)
                            (sh_unified_code row) (sh_forecasted_sales row)
                            (sh_current_stock row) (sh_required_stock row)
                            0 (sh_boxes row)))
        /\ (sh_unified_code row ∉ withdraw_list -> out !! i = Some row))
  /\ apply_shipment_withdraw_constraints out withdraw_list = out.
Proof.
  intros out. subst out. unfold apply_shipment_withdraw_constraints.
  destruct withdraw_list as [|w ws].
  - split; [reflexivity|]. split; [|reflexivity].
    intros i row Hi. split; [by intros ?%elem_of_nil|done].
  - set (codes := list_to_set (w :: ws) : gset string).
    set (f := fun r => if bool_decide (sh_unified_code r ∈ codes)
                       then set_shipment 0 r else r).
    assert (forall c, c ∈ codes <-> c ∈ w :: ws) as Hcodes
      by (intros c; apply elem_of_list_to_set).
    split; [apply length_fmap|]. split.
    + intros i row Hi. rewrite list_lookup_fmap, Hi. cbn. unfold f.
      split; intros Hc.
      * by rewrite bool_decide_eq_true_2 by (by apply Hcodes).
      * by rewrite bool_decide_eq_false_2 by (by rewrite Hcodes).
    + rewrite <- list_fmap_compose. apply list_fmap_ext. intros i r _.
      cbn. unfold f. destruct (bool_decide (sh_unified_code r ∈ codes)) eqn:E.
      * cbn [set_shipment sh_unified_code]. by rewrite E.
      * by rewrite E.
Qed.

(** The state of the forecast inside the loop of [apply_defecture_constraints]:
    the original table with the products of [zeroed] set to 0. *)
Definition zero_codes (zeroed : string -> bool) (forecast : list forecast_row)
    : list forecast_row :=
  (fun r => if zeroed (f_unified_code r) then set_quantity 0 r else r) <$> forecast.

(** Whether the turn of the loop for [d] zeroes the product of [d]. *)
Definition entry_acts (wb ozon : gmap string Q) (forecast : list forecast_row)
    (d : defecture_row) : bool :=
  bool_decide (d_unified_code d ∈ f_unified_code <$> forecast)
  && forallb (fun r => negb (bool_decide (f_unified_code r = d_unified_code d)
                              && after_end_date (f_date r) (d_end_date d)))
             forecast
  && Qle_bool (default 0%Q (wb !! d_unified_code d)
               + default 0%Q (ozon !! d_unified_code d)) 0.

Lemma filter_length_zero {A : Type} (P : A -> Prop) `{!forall x, Decision (P x)}
    (l : list A) :
  (length (filter P l) =? 0)%nat = forallb (fun x => negb (bool_decide (P x))) l.
Proof.
  induction l as [|x l IH]; [reflexivity|].
  rewrite filter_cons. cbn [forallb]. destruct (decide (P x)) as [Hp|Hp].
  - by rewrite bool_decide_eq_true_2.
  - by rewrite bool_decide_eq_false_2, IH.
Qed.

Lemma forallb_pointwise {A : Type} (f g : A -> bool) (l : list A) :
  (forall x, f x = g x) -> forallb f l = forallb g l.
Proof.
  intros Hfg. induction l as [|x l IH]; [reflexivity|].
  cbn [forallb]. by rewrite Hfg, IH.
Qed.

Lemma defecture_step_acts (wb ozon : gmap string Q) (forecast : list forecast_row)
    (d : defecture_row) :
  defecture_step wb ozon forecast d
  = if entry_acts wb ozon forecast d
    then zero_product (d_unified_code d) forecast else forecast.
Proof.
  unfold defecture_step, entry_acts.
  destruct (bool_decide (d_unified_code d ∈ f_unified_code <$> forecast));
    [|reflexivity].
  rewrite filter_length_zero. cbn [andb].
  assert (forall r : forecast_row,
            bool_decide (f_unified_code r = d_unified_code d
                         /\ after_end_date (f_date r) (d_end_date d) = true)
            = bool_decide (f_unified_code r = d_unified_code d)
              && after_end_date (f_date r) (d_end_date d)) as Hb.
  { intros r. destruct (after_end_date _ _); [rewrite andb_true_r|rewrite andb_false_r].
    - apply bool_decide_ext. tauto.
    - apply bool_decide_eq_false_2. intros [_ ?]. done. }
  rewrite (forallb_pointwise _ _ _ (fun r => f_equal negb (Hb r))).
  by destruct (forallb _ forecast), (Qle_bool _ 0).
Qed.

Lemma zero_codes_ext (z1 z2 : string -> bool) (forecast : list forecast_row) :
  (forall c, z1 c = z2 c) -> zero_codes z1 forecast = zero_codes z2 forecast.
Proof.
  intros Hz. unfold zero_codes. apply list_fmap_ext. intros i r _. by rewrite Hz.
Qed.

Lemma zero_codes_none (forecast : list forecast_row) :
  zero_codes (fun _ => false) forecast = forecast.
Proof.
  unfold zero_codes. apply list_fmap_id.
Qed.

Lemma entry_acts_zero_codes (wb ozon : gmap string Q) (zeroed : string -> bool)
    (forecast : list forecast_row) (d : defecture_row) :
  entry_acts wb ozon (zero_codes zeroed forecast) d = entry_acts wb ozon forecast d.
Proof.
  unfold entry_acts, zero_codes.
  set (g := fun r => if zeroed (f_unified_code r) then set_quantity 0 r else r).
  assert (f_unified_code <$> (g <$> forecast) = f_unified_code <$> forecast) as ->.
  { rewrite <- list_fmap_compose. apply list_fmap_ext.
    intros i r _. cbn. unfold g. by destruct (zeroed _). }
  f_equal. f_equal.
  induction forecast as [|r rest IH]; [reflexivity|].
  cbn [fmap list_fmap forallb]. rewrite IH. f_equal.
  unfold g. by destruct (zeroed _).
Qed.

Lemma zero_product_zero_codes (c : string) (zeroed : string -> bool)
    (forecast : list forecast_row) :
  zero_product c (zero_codes zeroed forecast)
  = zero_codes (fun c' => zeroed c' || bool_decide (c' = c)) forecast.
Proof.
  unfold zero_product, zero_codes. rewrite <- list_fmap_compose.
  apply list_fmap_ext. intros i r _. cbn.
  destruct (zeroed (f_unified_code r)); cbn [set_quantity f_unified_code orb];
    by destruct (bool_decide _).
Qed.

Lemma defecture_loop (wb ozon : gmap string Q) (forecast : list forecast_row)
    (l : list defecture_row) (zeroed : string -> bool) :
  fold_left (defecture_step wb ozon) l (zero_codes zeroed forecast)
  = zero_codes
      (fun c => zeroed c
                || existsb (fun d => entry_acts wb ozon forecast d
                                     && bool_decide (c = d_unified_code d)) l)
      forecast.
Proof.
  revert zeroed. induction l as [|d l IH]; intros zeroed; cbn [fold_left existsb].
  - apply zero_codes_ext. intros c. by rewrite orb_false_r.
  - rewrite defecture_step_acts, entry_acts_zero_codes.
    destruct (entry_acts wb ozon forecast d).
    + rewrite zero_product_zero_codes, IH. apply zero_codes_ext.
      intros c. cbn [andb]. by rewrite orb_assoc.
    + rewrite IH. apply zero_codes_ext. intros c. reflexivity.
Qed.

Lemma entry_acts_true (wb ozon : gmap string Q) (forecast : list forecast_row)
    (d : defecture_row) :
  entry_acts wb ozon forecast d = true <->
  d_unified_code d ∈ f_unified_code <$> forecast
  /\ (forall r, r ∈ forecast -> f_unified_code r = d_unified_code d ->
        after_end_date (f_date r) (d_end_date d) = false)
  /\ (default 0 (wb !! d_unified_code d) + default 0 (ozon !! d_unified_code d) <= 0)%Q.
Proof.
  unfold entry_acts. rewrite !andb_true_iff, bool_decide_eq_true, Qle_bool_iff.
  rewrite forallb_forall.
  assert ((forall r, In r forecast ->
             negb (bool_decide (f_unified_code r = d_unified_code d)
                   && after_end_date (f_date r) (d_end_date d)) = true)
          <-> (forall r, r ∈ forecast -> f_unified_code r = d_unified_code d ->
                 after_end_date (f_date r) (d_end_date d) = false)) as Hall.
  { split; intros Hall r Hr.
    - intros Hc. apply list_elem_of_In, Hall in Hr.
      rewrite bool_decide_eq_true_2 in Hr by done.
      by destruct (after_end_date _ _).
    - apply list_elem_of_In in Hr. destruct (decide (f_unified_code r = d_unified_code d)).
      + rewrite (Hall r Hr) by done. by rewrite andb_false_r.
      + by rewrite bool_decide_eq_false_2. }
  tauto.
Qed.

(** C6, as amended.  The test on the end date is taken per product, not per
    row: the constraint zeroes a forecast row exactly when the latest
    combined marketplace stock (wb + ozon) of its product is <= 0 and the
    defecture list has an entry for the product such that no forecast row of
    that product has a date past the entry's end date.  Every other row is
    left unchanged; in particular a row whose date is past the end date of
    every entry of its product is left unchanged. *)
Theorem defecture_zeroing (forecast : list forecast_row)
    (defecture_list : list defecture_row) (wb_stocks ozon_stocks : list stock_row) :
  let out := apply_defecture_constraints forecast defecture_list wb_stocks ozon_stocks in
  let total_stock := fun code : string =>
    (default 0 (_get_latest_stocks wb_stocks !! code)
     + default 0 (_get_latest_stocks ozon_stocks !! code))%Q in
  let blocked := fun (code : string) (d : defecture_row) =>
    exists r', r' ∈ forecast /\ f_unified_code r' = code
               /\ after_end_date (f_date r') (d_end_date d) = true in
  let zeroed := fun code : string =>
    (total_stock code <= 0)%Q
    /\ exists d, d ∈ defecture_list /\ d_unified_code d = code /\ ~ blocked code d in
  length out = length forecast
  /\ forall i r, forecast !! i = Some r ->
       (zeroed (f_unified_code r) ->
        out !! i = Some (ForecastRow (f_date r) (f_unified_code r) 0))
       /\ (~ zeroed (f_unified_code r) -> out !! i = Some r)
       /\ ((forall d, d ∈ defecture_list -> d_unified_code d = f_unified_code r ->
              after_end_date (f_date r) (d_end_date d) = true) ->
           out !! i = Some r).
Proof.
  intros out total_stock blocked zeroed.
  set (wb := _get_latest_stocks wb_stocks) in *.
  set (ozon := _get_latest_stocks ozon_stocks) in *.
  set (z := fun c => existsb (fun d => entry_acts wb ozon forecast d
                                       && bool_decide (c = d_unified_code d))
                       defecture_list).
  assert (out = zero_codes z forecast) as Hout.
  { subst out. unfold apply_defecture_constraints.
    destruct defecture_list as [|d0 rest].
    - by rewrite (zero_codes_ext z (fun _ => false)), zero_codes_none.
    - rewrite <- (zero_codes_none forecast) at 1.
      rewrite (defecture_loop wb ozon forecast (d0 :: rest)). reflexivity. }
  assert (forall r, r ∈ forecast ->
            z (f_unified_code r) = true <-> zeroed (f_unified_code r)) as Hz.
  { intros r Hr. unfold z. rewrite existsb_exists. split.
    - intros [d [Hd Hact]]. apply andb_true_iff in Hact as [Hact Hc].
      apply bool_decide_eq_true in Hc. apply entry_acts_true in Hact as (_ & Hall & Hst).
      split; [unfold total_stock; by rewrite Hc|].
      exists d. split; [by apply list_elem_of_In|]. split; [done|].
      intros (r' & Hr' & Hc' & Hafter). rewrite (Hall r') in Hafter; [done|done|congruence].
    - intros [Hst (d & Hd & Hc & Hnb)]. exists d. split; [by apply list_elem_of_In|].
      apply andb_true_iff. split; [|by apply bool_decide_eq_true].
      apply entry_acts_true. split; [|split].
      + rewrite Hc. by apply list_elem_of_fmap_2.
      + intros r' Hr' Hc'. destruct (after_end_date _ _) eqn:E; [|reflexivity].
        exfalso. apply Hnb. exists r'. split; [done|]. split; [congruence|done].
      + by rewrite Hc. }
  split; [by rewrite Hout; apply length_fmap|].
  intros i r Hi.
  assert (r ∈ forecast) as Hr by (by eapply list_elem_of_lookup_2).
  assert (out !! i = Some (if z (f_unified_code r) then set_quantity 0 r else r)) as Hi'.
  { rewrite Hout. unfold zero_codes. by rewrite list_lookup_fmap, Hi. }
  assert (~ zeroed (f_unified_code r) -> out !! i = Some r) as Hkeep.
  { intros Hn. rewrite Hi'. destruct (z (f_unified_code r)) eqn:E; [|reflexivity].
    exfalso. by apply Hn, Hz. }
  split; [|split].
  - intros Hzr. apply Hz in Hzr; [|done]. by rewrite Hi', Hzr.
  - exact Hkeep.
  - intros Hpast. apply Hkeep. intros [_ (d & Hd & Hc & Hnb)].
    apply Hnb. exists r. split; [done|]. split; [done|]. by apply Hpast.
Qed.

(** C6, as first stated, fails: the product is in the defecture list, the
    date of the first row is not past the end date and the marketplace stock
    is 0, yet the row keeps its quantity, because another row of the product
    lies past the end date. *)
Lemma defecture_rowwise_counterexample :
  let early := ForecastRow (Timestamp 2024 1 5) "P" 10 in
  let late := ForecastRow (Timestamp 2024 1 20) "P" 10 in
  let entry := DefectureRow "P" (Some (Timestamp 2024 1 10)) in
  let out := apply_defecture_constraints [early; late] [entry] [] [] in
  d_unified_code entry = f_unified_code early
  /\ after_end_date (f_date early) (d_end_date entry) = false
  /\ (default 0 (_get_latest_stocks [] !! "P")
      + default 0 (_get_latest_stocks [] !! "P") <= 0)%Q
  /\ out !! 0%nat = Some early
  /\ ~ (f_quantity early == 0)%Q.
Proof.
  cbv zeta. split; [reflexivity|]. split; [reflexivity|].
  split; [vm_compute; discriminate|]. split; [vm_compute; reflexivity|].
  intros H. vm_compute in H. discriminate.
Qed.

(** ** Model evaluator *)

Lemma valid_point (t p : float) :
  isfinite t && isfinite p && positive t = true <->
  exists a b, t = Finite a /\ p = Finite b /\ (0 < a)%Q.
Proof.
  split.
  - destruct t as [a| | |], p as [b| | |]; cbn; try discriminate.
    intros H. exists a, b. by rewrite <- Qltb_lt.
  - intros (a & b & -> & -> & Ha). cbn. by apply Qltb_lt.
Qed.

(** The two ways out of [evaluate_model]: without a valid comparison point
    it returns the worst case and stores nothing; with one it returns the
    computed dictionary and stores it under the key of product and model. *)
Lemma evaluate_model_cases (np_sqrt : Q -> Q) (st : store)
    (y_true y_pred : list float) (model unified : string) :
  ((forall i a b, y_true !! i = Some (Finite a) -> y_pred !! i = Some (Finite b) ->
      (a <= 0)%Q)
   /\ evaluate_model np_sqrt st y_true y_pred model unified
      = (Unscored worst_case, st))
  \/ ((exists i a b, y_true !! i = Some (Finite a) /\ y_pred !! i = Some (Finite b)
                     /\ (0 < a)%Q)
      /\ exists r, model_name r = model /\ unified_code r = unified
           /\ evaluate_model np_sqrt st y_true y_pred model unified
              = (Scored r, dict_set (store_key unified model) r st)).
Proof.
  unfold evaluate_model.
  destruct ((length y_true =? 0)%nat || (length y_pred =? 0)%nat) eqn:Elen.
  { left. split; [|reflexivity]. intros i a b Ht Hp.
    apply orb_true_iff in Elen as [E|E]; apply Nat.eqb_eq in E.
    - apply lookup_lt_Some in Ht. lia.
    - apply lookup_lt_Some in Hp. lia. }
  set (n := Nat.min (length y_true) (length y_pred)).
  set (mask := zip_with _ (take n y_true) (take n y_pred)).
  assert (forall i, mask !! i = Some true <->
            exists a b, y_true !! i = Some (Finite a)
                        /\ y_pred !! i = Some (Finite b) /\ (0 < a)%Q) as Hmask.
  { intros i. unfold mask. rewrite lookup_zip_with_Some. split.
    - intros (t & p & Hv & Ht & Hp). symmetry in Hv.
      apply valid_point in Hv as (a & b & -> & -> & Ha).
      apply lookup_take_Some in Ht as [Ht _]. apply lookup_take_Some in Hp as [Hp _].
      by exists a, b.
    - intros (a & b & Ht & Hp & Ha). exists (Finite a), (Finite b).
      assert (i < n)%nat.
      { apply lookup_lt_Some in Ht. apply lookup_lt_Some in Hp. unfold n. lia. }
      split; [|by rewrite !lookup_take_lt].
      symmetry. apply valid_point. by exists a, b. }
  destruct (length (filter (fun b => b = true) mask) =? 0)%nat eqn:Efil.
  - left. split; [|reflexivity]. intros i a b Ht Hp.
    destruct (Qlt_le_dec 0 a) as [Ha|Ha]; [|assumption]. exfalso.
    assert (mask !! i = Some true) as Hi by (apply Hmask; by exists a, b).
    apply list_elem_of_lookup_2 in Hi.
    assert (true ∈ filter (fun b => b = true) mask) as Hin
      by (by apply list_elem_of_filter).
    apply Nat.eqb_eq, nil_length_inv in Efil. rewrite Efil in Hin.
    by apply elem_of_nil in Hin.
  - right. split.
    + apply Nat.eqb_neq in Efil.
      destruct (filter (fun b => b = true) mask) as [|b rest] eqn:Ef; [done|].
      assert (b ∈ filter (fun b => b = true) mask) as Hb
        by (rewrite Ef; apply elem_of_cons; by left).
      apply list_elem_of_filter in Hb as [-> Hb].
      apply list_elem_of_lookup_1 in Hb as [i Hi].
      apply Hmask in Hi as (a & b & ?). by exists i, a, b.
    + eexists. split; [|split]; [| |reflexivity]; reflexivity.
Qed.

(** C4.  When no index holds a finite, positive actual value together with a
    finite predicted value (the indices common to both sequences are those
    below the shorter length), [evaluate_model] returns the worst case:
    mae, rmse and mape are plus infinity and r2 is minus infinity. *)
Theorem unscored_is_worst_case (np_sqrt : Q -> Q) (st : store)
    (y_true y_pred : list float) (model unified : string) :
  (forall i a b, y_true !! i = Some (Finite a) -> y_pred !! i = Some (Finite b) ->
     (a <= 0)%Q) ->
  (evaluate_model np_sqrt st y_true y_pred model unified).1
  = Unscored (Metrics PosInf PosInf PosInf NegInf).
Proof.
  intros Hnone.
  destruct (evaluate_model_cases np_sqrt st y_true y_pred model unified)
    as [[_ ->]|[(i & a & b & Ht & Hp & Ha) _]]; [reflexivity|].
  specialize (Hnone i a b Ht Hp). lra.
Qed.

Lemma dict_get_set_eq (key : string) (value : result) (d : store) :
  dict_get key (dict_set key value d) = Some value.
Proof.
  induction d as [|[k v] d IH]; cbn [dict_set dict_get].
  - by rewrite String.eqb_refl.
  - destruct (String.eqb k key) eqn:E; cbn [dict_get]; by rewrite E.
Qed.

Lemma dict_get_set_ne (key key' : string) (value : result) (d : store) :
  key' <> key -> dict_get key' (dict_set key value d) = dict_get key' d.
Proof.
  intros Hne. induction d as [|[k v] d IH]; cbn [dict_set dict_get].
  - by rewrite (proj2 (String.eqb_neq key key')).
  - destruct (String.eqb k key) eqn:E; cbn [dict_get].
    + apply String.eqb_eq in E. subst k.
      by rewrite (proj2 (String.eqb_neq key key')).
    + by rewrite IH.
Qed.

(** C5, as amended.  A call of [evaluate_model] with at least one valid
    comparison point stores the dictionary it returns under the key built
    from product key and model name, in place of any earlier result of that
    key, and leaves every other key as it was.  A call whose inputs are empty
    or hold no valid comparison point returns the worst case and leaves the
    store as it was. *)
Theorem evaluation_is_stored (np_sqrt : Q -> Q) (st : store)
    (y_true y_pred : list float) (model unified : string) :
  let res := evaluate_model np_sqrt st y_true y_pred model unified in
  ((exists i a b, y_true !! i = Some (Finite a) /\ y_pred !! i = Some (Finite b)
                  /\ (0 < a)%Q) ->
   exists r, res.1 = Scored r
     /\ model_name r = model /\ unified_code r = unified
     /\ dict_get (store_key unified model) res.2 = Some r
     /\ forall key, key <> store_key unified model ->
          dict_get key res.2 = dict_get key st)
  /\ ((forall i a b, y_true !! i = Some (Finite a) -> y_pred !! i = Some (Finite b) ->
         (a <= 0)%Q) ->
      res.1 = Unscored worst_case /\ res.2 = st).
Proof.
  intros res. subst res.
  destruct (evaluate_model_cases np_sqrt st y_true y_pred model unified)
    as [[Hnone ->]|[Hsome (r & Hm & Hu & ->)]].
  - split; [|done]. intros (i & a & b & Ht & Hp & Ha).
    specialize (Hnone i a b Ht Hp). lra.
  - split.
    + intros _. exists r. cbn [fst snd]. repeat split; try assumption.
      * apply dict_get_set_eq.
      * intros key Hkey. by apply dict_get_set_ne.
    + intros Hnone. destruct Hsome as (i & a & b & Ht & Hp & Ha).
      specialize (Hnone i a b Ht Hp). lra.
Qed.

(** C5, as first stated, fails: a call with empty inputs and a call with no
    valid comparison point (the only actual value is 0) return the worst
    case, and the store holds nothing under the key of product and model
    afterwards. *)
Lemma evaluation_not_stored_counterexample :
  let empty := evaluate_model (fun q => q) [] [] [] "m" "p" in
  let invalid := evaluate_model (fun q => q) [] [Finite 0] [Finite 1] "m" "p" in
  empty.1 = Unscored worst_case
  /\ dict_get (store_key "p" "m") empty.2 = None
  /\ invalid.1 = Unscored worst_case
  /\ dict_get (store_key "p" "m") invalid.2 = None.
Proof.
  cbv zeta. repeat split; vm_compute; reflexivity.
Qed.

Lemma float_ltb_irrefl (x : float) : float_ltb x x = false.
Proof.
  destruct x as [a| | |]; cbn; try reflexivity. apply Qltb_ge. lra.
Qed.

Lemma float_ltb_asym (x y : float) : float_ltb x y = true -> float_ltb y x = false.
Proof.
  destruct x as [a| | |], y as [c| | |]; cbn; try done.
  intros H%Qltb_lt. apply Qltb_ge. lra.
Qed.

Lemma float_ltb_below (x y b : float) :
  float_ltb y b = true -> float_ltb x b = false -> float_ltb x y = false.
Proof.
  destruct x as [a| | |], y as [c| | |], b as [e| | |]; cbn; try done.
  intros H1%Qltb_lt H2%Qltb_ge. apply Qltb_ge. lra.
Qed.

Lemma float_ltb_above (x y b : float) :
  float_ltb b y = true -> float_ltb b x = false -> float_ltb y x = false.
Proof.
  destruct x as [a| | |], y as [c| | |], b as [e| | |]; cbn; try done.
  intros H1%Qltb_lt H2%Qltb_ge. apply Qltb_ge. lra.
Qed.

(** The scan of [min] and [max]: keep the first entry, replace it by each
    later entry that beats it. *)
Section Scan.
Context {A : Type} (beats : float -> float -> bool) (f : A -> float).
Hypothesis beats_irrefl : forall x, beats x x = false.
Hypothesis beats_asym : forall x y, beats x y = true -> beats y x = false.
Hypothesis beats_below :
  forall x y b, beats y b = true -> beats x b = false -> beats x y = false.

Lemma scan_in (others : list A) (first : A) :
  fold_left (fun best x => if beats (f x) (f best) then x else best) others first
  ∈ first :: others.
Proof.
  revert first. induction others as [|y others IH]; intros first; cbn [fold_left].
  - apply elem_of_cons. by left.
  - specialize (IH (if beats (f y) (f first) then y else first)).
    apply elem_of_cons in IH as [->|IH].
    + destruct (beats (f y) (f first)).
      * apply elem_of_cons. right. apply elem_of_cons. by left.
      * apply elem_of_cons. by left.
    + apply elem_of_cons. right. apply elem_of_cons. by right.
Qed.

Lemma scan_keeps (others : list A) (best x : A) :
  beats (f x) (f best) = false ->
  beats (f x)
    (f (fold_left (fun best x => if beats (f x) (f best) then x else best) others best))
  = false.
Proof.
  revert best. induction others as [|y others IH]; intros best Hx; cbn [fold_left].
  - assumption.
  - apply IH. destruct (beats (f y) (f best)) eqn:E; [|assumption].
    by apply (beats_below _ _ (f best)).
Qed.

(** No entry beats the entry that the scan returns. *)
Lemma scan_unbeaten (others : list A) (first x : A) :
  x ∈ first :: others ->
  beats (f x)
    (f (fold_left (fun best x => if beats (f x) (f best) then x else best) others first))
  = false.
Proof.
  revert first. induction others as [|y others IH]; intros first Hx; cbn [fold_left].
  - apply elem_of_cons in Hx as [->|Hx]; [apply beats_irrefl|].
    by apply elem_of_nil in Hx.
  - apply elem_of_cons in Hx as [->|Hx].
    + apply scan_keeps. destruct (beats (f y) (f first)) eqn:E.
      * by apply beats_asym.
      * apply beats_irrefl.
    + apply elem_of_cons in Hx as [->|Hx].
      * destruct (beats (f y) (f first)) eqn:E.
        -- apply IH, elem_of_cons. by left.
        -- by apply scan_keeps.
      * apply IH, elem_of_cons. by right.
Qed.

End Scan.

Lemma min_by_in (f : string * result -> float) (first : string * result)
    (others : store) :
  min_by f first others ∈ first :: others.
Proof. apply scan_in. Qed.

Lemma min_by_least (f : string * result -> float) (first : string * result)
    (others : store) (x : string * result) :
  x ∈ first :: others -> float_ltb (f x) (f (min_by f first others)) = false.
Proof.
  apply (scan_unbeaten float_ltb f float_ltb_irrefl float_ltb_asym float_ltb_below).
Qed.

Lemma max_by_in (f : string * result -> float) (first : string * result)
    (others : store) :
  max_by f first others ∈ first :: others.
Proof. apply (scan_in (fun a b => float_ltb b a)). Qed.

Lemma max_by_greatest (f : string * result -> float) (first : string * result)
    (others : store) (x : string * result) :
  x ∈ first :: others -> float_ltb (f (max_by f first others)) (f x) = false.
Proof.
  apply (scan_unbeaten (fun a b => float_ltb b a) f).
  - intros a. apply float_ltb_irrefl.
  - intros a b. apply float_ltb_asym.
  - intros a b c. apply float_ltb_above.
Qed.

Lemma prefix_store_key (unified model : string) :
  String.prefix (unified +:+ "_") (store_key unified model) = true.
Proof.
  unfold store_key. induction unified as [|c u IH]; simpl.
  - by destruct model.
  - destruct (ascii_dec c c); [exact IH|done].
Qed.

(** The scan of [select_best_model] over the entries that its filter keeps:
    it returns none when no stored key starts with the product key and an
    underscore.  Otherwise it returns the model name of
    one of those results: for the metrics mae, rmse and mape one whose value
    no other of those results is strictly below, so a minimum among the
    finite values; for r2 one whose value no other is strictly above, so a
    maximum.  With a model A at mape 12.0 and a model B at mape 8.5 stored
    for a product, in either order, the choice by mape is B. *)
Theorem select_best_model_extremum (st : store) (unified : string) (m : metric) :
  (product_results st unified = [] -> select_best_model st unified m = None)
  /\ (product_results st unified <> [] ->
      exists best, best ∈ product_results st unified
        /\ select_best_model st unified m = Some (model_name best.2)
        /\ (m ∈ [Mae; Rmse; Mape] ->
            forall other, other ∈ product_results st unified ->
              float_ltb (get other.2 m) (get best.2 m) = false
              /\ forall x y, get best.2 m = Finite x -> get other.2 m = Finite y ->
                   (x <= y)%Q)
        /\ (m = R2 ->
            forall other, other ∈ product_results st unified ->
              float_ltb (get best.2 m) (get other.2 m) = false
              /\ forall x y, get best.2 m = Finite x -> get other.2 m = Finite y ->
                   (y <= x)%Q))
  /\ (forall a b : metrics,
        mape a = Finite 12 -> mape b = Finite 8.5 ->
        select_best_model
          [(store_key unified "A", Result a "A" unified);
           (store_key unified "B", Result b "B" unified)] unified Mape = Some "B"
        /\ select_best_model
             [(store_key unified "B", Result b "B" unified);
              (store_key unified "A", Result a "A" unified)] unified Mape = Some "B").
Proof.
  split; [|split].
  - unfold select_best_model. by intros ->.
  - unfold select_best_model.
    destruct (product_results st unified) as [|first others]; [done|]. intros _.
    destruct (bool_decide (m ∈ [Mae; Rmse; Mape])) eqn:E.
    + exists (min_by (fun kv => get kv.2 m) first others).
      split; [apply min_by_in|]. split; [reflexivity|]. split.
      * intros _ other Hother.
        pose proof (min_by_least (fun kv => get kv.2 m) first others other Hother)
          as Hleast.
        split; [exact Hleast|]. intros x y Hx Hy. cbn beta in Hleast.
        rewrite Hx, Hy in Hleast. by apply Qltb_ge in Hleast.
      * intros ->. vm_compute in E. discriminate.
    + exists (max_by (fun kv => get kv.2 m) first others).
      split; [apply max_by_in|]. split; [reflexivity|]. split.
      * intros Hm. by apply bool_decide_eq_false in E.
      * intros _ other Hother.
        pose proof (max_by_greatest (fun kv => get kv.2 m) first others other Hother)
          as Hgreatest.
        split; [exact Hgreatest|]. intros x y Hx Hy. cbn beta in Hgreatest.
        rewrite Hx, Hy in Hgreatest. by apply Qltb_ge in Hgreatest.
  - intros [a1 a2 a3 a4] [b1 b2 b3 b4] Ha Hb. cbn in Ha, Hb. subst a3 b3.
    assert (forall l : store,
              (forall kv, kv ∈ l -> String.prefix (unified +:+ "_") kv.1 = true) ->
              product_results l unified = l) as Hall
      by (intros l Hl; by apply filter_all).
    unfold select_best_model.
    rewrite !Hall; [split; reflexivity| |];
      intros kv [->|[->|[]%elem_of_nil]%elem_of_cons]%elem_of_cons;
      apply prefix_store_key.
Qed.

Lemma prefix_cons (a c : ascii) (s1 s2 : string) :
  String.prefix (String a s1) (String c s2)
  = if Ascii.eqb a c then String.prefix s1 s2 else false.
Proof.
  change (String.prefix (String a s1) (String c s2))
    with (if ascii_dec a c then String.prefix s1 s2 else false).
  destruct (ascii_dec a c) as [->|Hne].
  - by rewrite Ascii.eqb_refl.
  - by rewrite (proj2 (Ascii.eqb_neq a c)).
Qed.

Lemma append_nil (t : string) : "" +:+ t = t.
Proof. reflexivity. Qed.

Lemma append_cons (c : ascii) (s t : string) : String c s +:+ t = String c (s +:+ t).
Proof. reflexivity. Qed.

Lemma prefix_of_other_key (p1 p2 model : string) :
  contains "_" p1 = false ->
  contains "_" p2 = false ->
  String.prefix (p1 +:+ "_") (store_key p2 model) = true ->
  p1 = p2.
Proof.
  unfold store_key. revert p2.
  induction p1 as [|a p1 IH]; intros [|c p2] H1 H2;
    change (String.prefix (?x +:+ "_") (?y +:+ "_" +:+ model))
      with (String.prefix (x +:+ String "_" "") (y +:+ String "_" model));
    rewrite ?append_nil, ?append_cons, ?prefix_cons.
  - reflexivity.
  - cbn [contains] in H2. apply orb_false_iff in H2 as [H2 _].
    by rewrite H2.
  - cbn [contains] in H1. apply orb_false_iff in H1 as [H1 _].
    rewrite Ascii.eqb_sym in H1. by rewrite H1.
  - cbn [contains] in H1, H2. apply orb_false_iff in H1 as [_ H1].
    apply orb_false_iff in H2 as [_ H2].
    destruct (Ascii.eqb a c) eqn:E; [|done].
    apply Ascii.eqb_eq in E. subst c.
    intros Hp. f_equal. by apply IH.
Qed.

Lemma product_results_dict_set (st : store) (key : string) (r : result)
    (unified : string) :
  String.prefix (unified +:+ "_") key = false ->
  product_results (dict_set key r st) unified = product_results st unified.
Proof.
  intros Hk. unfold product_results.
  induction st as [|[k v] st IH]; cbn [dict_set].
  - rewrite filter_cons_False; [reflexivity|]. cbn. by rewrite Hk.
  - destruct (String.eqb k key) eqn:E.
    + apply String.eqb_eq in E. subst k.
      rewrite !filter_cons_False; [reflexivity| |]; cbn; by rewrite Hk.
    + rewrite !filter_cons, IH. reflexivity.
Qed.

(** Between two distinct product keys neither of which contains an
    underscore the scan by prefix does separate the products: a result that
    [evaluate_model] stores for the one leaves what [select_best_model]
    returns for the other as it was. *)
Theorem selection_isolated (np_sqrt : Q -> Q) (st : store)
    (y_true y_pred : list float) (model p1 p2 : string) (m : metric) :
  p1 <> p2 ->
  contains "_" p1 = false ->
  contains "_" p2 = false ->
  select_best_model (evaluate_model np_sqrt st y_true y_pred model p2).2 p1 m
  = select_best_model st p1 m.
Proof.
  intros Hne H1 H2.
  destruct (evaluate_model_cases np_sqrt st y_true y_pred model p2)
    as [[_ ->]|[_ (r & _ & _ & ->)]]; [reflexivity|].
  cbn [snd]. unfold select_best_model.
  rewrite product_results_dict_set; [reflexivity|].
  destruct (String.prefix (p1 +:+ "_") (store_key p2 model)) eqn:E; [|reflexivity].
  exfalso. apply Hne. by apply (prefix_of_other_key p1 p2 model).
Qed.

(** [selection_isolated] for the products ["A"] and ["B"]. *)
Lemma selection_isolated_witness :
  select_best_model
    (evaluate_model (fun q => q) [] [Finite 1; Finite 2] [Finite 1; Finite 3]
       "Prophet" "B").2 "A" Mape
  = select_best_model [] "A" Mape.
Proof.
  apply (selection_isolated (fun q => q) [] [Finite 1; Finite 2]
           [Finite 1; Finite 3] "Prophet" "A" "B" Mape).
  - discriminate.
  - reflexivity.
  - reflexivity.
Defined.

(** C10 fails on the program.  Nothing is stored for the product ["A"], yet
    after an evaluation of the distinct product ["A_B"] the selection for
    ["A"] returns the model evaluated for ["A_B"]: its key ["A_B_Prophet"]
    starts with ["A_"]. *)
Theorem selection_crosses_products :
  let st := (evaluate_model (fun q => q) [] [Finite 1; Finite 2]
               [Finite 1; Finite 3] "Prophet" "A_B").2 in
  "A" <> "A_B"
  /\ select_best_model [] "A" Mape = None
  /\ select_best_model st "A" Mape = Some "Prophet".
Proof.
  cbv zeta. split; [discriminate|]. split; vm_compute; reflexivity.
Qed.

(** C3 fails on the program.  After one evaluation, of the product ["A_B"],
    the store holds one result, which belongs to ["A_B"], and none of the
    product ["A"]; yet [select_best_model] returns a model name for ["A"],
    by an error metric and by r2 alike, where it should return none: the key
    ["A_B_Prophet"] starts with ["A_"]. *)
Theorem selection_without_stored_result :
  let st := (evaluate_model (fun q => q) [] [Finite 1; Finite 2]
               [Finite 1; Finite 3] "Prophet" "A_B").2 in
  unified_code <$> st.*2 = ["A_B"]
  /\ Forall (fun kv => unified_code kv.2 <> "A") st
  /\ select_best_model st "A" Mape = Some "Prophet"
  /\ select_best_model st "A" R2 = Some "Prophet".
Proof.
  cbv zeta. split; [vm_compute; reflexivity|]. split.
  - apply Forall_forall. intros kv Hkv.
    apply list_elem_of_singleton in Hkv. subst kv. discriminate.
  - split; vm_compute; reflexivity.
Qed.

(** ** Forecast ledger *)

(** C9 fails on the program.  A snapshot saved for the marketplace ["wb"]
    under the model name ["linear_regression"] comes back from
    [get_forecast_history] annotated with the model name ["linear"] and the
    forecast date ["regression_20240115_103000"]: the file name is split at
    every underscore.  And when a marketplace and a model name are both
    given, the pattern of the model name replaces that of the marketplace,
    so the snapshot of the marketplace ["ozon"] is returned for the filter
    ["wb"]. *)
Theorem history_annotation_mismatch :
  let saved_at := Datetime 2024 1 15 10 30 0 in
  let row := ForecastRow (Timestamp 2024 2 1) "P" 10 in
  let dir := save_forecast saved_at [] [row] "linear_regression" "wb" None true in
  let both :=
    save_forecast saved_at
      (save_forecast saved_at [] [row] "prophet" "ozon" None true)
      [row] "prophet" "wb" None true in
  get_forecast_history dir None None None
  = [HistoryRow row (Some "wb") (Some "linear")
       (Some "regression_20240115_103000")]
  /\ get_forecast_history both (Some "wb") (Some "prophet") None
     = [HistoryRow row (Some "ozon") (Some "prophet") (Some "20240115_103000");
        HistoryRow row (Some "wb") (Some "prophet") (Some "20240115_103000")].
Proof.
  cbv zeta. split; vm_compute; reflexivity.
Qed.

(** *** Names without separator characters round-trip *)

Lemma contains_append (c : ascii) (a b : string) :
  contains c (a +:+ b) = contains c a || contains c b.
Proof.
  induction a as [|d a IH]; [reflexivity|].
  rewrite append_cons. cbn [contains]. by rewrite IH, orb_assoc.
Qed.

Lemma split_on_without (sep : ascii) (s : string) :
  contains sep s = false -> split_on sep s = [s].
Proof.
  induction s as [|c s IH]; [reflexivity|].
  cbn [contains split_on]. intros [Hc Hs]%orb_false_iff.
  rewrite Ascii.eqb_sym in Hc. by rewrite Hc, IH.
Qed.

Lemma split_on_append (sep : ascii) (a rest : string) :
  contains sep a = false ->
  split_on sep (a +:+ String sep rest) = a :: split_on sep rest.
Proof.
  induction a as [|c a IH].
  - intros _. rewrite append_nil. cbn [split_on]. by rewrite Ascii.eqb_refl.
  - cbn [contains]. intros [Hc Ha]%orb_false_iff.
    rewrite append_cons. cbn [split_on].
    rewrite Ascii.eqb_sym in Hc. by rewrite Hc, IH.
Qed.

Lemma fnmatch_star (pattern name : string) :
  fnmatch (String "*" pattern) name
  = fnmatch pattern name
    || match name with
       | EmptyString => false
       | String _ name' => fnmatch (String "*" pattern) name'
       end.
Proof.
  by destruct name.
Qed.

Lemma fnmatch_star_append (pattern a name : string) :
  fnmatch pattern name = true -> fnmatch (String "*" pattern) (a +:+ name) = true.
Proof.
  intros Hm. induction a as [|c a IH].
  - rewrite append_nil, fnmatch_star, Hm. reflexivity.
  - rewrite append_cons, fnmatch_star, IH. apply orb_true_r.
Qed.

Lemma digit_is_digit (n : nat) :
  Ascii.eqb (digit n) "_" = false /\ Ascii.eqb (digit n) "." = false.
Proof.
  unfold digit. pose proof (Nat.mod_upper_bound n 10) as Hlt.
  destruct (n mod 10) as [|[|[|[|[|[|[|[|[|[|k]]]]]]]]]] eqn:E;
    try (split; reflexivity).
  lia.
Qed.

Lemma append_assoc (a b c : string) : (a +:+ b) +:+ c = a +:+ b +:+ c.
Proof.
  induction a as [|x a IH]; [reflexivity|]. by rewrite !append_cons, IH.
Qed.

Lemma eqb_append (a x y : string) : String.eqb (a +:+ x) (a +:+ y) = String.eqb x y.
Proof.
  induction a as [|c a IH]; [reflexivity|].
  rewrite !append_cons. cbn [String.eqb]. by rewrite Ascii.eqb_refl.
Qed.

Lemma strftime_without_separators (d : datetime) :
  contains "." (strftime d) = false
  /\ exists day time,
       strftime d = day +:+ String "_" time
       /\ contains "_" day = false /\ contains "_" time = false.
Proof.
  unfold strftime, digits4, digits2.
  repeat rewrite ?append_cons, ?append_nil.
  split.
  - cbn [contains]. rewrite !(Ascii.eqb_sym ".").
    rewrite !(proj2 (digit_is_digit _)). reflexivity.
  - eexists (String _ (String _ (String _ (String _ (String _ (String _
               (String _ (String _ EmptyString)))))))), _.
    split; [reflexivity|].
    cbn [contains]. rewrite !(Ascii.eqb_sym "_").
    rewrite !(proj1 (digit_is_digit _)). split; reflexivity.
Qed.

Lemma stem_csv (base : string) :
  contains "." base = false -> base <> EmptyString -> stem (base +:+ ".csv") = base.
Proof.
  intros Hdot Hne. unfold stem.
  change (base +:+ ".csv") with (base +:+ String "." "csv").
  rewrite split_on_append by assumption.
  change (split_on "." "csv") with ["csv"].
  change (reverse [base; "csv"]) with ["csv"; base].
  change (reverse [base]) with [base].
  cbn [String.concat]. by destruct base.
Qed.

(** The file name under which [save_forecast] writes a snapshot. *)
Lemma snapshot_name_parts (marketplace model : string) (d : datetime) :
  contains "_" marketplace = false ->
  contains "_" model = false ->
  exists day time,
    strftime d = day +:+ String "_" time
    /\ split_on "_" (marketplace +:+ "_" +:+ model +:+ "_" +:+ strftime d)
       = [marketplace; model; day; time].
Proof.
  intros Hmp Hmodel.
  destruct (strftime_without_separators d) as (_ & day & time & Hts & Hday & Htime).
  exists day, time. split; [assumption|].
  change (marketplace +:+ "_" +:+ model +:+ "_" +:+ strftime d)
    with (marketplace +:+ String "_" (model +:+ String "_" (strftime d))).
  rewrite !split_on_append by assumption.
  rewrite Hts, split_on_append by assumption.
  by rewrite split_on_without.
Qed.

Lemma annotate_snapshot (marketplace model : string) (d : datetime)
    (rows : list forecast_row) :
  contains "_" marketplace = false -> contains "." marketplace = false ->
  contains "_" model = false -> contains "." model = false ->
  annotate (marketplace +:+ "_" +:+ model +:+ "_" +:+ strftime d +:+ ".csv") rows
  = (fun r => HistoryRow r (Some marketplace) (Some model) (Some (strftime d)))
    <$> rows.
Proof.
  intros Hmp Hmp' Hmodel Hmodel'.
  set (base := marketplace +:+ "_" +:+ model +:+ "_" +:+ strftime d).
  assert (marketplace +:+ "_" +:+ model +:+ "_" +:+ strftime d +:+ ".csv"
          = base +:+ ".csv") as ->.
  { unfold base. by rewrite !append_assoc. }
  unfold annotate. rewrite stem_csv.
  - unfold base.
    destruct (snapshot_name_parts marketplace model d Hmp Hmodel)
      as (day & time & Hts & ->).
    cbn [length Nat.leb lookup list_lookup drop String.concat]. by rewrite Hts.
  - unfold base. rewrite !contains_append, Hmp', Hmodel'.
    by rewrite (proj1 (strftime_without_separators d)).
  - unfold base. by destruct marketplace.
Qed.

Lemma fnmatch_snapshot (marketplace model stamp : string) :
  fnmatch "*_*_*.csv" (marketplace +:+ "_" +:+ model +:+ "_" +:+ stamp +:+ ".csv")
  = true.
Proof.
  apply fnmatch_star_append.
  change (fnmatch "*_*.csv" (model +:+ "_" +:+ stamp +:+ ".csv") = true).
  apply fnmatch_star_append.
  change (fnmatch "*.csv" (stamp +:+ ".csv") = true).
  by apply fnmatch_star_append.
Qed.

(** A snapshot saved into an empty directory under a marketplace and a model
    name that contain neither an underscore nor a dot comes back from the
    unfiltered history with its rows annotated by the values it was saved
    under. *)
Theorem history_round_trip (now : datetime) (forecast : list forecast_row)
    (model marketplace : string) (forecast_date : option datetime) (metadata : bool) :
  contains "_" marketplace = false -> contains "." marketplace = false ->
  contains "_" model = false -> contains "." model = false ->
  get_forecast_history
    (save_forecast now [] forecast model marketplace forecast_date metadata)
    None None None
  = (fun r => HistoryRow r (Some marketplace) (Some model)
                (Some (strftime (default now forecast_date))))
    <$> forecast.
Proof.
  intros Hmp Hmp' Hmodel Hmodel'.
  set (d := default now forecast_date).
  pose proof (annotate_snapshot marketplace model d forecast Hmp Hmp' Hmodel Hmodel')
    as Hann.
  pose proof (fnmatch_snapshot marketplace model (strftime d)) as Hmatch.
  unfold get_forecast_history, save_forecast. fold d.
  set (name := marketplace +:+ "_" +:+ model +:+ "_" +:+ strftime d +:+ ".csv") in *.
  change (glob_pattern None None) with "*_*_*.csv"%string.
  cbn [truthy write_file].
  destruct metadata.
  - set (meta := marketplace +:+ "_" +:+ model +:+ "_" +:+ strftime d
                 +:+ "_metadata.json").
    assert (String.eqb name meta = false) as Hne.
    { unfold name, meta. by rewrite !eqb_append. }
    cbn [write_file]. rewrite Hne. cbn [write_file].
    rewrite filter_cons_True by exact Hmatch.
    rewrite filter_cons. destruct (decide _); cbn; by rewrite Hann, app_nil_r.
  - rewrite filter_cons_True by exact Hmatch.
    cbn. by rewrite Hann, app_nil_r.
Qed.

Lemma history_round_trip_witness :
  get_forecast_history
    (save_forecast (Datetime 2024 1 15 10 30 0) []
       [ForecastRow (Timestamp 2024 2 1) "P" 10] "prophet" "wb" None true)
    None None None
  = [HistoryRow (ForecastRow (Timestamp 2024 2 1) "P" 10) (Some "wb")
       (Some "prophet") (Some "20240115_103000")].
Proof.
  apply (history_round_trip (Datetime 2024 1 15 10 30 0)
           [ForecastRow (Timestamp 2024 2 1) "P" 10] "prophet" "wb" None true);
    reflexivity.
Defined.

(** ** The theorems at the scenarios *)

(** [shortfall_distribution] at scenario C: the shipments sum to the
    shortfall 150 - 100. *)
Lemma shortfall_distribution_witness :
  (Qsum (sh_shipment <$> rows_of (Timestamp 2024 2 1) "Q"
           (calculate_shipments 1.5 Scenario.forecast Scenario.short_stocks))
   == 50)%Q.
Proof.
  pose proof (shortfall_distribution 1.5 Scenario.forecast Scenario.short_stocks
                Scenario.monthly) as H.
  cbv zeta in H.
  destruct H as (_ & _ & _ & Hsum).
  - vm_compute. constructor.
  - vm_compute. discriminate.
  - vm_compute. reflexivity.
  - change (f_date Scenario.monthly) with (Timestamp 2024 2 1) in Hsum.
    change (f_unified_code Scenario.monthly) with "Q" in Hsum.
    rewrite Hsum.
    + vm_compute. reflexivity.
    + vm_compute. repeat (constructor; [discriminate|]). constructor.
Defined.

(** [balancing_pass] with stocks 10 and 200 against a required total of 150:
    the first warehouse is below the even share 75 and receives one row. *)
Lemma balancing_pass_witness :
  filter (fun r => sh_warehouse r = "W1")
    (rows_of (Timestamp 2024 2 1) "Q"
       (calculate_shipments 1.5 Scenario.forecast Scenario.ample_stocks))
  = [ShipmentRow (Timestamp 2024 2 1) "W1" "Q" 100 10
       (100 * 1.5 / inject_Z 2) (100 * 1.5 / inject_Z 2 - 10) None].
Proof.
  pose proof (balancing_pass 1.5 Scenario.forecast Scenario.ample_stocks
                Scenario.monthly) as H.
  cbv zeta in H.
  destruct H as [Hrows _].
  - vm_compute. constructor.
  - vm_compute. discriminate.
  - destruct (Hrows "W1" 10%Q) as [Hbelow _].
    + vm_compute. constructor.
    + apply Hbelow. vm_compute. reflexivity.
Defined.

(** [box_rounding] at scenario A with the box size 24 configured as default. *)
Lemma box_rounding_witness :
  (sh_shipment <$> apply_box_constraints ∅ Scenario.shipments (Some Scenario.box_sizes)
   = [(inject_Z 5 * inject_Z 24)%Q])
  /\ apply_box_constraints ∅
       (apply_box_constraints ∅ Scenario.shipments (Some Scenario.box_sizes))
       (Some Scenario.box_sizes)
     = apply_box_constraints ∅ Scenario.shipments (Some Scenario.box_sizes).
Proof.
  pose proof (box_rounding ∅ (Some Scenario.box_sizes) Scenario.shipments) as H.
  cbv zeta in H.
  destruct H as (_ & _ & Hagain).
  - apply map_Forall_singleton. reflexivity.
  - split; [vm_compute; reflexivity|exact Hagain].
Defined.

(** [unscored_is_worst_case] on sequences of lengths 4 and 5 in which every
    common index holds a non-positive or non-finite value. *)
Lemma unscored_is_worst_case_witness :
  (evaluate_model (fun q => q) [] Scenario.y_true Scenario.y_pred "prophet" "P").1
  = Unscored (Metrics PosInf PosInf PosInf NegInf).
Proof.
  apply (unscored_is_worst_case (fun q => q) [] Scenario.y_true Scenario.y_pred
           "prophet" "P").
  intros [|[|[|[|i]]]] a b Ht Hp; cbn in Ht, Hp; try discriminate.
  - injection Ht as <-. vm_compute. discriminate.
  - injection Ht as <-. vm_compute. discriminate.
Defined.

(** Scenario A of the specification: a demand of 100 with coverage 1.5 and a
    stock of 50 in the single warehouse gives a shipment of 100, which the
    default box size 24 rounds up to 5 boxes, 120 pieces. *)
Example scenario_A :
  let shipments :=
    calculate_shipments 1.5 Scenario.forecast_A Scenario.stocks_A in
  (fun r => (sh_warehouse r, Qred (sh_required_stock r), Qred (sh_shipment r)))
    <$> shipments = [("W", 150%Q, 100%Q)]
  /\ (fun r => (sh_warehouse r, Qred (sh_shipment r), sh_boxes r))
       <$> apply_box_constraints ∅ shipments None = [("W", 120%Q, Some 5%Z)].
Proof.
  cbv zeta. split; vm_compute; reflexivity.
Qed.

(** Scenario C of the specification: stocks of 30 and 70 against a required
    total of 150 give the proportional shipments 15 and 35. *)
Example scenario_C :
  (fun r => (sh_warehouse r, Qred (sh_shipment r)))
    <$> calculate_shipments 1.5 Scenario.forecast Scenario.short_stocks
  = [("W1", 15%Q); ("W2", 35%Q)].
Proof.
  vm_compute. reflexivity.
Qed.

(** The defecture constraint does act when the whole forecast of the product
    lies within the defecture: both rows are zeroed. *)
Example defecture_within_horizon :
  apply_defecture_constraints
    [ForecastRow (Timestamp 2024 1 5) "P" 10; ForecastRow (Timestamp 2024 1 20) "P" 10;
     ForecastRow (Timestamp 2024 1 5) "R" 10]
    [DefectureRow "P" (Some (Timestamp 2024 1 31))] [] []
  = [ForecastRow (Timestamp 2024 1 5) "P" 0; ForecastRow (Timestamp 2024 1 20) "P" 0;
     ForecastRow (Timestamp 2024 1 5) "R" 10].
Proof.
  vm_compute. reflexivity.
Qed.

(** * Further properties *)

(** ** Group-by: the keys and the sums *)

Lemma Qsum_app (l1 l2 : list Q) : (Qsum (l1 ++ l2) == Qsum l1 + Qsum l2)%Q.
Proof.
  induction l1 as [|x l1 IH]; cbn [app].
  - rewrite Qsum_nil. ring.
  - rewrite !Qsum_cons, IH. ring.
Qed.

Section GroupByValues.
Context {K : Type} `{EqDecision K}.
Variable leb : K -> K -> bool.

Lemma group_add_elem (k : K) (v : Q) (acc : list (K * Q)) (k' : K) (v' : Q) :
  NoDup acc.*1 ->
  (k', v') ∈ group_add k v acc ->
  (k' <> k /\ (k', v') ∈ acc)
  \/ (k' = k /\ exists v0, (k, v0) ∈ acc /\ v' = (v0 + v)%Q)
  \/ (k' = k /\ (k ∉ acc.*1) /\ v' = v).
Proof.
  induction acc as [|[k0 v0] acc IH]; cbn [group_add fmap list_fmap fst].
  - intros _ Hin. apply list_elem_of_singleton in Hin. injection Hin as -> ->.
    right. right. split; [done|]. split; [apply not_elem_of_nil|done].
  - intros [Hk0 Hnd]%NoDup_cons. destruct (decide (k = k0)) as [->|Hne].
    + intros [Hin|Hin]%elem_of_cons.
      * injection Hin as -> ->. right. left. split; [done|].
        exists v0. split; [apply elem_of_cons; by left|done].
      * left. split; [|apply elem_of_cons; by right].
        intros ->. apply Hk0. by apply (list_elem_of_fmap_2 fst _ (k0, v')).
    + intros [Hin|Hin]%elem_of_cons.
      * injection Hin as -> ->. left. split; [done|]. apply elem_of_cons. by left.
      * destruct (IH Hnd Hin) as [[? ?]|[[-> [w [Hw ->]]]|[-> [Hk ->]]]].
        -- left. split; [done|]. apply elem_of_cons. by right.
        -- right. left. split; [done|]. exists w. split; [|done].
           apply elem_of_cons. by right.
        -- right. right. split; [done|]. split; [|done].
           intros [?|?]%elem_of_cons; [congruence|contradiction].
Qed.

Lemma group_sums_snoc (rows : list (K * Q)) (x : K * Q) :
  group_sums (rows ++ [x]) = group_add x.1 x.2 (group_sums rows).
Proof.
  unfold group_sums. by rewrite fold_left_app.
Qed.

Lemma group_sums_keys (rows : list (K * Q)) (k : K) :
  k ∈ (group_sums rows).*1 <-> k ∈ rows.*1.
Proof.
  induction rows as [|x rows IH] using rev_ind.
  - reflexivity.
  - rewrite group_sums_snoc, group_add_keys, fmap_app, elem_of_app.
    cbn [fmap list_fmap]. rewrite list_elem_of_singleton.
    destruct (decide (x.1 ∈ (group_sums rows).*1)) as [Hin|Hnin].
    + rewrite IH. split; [tauto|]. intros [? | ->]; [done|]. by apply IH.
    + rewrite elem_of_app, list_elem_of_singleton, IH. tauto.
Qed.

(** Every row of the grouped sums holds the sum of the column over the rows
    of its key. *)
Lemma group_sums_value (rows : list (K * Q)) (k : K) (v : Q) :
  (k, v) ∈ group_sums rows ->
  (v == Qsum (filter (fun kv => kv.1 = k) rows).*2)%Q.
Proof.
  revert k v. induction rows as [|x rows IH] using rev_ind; intros k v.
  - by intros ?%elem_of_nil.
  - rewrite group_sums_snoc, filter_app, fmap_app, Qsum_app.
    intros Hin. apply group_add_elem in Hin; [|apply group_sums_NoDup].
    destruct Hin as [[Hne Hin]|[[-> [w [Hw ->]]]|[-> [Hk ->]]]].
    + rewrite filter_cons_False by (cbn; congruence).
      rewrite filter_nil. cbn [fmap list_fmap]. rewrite Qsum_nil, (IH _ _ Hin). ring.
    + rewrite filter_cons_True by done. rewrite filter_nil.
      cbn [fmap list_fmap]. rewrite Qsum_cons, Qsum_nil, (IH _ _ Hw). ring.
    + rewrite filter_cons_True by done. rewrite filter_nil.
      rewrite (filter_none _ rows).
      * cbn [fmap list_fmap]. rewrite Qsum_cons, !Qsum_nil. ring.
      * intros y Hy Hyk. apply Hk, group_sums_keys. rewrite <- Hyk.
        by apply list_elem_of_fmap_2.
Qed.

Lemma groupby_sum_keys (rows : list (K * Q)) (k : K) :
  k ∈ (groupby_sum leb rows).*1 <-> k ∈ rows.*1.
Proof.
  unfold groupby_sum. rewrite sort_by_key_perm. apply group_sums_keys.
Qed.

Lemma groupby_sum_value (rows : list (K * Q)) (k : K) (v : Q) :
  (k, v) ∈ groupby_sum leb rows ->
  (v == Qsum (filter (fun kv => kv.1 = k) rows).*2)%Q.
Proof.
  unfold groupby_sum. rewrite sort_by_key_perm. apply group_sums_value.
Qed.

End GroupByValues.

(** ** The latest date of a stock table *)

Lemma timestamp_gtb_lex (a b : timestamp) :
  timestamp_gtb a b = true <->
  (year b < year a
   \/ (year b = year a
       /\ (month b < month a \/ (month b = month a /\ day b < day a))))%Z.
Proof.
  unfold timestamp_gtb, timestamp_compare, Zlex.
  destruct (Z.compare_spec (year a) (year b)),
           (Z.compare_spec (month a) (month b)),
           (Z.compare_spec (day a) (day b));
    split; intros H'; try discriminate; try reflexivity; lia.
Qed.

Lemma timestamp_gtb_not (a b : timestamp) :
  timestamp_gtb a b = false <->
  ~ (year b < year a
     \/ (year b = year a
         /\ (month b < month a \/ (month b = month a /\ day b < day a))))%Z.
Proof.
  rewrite <- timestamp_gtb_lex. by destruct (timestamp_gtb a b).
Qed.

Lemma timestamp_gtb_total (a b : timestamp) :
  timestamp_gtb a b = false -> timestamp_gtb b a = false -> a = b.
Proof.
  rewrite !timestamp_gtb_not. destruct a as [ya ma da], b as [yb mb db]. cbn.
  intros H1 H2. f_equal; lia.
Qed.

Lemma max_date_in (d : timestamp) (ds : list timestamp) : max_date d ds ∈ d :: ds.
Proof.
  unfold max_date. revert d. induction ds as [|x ds IH]; intros d; cbn [fold_left].
  - apply elem_of_cons. by left.
  - specialize (IH (if timestamp_gtb x d then x else d)).
    apply elem_of_cons in IH as [->|IH].
    + destruct (timestamp_gtb x d).
      * apply elem_of_cons. right. apply elem_of_cons. by left.
      * apply elem_of_cons. by left.
    + apply elem_of_cons. right. apply elem_of_cons. by right.
Qed.

Lemma max_date_keeps (ds : list timestamp) (d x : timestamp) :
  timestamp_gtb x d = false -> timestamp_gtb x (max_date d ds) = false.
Proof.
  unfold max_date. revert d. induction ds as [|y ds IH]; intros d Hx; cbn [fold_left].
  - assumption.
  - apply IH. destruct (timestamp_gtb y d) eqn:E; [|assumption].
    apply timestamp_gtb_lex in E. apply timestamp_gtb_not in Hx.
    apply timestamp_gtb_not. lia.
Qed.

(** No date of the column lies after its maximum. *)
Lemma max_date_upper (d : timestamp) (ds : list timestamp) (x : timestamp) :
  x ∈ d :: ds -> timestamp_gtb x (max_date d ds) = false.
Proof.
  revert d. induction ds as [|y ds IH]; intros d Hx.
  - apply elem_of_cons in Hx as [->|Hx]; [|by apply elem_of_nil in Hx].
    apply timestamp_gtb_not. cbn. lia.
  - change (max_date d (y :: ds))
      with (max_date (if timestamp_gtb y d then y else d) ds).
    apply elem_of_cons in Hx as [->|[->|Hx]%elem_of_cons].
    + apply max_date_keeps. destruct (timestamp_gtb y d) eqn:E.
      * apply timestamp_gtb_lex in E. apply timestamp_gtb_not. lia.
      * apply timestamp_gtb_not. lia.
    + destruct (timestamp_gtb y d) eqn:E.
      * apply IH, elem_of_cons. by left.
      * by apply max_date_keeps.
    + apply IH, elem_of_cons. by right.
Qed.

(** The latest rows of a non-empty stock table: the rows of one date of the
    table, after which no row of the table lies. *)
Lemma latest_stocks_date (stocks : list stock_row) :
  stocks <> [] ->
  exists latest,
    latest_stocks stocks = filter (fun x => s_date x = latest) stocks
    /\ latest ∈ s_date <$> stocks
    /\ forall r, r ∈ stocks -> timestamp_gtb (s_date r) latest = false.
Proof.
  destruct stocks as [|r rest]; [done|]. intros _.
  exists (max_date (s_date r) (s_date <$> rest)).
  split; [reflexivity|]. split.
  - rewrite fmap_cons. apply max_date_in.
  - intros x Hx. apply max_date_upper.
    apply (list_elem_of_fmap_2 s_date) in Hx. by rewrite fmap_cons in Hx.
Qed.

Lemma latest_by_date (stocks : list stock_row) (latest : timestamp) :
  latest ∈ s_date <$> stocks ->
  (forall r, r ∈ stocks -> timestamp_gtb (s_date r) latest = false) ->
  latest_stocks stocks = filter (fun x => s_date x = latest) stocks.
Proof.
  intros Hin Hup.
  destruct (decide (stocks = [])) as [->|Hne]; [reflexivity|].
  destruct (latest_stocks_date stocks Hne) as (m & -> & Hm & Hmup).
  assert (m = latest) as ->; [|reflexivity].
  apply list_elem_of_fmap in Hin as [r1 [-> Hr1]].
  apply list_elem_of_fmap in Hm as [r2 [-> Hr2]].
  apply timestamp_gtb_total; [by apply Hup|by apply Hmup].
Qed.

Lemma latest_stocks_again (stocks : list stock_row) :
  latest_stocks (latest_stocks stocks) = latest_stocks stocks.
Proof.
  destruct (decide (stocks = [])) as [->|Hne]; [reflexivity|].
  destruct (latest_stocks_date stocks Hne) as (m & Hl & Hm & Hup).
  rewrite Hl. apply list_elem_of_fmap in Hm as [r [-> Hr]].
  rewrite (latest_by_date _ (s_date r)).
  - apply filter_all. by intros x [Hx _]%list_elem_of_filter.
  - apply list_elem_of_fmap_2. by apply list_elem_of_filter.
  - intros x [_ Hx]%list_elem_of_filter. by apply Hup.
Qed.

(** Rows that are older than some row of the table do not reach the latest
    rows, wherever they stand in the table. *)
Lemma latest_stocks_stale (old1 old2 stocks : list stock_row) :
  (forall o, o ∈ old1 ++ old2 ->
     exists r, r ∈ stocks /\ timestamp_gtb (s_date r) (s_date o) = true) ->
  latest_stocks (old1 ++ stocks ++ old2) = latest_stocks stocks.
Proof.
  intros Hold.
  destruct (decide (stocks = [])) as [->|Hne].
  - destruct old1 as [|o old1]; [destruct old2 as [|o old2]|]; [reflexivity| |].
    + destruct (Hold o) as (r & Hr & _); [apply elem_of_cons; by left|].
      by apply elem_of_nil in Hr.
    + destruct (Hold o) as (r & Hr & _); [apply elem_of_cons; by left|].
      by apply elem_of_nil in Hr.
  - destruct (latest_stocks_date stocks Hne) as (m & Hl & Hm & Hup).
    assert (forall o, o ∈ old1 ++ old2 ->
              timestamp_gtb (s_date o) m = false /\ s_date o <> m) as Hstale.
    { intros o Ho. destruct (Hold o Ho) as (r & Hr & Hlt).
      specialize (Hup r Hr). apply timestamp_gtb_lex in Hlt.
      apply timestamp_gtb_not in Hup. split.
      - apply timestamp_gtb_not. lia.
      - intros E. rewrite E in Hlt. lia. }
    rewrite (latest_by_date _ m), Hl.
    + rewrite !filter_app.
      rewrite (filter_none _ old1), (filter_none _ old2).
      * by rewrite app_nil_r.
      * intros o Ho. apply Hstale, elem_of_app. by right.
      * intros o Ho. apply Hstale, elem_of_app. by left.
    + rewrite !fmap_app, !elem_of_app. right. by left.
    + intros r [Hr|[Hr|Hr]%elem_of_app]%elem_of_app.
      * apply Hstale, elem_of_app. by left.
      * by apply Hup.
      * apply Hstale, elem_of_app. by right.
Qed.

(** ** Shipment calculator: what every result satisfies *)

Lemma forecast_monthly_first_day (forecast : list forecast_row) (row : forecast_row) :
  row ∈ forecast_monthly forecast -> day (f_date row) = 1%Z.
Proof.
  unfold forecast_monthly. by intros [kv [-> _]]%list_elem_of_fmap.
Qed.

Lemma shipments_of_row_elem (coverage : Q) (row : forecast_row)
    (ps : list (string * Q)) (r : shipment_row) :
  r ∈ shipments_of_row coverage row ps ->
  (0 < sh_shipment r)%Q /\ sh_boxes r = None
  /\ sh_forecasted_sales r = f_quantity row
  /\ (sh_warehouse r, sh_current_stock r) ∈ ps.
Proof.
  unfold shipments_of_row. destruct ps as [|p ps]; [by intros ?%elem_of_nil|].
  set (l := p :: ps). destruct (Qltb _ _).
  - intros [x [-> Hx]]%list_elem_of_fmap.
    apply list_elem_of_filter in Hx as [Hpos Hx].
    rewrite shipment_column_fmap in Hx.
    apply list_elem_of_fmap in Hx as [[w s] [-> Hws]]. cbn in *.
    by apply Qltb_lt in Hpos.
  - intros [[w s] [-> Hx]]%list_elem_of_fmap.
    apply list_elem_of_filter in Hx as [Hlt Hx]. cbn in *.
    apply Qltb_lt in Hlt. repeat split; [lra|done].
Qed.

Lemma calculate_shipments_rows (coverage : Q) (forecast : list forecast_row)
    (stocks : list stock_row) (r : shipment_row) :
  r ∈ calculate_shipments coverage forecast stocks ->
  (0 < sh_shipment r)%Q
  /\ day (sh_date r) = 1%Z
  /\ sh_boxes r = None
  /\ ForecastRow (sh_date r) (sh_unified_code r) (sh_forecasted_sales r)
     ∈ forecast_monthly forecast
  /\ (sh_warehouse r, sh_current_stock r)
     ∈ product_stocks (stocks_by_product_warehouse stocks) (sh_unified_code r).
Proof.
  intros Hr. unfold calculate_shipments in Hr.
  apply list_elem_of_bind in Hr as [row [Hr Hrow]].
  destruct (shipments_of_row_key _ _ _ _ Hr) as [Hd Hc].
  destruct (shipments_of_row_elem _ _ _ _ Hr) as (Hpos & Hb & Hq & Hps).
  rewrite Hd, Hc, Hq. repeat split; try assumption.
  - by apply (forecast_monthly_first_day forecast).
  - by destruct row.
Qed.

(** Every row that [calculate_shipments] returns carries a strictly positive
    shipment and the first day of a month, has no box count yet, repeats the
    monthly demand of its product and month, and belongs to a warehouse that
    holds a stock record of the product at the latest date, whose stock it
    repeats. *)
Theorem shipments_well_formed (coverage : Q) (forecast : list forecast_row)
    (stocks : list stock_row) :
  Forall (fun r =>
            (0 < sh_shipment r)%Q
            /\ day (sh_date r) = 1%Z
            /\ sh_boxes r = None
            /\ ForecastRow (sh_date r) (sh_unified_code r) (sh_forecasted_sales r)
               ∈ forecast_monthly forecast
            /\ (sh_warehouse r, sh_current_stock r)
               ∈ product_stocks (stocks_by_product_warehouse stocks)
                   (sh_unified_code r))
         (calculate_shipments coverage forecast stocks).
Proof.
  apply Forall_forall. intros r Hr. by apply (calculate_shipments_rows coverage).
Qed.

Lemma NoDup_bind_keys {A B K1 K2 : Type} (k1 : A -> K1) (kb : B -> K1 * K2)
    (f : A -> list B) (l : list A) :
  NoDup (k1 <$> l) ->
  (forall a b, b ∈ f a -> (kb b).1 = k1 a) ->
  (forall a, a ∈ l -> NoDup (kb <$> f a)) ->
  NoDup (kb <$> (l ≫= f)).
Proof.
  intros Hnd Hkey Hrow. induction l as [|a l IH]; [constructor|].
  rewrite bind_cons, fmap_app. rewrite fmap_cons in Hnd.
  apply NoDup_cons in Hnd as [Ha Hnd]. apply NoDup_app. split; [|split].
  - apply Hrow, elem_of_cons. by left.
  - intros x [b [-> Hb]]%list_elem_of_fmap [b' [Hxb' Hb']]%list_elem_of_fmap.
    apply list_elem_of_bind in Hb' as [a' [Hb' Ha']].
    apply Ha. rewrite <- (Hkey _ _ Hb), Hxb', (Hkey _ _ Hb').
    by apply list_elem_of_fmap_2.
  - apply IH; [assumption|]. intros a' Ha'. apply Hrow, elem_of_cons. by right.
Qed.

Lemma shipments_of_row_warehouses (coverage : Q) (row : forecast_row)
    (ps : list (string * Q)) :
  NoDup ps.*1 -> NoDup (sh_warehouse <$> shipments_of_row coverage row ps).
Proof.
  intros Hnd. unfold shipments_of_row. destruct ps as [|p ps]; [constructor|].
  set (l := p :: ps) in *. destruct (Qltb _ _).
  - rewrite shipment_column_fmap, filter_fmap, <- !list_fmap_compose.
    apply (sublist_NoDup _ l.*1); [assumption|].
    apply (fmap_sublist fst), sublist_filter.
  - rewrite <- list_fmap_compose.
    apply (sublist_NoDup _ l.*1); [assumption|].
    apply (fmap_sublist fst), sublist_filter.
Qed.

(** No two rows of the result share date, warehouse and product. *)
Theorem shipments_keys_distinct (coverage : Q) (forecast : list forecast_row)
    (stocks : list stock_row) :
  NoDup ((fun r => (sh_date r, sh_warehouse r, sh_unified_code r))
           <$> calculate_shipments coverage forecast stocks).
Proof.
  apply (NoDup_fmap_1 (fun k : timestamp * string * string => ((k.1.1, k.2), k.1.2))).
  rewrite <- list_fmap_compose. unfold calculate_shipments.
  apply (NoDup_bind_keys (fun row => (f_date row, f_unified_code row))).
  - apply forecast_monthly_NoDup.
  - intros row r Hr. cbn. by destruct (shipments_of_row_key _ _ _ _ Hr) as [-> ->].
  - intros row _.
    apply (NoDup_fmap_1 snd). rewrite <- list_fmap_compose.
    apply shipments_of_row_warehouses, product_stocks_NoDup.
Qed.

(** A product without a stock row at the latest date of the stock table
    receives no shipment row; in particular an empty stock table or an empty
    forecast gives an empty result. *)
Theorem no_stock_no_shipment (coverage : Q) (forecast : list forecast_row)
    (stocks : list stock_row) :
  (forall r, r ∈ calculate_shipments coverage forecast stocks ->
     exists s, s ∈ latest_stocks stocks
               /\ s_unified_code s = sh_unified_code r
               /\ s_warehouse s = sh_warehouse r)
  /\ calculate_shipments coverage forecast [] = []
  /\ calculate_shipments coverage [] stocks = [].
Proof.
  split; [|split].
  - intros r Hr.
    destruct (calculate_shipments_rows _ _ _ _ Hr) as (_ & _ & _ & _ & Hps).
    unfold product_stocks in Hps.
    apply list_elem_of_fmap in Hps as [[[c w] q] [Heq Hx]].
    apply list_elem_of_filter in Hx as [Hc Hx]. cbn in Heq, Hc.
    injection Heq as Hw Hq.
    assert ((c, w) ∈ (stocks_by_product_warehouse stocks).*1) as Hk
      by (by apply (list_elem_of_fmap_2 fst _ (c, w, q))).
    unfold stocks_by_product_warehouse in Hk. apply groupby_sum_keys in Hk.
    rewrite <- list_fmap_compose in Hk.
    apply list_elem_of_fmap in Hk as [s [Hs Hin]]. cbn in Hs.
    exists s. split; [assumption|]. injection Hs as -> ->. by rewrite Hc.
  - unfold calculate_shipments.
    induction (forecast_monthly forecast) as [|row l IH]; [reflexivity|].
    rewrite bind_cons, IH. reflexivity.
  - reflexivity.
Qed.

(** Only the rows of the latest date of the stock table count: the result
    is that of the latest rows alone, and rows older than some row of the
    table may be added or removed anywhere without changing it. *)
Theorem only_latest_stocks_count (coverage : Q) (forecast : list forecast_row)
    (stocks old1 old2 : list stock_row) :
  calculate_shipments coverage forecast (latest_stocks stocks)
  = calculate_shipments coverage forecast stocks
  /\ ((forall o, o ∈ old1 ++ old2 ->
         exists r, r ∈ stocks /\ timestamp_gtb (s_date r) (s_date o) = true) ->
      calculate_shipments coverage forecast (old1 ++ stocks ++ old2)
      = calculate_shipments coverage forecast stocks).
Proof.
  unfold calculate_shipments, stocks_by_product_warehouse. split.
  - by rewrite latest_stocks_again.
  - intros Hold. by rewrite latest_stocks_stale.
Qed.

(** ** Group-by: a grouped table is its own group-by *)

Section GroupByAgain.
Context {K : Type} `{EqDecision K}.
Variable leb : K -> K -> bool.
Hypothesis leb_total : forall a b : K, leb a b = false -> leb b a = true.

(** Consecutive rows are in the order of [leb]. *)
Fixpoint key_sorted (l : list (K * Q)) : Prop :=
  match l with
  | [] => True
  | x :: rest =>
      match rest with
      | [] => True
      | y :: _ => leb x.1 y.1 = true
      end /\ key_sorted rest
  end.

Lemma sort_insert_sorted (x : K * Q) (l : list (K * Q)) :
  key_sorted l -> key_sorted (sort_insert leb x l).
Proof.
  induction l as [|y l IH]; cbn [sort_insert].
  - done.
  - intros Hs. destruct (leb x.1 y.1) eqn:E.
    + split; [exact E|exact Hs].
    + destruct Hs as [Hy Hs]. specialize (IH Hs). split; [|exact IH].
      destruct l as [|z l]; cbn [sort_insert].
      * by apply leb_total.
      * destruct (leb x.1 z.1); [by apply leb_total|exact Hy].
Qed.

Lemma sort_by_key_sorted (l : list (K * Q)) : key_sorted (sort_by_key leb l).
Proof.
  induction l as [|x l IH]; [done|]. by apply sort_insert_sorted.
Qed.

Lemma sort_by_key_fixed (l : list (K * Q)) : key_sorted l -> sort_by_key leb l = l.
Proof.
  induction l as [|x l IH]; [done|].
  intros [Hx Hs]. cbn [sort_by_key foldr]. fold (sort_by_key leb l).
  rewrite (IH Hs). destruct l as [|y l]; [done|].
  cbn [sort_insert]. by rewrite Hx.
Qed.

Lemma group_add_fresh (k : K) (v : Q) (acc : list (K * Q)) :
  k ∉ acc.*1 -> group_add k v acc = acc ++ [(k, v)].
Proof.
  induction acc as [|[k0 v0] acc IH]; [done|].
  cbn [group_add fmap list_fmap fst app]. intros Hk.
  destruct (decide (k = k0)) as [->|Hne].
  - exfalso. apply Hk, elem_of_cons. by left.
  - f_equal. apply IH. intros Hin. apply Hk, elem_of_cons. by right.
Qed.

Lemma group_sums_fixed (l : list (K * Q)) : NoDup l.*1 -> group_sums l = l.
Proof.
  induction l as [|x l IH] using rev_ind; [done|].
  rewrite fmap_app. intros [Hl [Hx _]]%NoDup_app.
  rewrite group_sums_snoc, (IH Hl). destruct x as [k v]. apply group_add_fresh.
  intros Hin. apply (Hx k Hin). cbn. apply list_elem_of_singleton. done.
Qed.

Lemma groupby_sum_again (rows : list (K * Q)) :
  groupby_sum leb (groupby_sum leb rows) = groupby_sum leb rows.
Proof.
  unfold groupby_sum at 1.
  rewrite group_sums_fixed by apply groupby_sum_NoDup.
  apply sort_by_key_fixed, sort_by_key_sorted.
Qed.

End GroupByAgain.

Lemma Zcompare_total (a b : Z) : (a ?= b)%Z = Gt -> (b ?= a)%Z = Lt.
Proof. intros H. by rewrite Z.compare_antisym, H. Qed.

Lemma month_string_leb_total (a b : period * string) :
  pair_leb period_compare string_leb a b = false ->
  pair_leb period_compare string_leb b a = true.
Proof.
  destruct a as [[ya ma] sa], b as [[yb mb] sb].
  unfold pair_leb, period_compare, Zlex, string_leb. cbn.
  rewrite (Z.compare_antisym ya yb), (Z.compare_antisym ma mb).
  rewrite (String.compare_antisym sb sa).
  destruct (ya ?= yb)%Z; cbn; try done.
  destruct (ma ?= mb)%Z; cbn; try done.
  destruct (sa ?= sb)%string; cbn; done.
Qed.

Lemma period_round_trip (p : period) : to_period_M (to_timestamp p) = p.
Proof. by destruct p. Qed.

(** ** Monthly demand *)

Lemma forecast_monthly_elem (forecast : list forecast_row) (row : forecast_row) :
  row ∈ forecast_monthly forecast ->
  exists p : period,
    f_date row = to_timestamp p
    /\ ((p, f_unified_code row), f_quantity row)
       ∈ groupby_sum (pair_leb period_compare string_leb)
           (fmap (fun r => ((to_period_M (f_date r), f_unified_code r), f_quantity r))
                 forecast).
Proof.
  unfold forecast_monthly. intros [[[p c] q] [-> Hin]]%list_elem_of_fmap.
  exists p. by split.
Qed.

(** The monthly demand of a product is the sum of the forecast
    quantities of the product over the days of the month, and every month
    and product of the forecast has exactly one row of monthly demand. *)
Theorem monthly_demand_is_sum (forecast : list forecast_row) :
  (forall row, row ∈ forecast_monthly forecast ->
     day (f_date row) = 1%Z
     /\ (f_quantity row ==
         Qsum (fmap f_quantity
                 (filter (fun r => to_period_M (f_date r) = to_period_M (f_date row)
                                   /\ f_unified_code r = f_unified_code row)
                         forecast)))%Q
     /\ exists r, r ∈ forecast
          /\ to_period_M (f_date r) = to_period_M (f_date row)
          /\ f_unified_code r = f_unified_code row)
  /\ (forall r, r ∈ forecast ->
        exists row, row ∈ forecast_monthly forecast
          /\ f_date row = to_timestamp (to_period_M (f_date r))
          /\ f_unified_code row = f_unified_code r)
  /\ NoDup (fmap (fun row => (f_date row, f_unified_code row))
              (forecast_monthly forecast)).
Proof.
  split; [|split].
  - intros row Hrow.
    destruct (forecast_monthly_elem _ _ Hrow) as [p [Hd Hin]].
    split; [by rewrite Hd|]. rewrite Hd, period_round_trip. split.
    + rewrite (groupby_sum_value _ _ _ _ Hin).
      rewrite filter_fmap, <- list_fmap_compose.
      erewrite list_filter_iff; [reflexivity|].
      intros r. cbn. split.
      * intros [= <- <-]. done.
      * intros [<- <-]. done.
    + assert (Hk : (p, f_unified_code row)
                   ∈ (groupby_sum (pair_leb period_compare string_leb)
                        (fmap (fun r => ((to_period_M (f_date r), f_unified_code r),
                                         f_quantity r)) forecast)).*1).
      { by apply (list_elem_of_fmap_2 fst _ (p, f_unified_code row, f_quantity row)). }
      apply groupby_sum_keys in Hk.
      apply list_elem_of_fmap in Hk as [[k v] [Hkv Hin']].
      apply list_elem_of_fmap in Hin' as [r [Hr Hin']].
      injection Hr as -> ->. cbn in Hkv. injection Hkv as -> Hc.
      exists r. done.
  - intros r Hr.
    assert (Hk : (to_period_M (f_date r), f_unified_code r)
                 ∈ (groupby_sum (pair_leb period_compare string_leb)
                      (fmap (fun r => ((to_period_M (f_date r), f_unified_code r),
                                       f_quantity r)) forecast)).*1).
    { apply groupby_sum_keys. apply list_elem_of_fmap.
      exists (to_period_M (f_date r), f_unified_code r, f_quantity r).
      split; [done|]. apply list_elem_of_fmap. by exists r. }
    apply list_elem_of_fmap in Hk as [[[p c] q] [Hk Hin]].
    cbn in Hk. injection Hk as Hp Hc.
    exists (ForecastRow (to_timestamp p) c q). split; [|by rewrite Hp, Hc].
    unfold forecast_monthly.
    by apply (list_elem_of_fmap_2
                (fun kv => ForecastRow (to_timestamp kv.1.1) kv.1.2 kv.2) _ (p, c, q)).
  - apply forecast_monthly_NoDup.
Qed.

(** Aggregating an already monthly forecast again changes nothing. *)
Lemma forecast_monthly_again (forecast : list forecast_row) :
  forecast_monthly (forecast_monthly forecast) = forecast_monthly forecast.
Proof.
  unfold forecast_monthly at 1.
  assert (Hkeys : fmap (fun r => ((to_period_M (f_date r), f_unified_code r), f_quantity r))
                    (forecast_monthly forecast)
                  = groupby_sum (pair_leb period_compare string_leb)
                      (fmap (fun r => ((to_period_M (f_date r), f_unified_code r),
                                       f_quantity r)) forecast)).
  { unfold forecast_monthly. rewrite <- list_fmap_compose.
    rewrite <- (list_fmap_id (groupby_sum _ _)) at 2.
    apply list_fmap_ext. intros _ [[p c] q] _. cbn. by rewrite period_round_trip. }
  rewrite Hkeys, groupby_sum_again by apply month_string_leb_total.
  reflexivity.
Qed.

(** ** Constraint engine: the latest stock of a product *)

(** The dictionary of [_get_latest_stocks] holds, for every product that
    has a row at the latest date of the table, the sum of the stock of its
    rows at that date; it has no entry for any other product, so that the
    [get(code, 0)] of the passes reads 0 for them. *)
Theorem latest_stock_lookup (stocks : list stock_row) (code : string) :
  (default 0 (_get_latest_stocks stocks !! code)
   == Qsum (fmap s_stock
              (filter (fun r => s_unified_code r = code) (latest_stocks stocks))))%Q
  /\ (is_Some (_get_latest_stocks stocks !! code)
      <-> exists r, r ∈ latest_stocks stocks /\ s_unified_code r = code).
Proof.
  destruct stocks as [|r0 rest].
  { cbn. split; [reflexivity|]. rewrite lookup_empty. split.
    - by intros [? ?].
    - intros [r [Hr _]]. by apply elem_of_nil in Hr. }
  change (_get_latest_stocks (r0 :: rest))
    with (list_to_map (M := gmap string Q)
            (groupby_sum string_leb
               (fmap (fun x => (s_unified_code x, s_stock x))
                     (latest_stocks (r0 :: rest))))).
  set (latest := latest_stocks (r0 :: rest)).
  set (rows := fmap (fun x => (s_unified_code x, s_stock x)) latest).
  assert (Hkeys : code ∈ (groupby_sum string_leb rows).*1
                  <-> exists r, r ∈ latest /\ s_unified_code r = code).
  { rewrite groupby_sum_keys. unfold rows. rewrite <- list_fmap_compose.
    rewrite list_elem_of_fmap. split.
    - intros [r [-> Hr]]. by exists r.
    - intros [r [Hr <-]]. by exists r. }
  destruct (list_to_map (groupby_sum string_leb rows) !! code) as [v|] eqn:E.
  - apply elem_of_list_to_map_2 in E. split.
    + cbn [default]. rewrite (groupby_sum_value _ _ _ _ E). unfold rows.
      rewrite filter_fmap, <- list_fmap_compose. reflexivity.
    + split; [intros _|by eexists]. apply Hkeys.
      apply list_elem_of_fmap. by exists (code, v).
  - apply not_elem_of_list_to_map_2 in E. split.
    + cbn [default]. rewrite filter_none; [reflexivity|].
      intros r Hr Hc. apply E, Hkeys. by exists r.
    + split; [by intros [? ?]|]. intros H. by apply Hkeys in H.
Qed.

(** ** Constraint engine: the withdraw pass over the forecast *)

Import ConstraintPasses.

Lemma zero_codes_rows (z1 z2 : string -> bool) (forecast : list forecast_row) :
  (forall r, r ∈ forecast -> z1 (f_unified_code r) = z2 (f_unified_code r)) ->
  zero_codes z1 forecast = zero_codes z2 forecast.
Proof.
  intros H. unfold zero_codes. apply list_fmap_ext. intros i r Hi.
  rewrite (H r); [done|]. by eapply list_elem_of_lookup_2.
Qed.

Lemma zero_codes_codes (z : string -> bool) (forecast : list forecast_row) :
  f_unified_code <$> zero_codes z forecast = f_unified_code <$> forecast.
Proof.
  unfold zero_codes. rewrite <- list_fmap_compose. apply list_fmap_ext.
  intros i r _. cbn. by destruct (z (f_unified_code r)).
Qed.

Lemma zero_codes_compose (z1 z2 : string -> bool) (forecast : list forecast_row) :
  zero_codes z1 (zero_codes z2 forecast)
  = zero_codes (fun c => z2 c || z1 c) forecast.
Proof.
  unfold zero_codes. rewrite <- list_fmap_compose. apply list_fmap_ext.
  intros i r _. cbn. destruct (z2 (f_unified_code r)); cbn.
  - by destruct (z1 (f_unified_code r)).
  - done.
Qed.

Lemma zero_codes_lookup (z : string -> bool) (forecast : list forecast_row)
    (i : nat) (r : forecast_row) :
  forecast !! i = Some r ->
  zero_codes z forecast !! i
  = Some (if z (f_unified_code r)
          then ForecastRow (f_date r) (f_unified_code r) 0 else r).
Proof.
  intros Hi. unfold zero_codes. by rewrite list_lookup_fmap, Hi.
Qed.

(** Whether the turn of the loop of the withdraw pass for [c] finds no stock. *)
Definition withdraw_acts (wb ozon our : gmap string Q) (c : string) : bool :=
  Qle_bool (default 0%Q (wb !! c) + default 0%Q (ozon !! c) + default 0%Q (our !! c)) 0.

Lemma withdraw_loop (wb ozon our : gmap string Q) (forecast : list forecast_row)
    (l : list string) (zeroed : string -> bool) :
  fold_left (withdraw_step wb ozon our) l (zero_codes zeroed forecast)
  = zero_codes
      (fun c => zeroed c || (bool_decide (c ∈ l) && withdraw_acts wb ozon our c))
      forecast.
Proof.
  revert zeroed. induction l as [|c l IH]; intros zeroed; cbn [fold_left].
  - apply zero_codes_ext. intros c. rewrite bool_decide_eq_false_2.
    + by rewrite orb_false_r.
    + apply not_elem_of_nil.
  - assert (withdraw_step wb ozon our (zero_codes zeroed forecast) c
            = zero_codes (fun c' => zeroed c'
                                    || (bool_decide (c' = c) && withdraw_acts wb ozon our c))
                forecast) as ->.
    { unfold withdraw_step. rewrite zero_codes_codes. fold (withdraw_acts wb ozon our c).
      destruct (bool_decide (c ∈ f_unified_code <$> forecast)) eqn:Ein.
      - destruct (withdraw_acts wb ozon our c).
        + rewrite zero_product_zero_codes. apply zero_codes_ext. intros c'.
          by rewrite andb_true_r.
        + apply zero_codes_ext. intros c'. by rewrite andb_false_r, orb_false_r.
      - apply bool_decide_eq_false in Ein. apply zero_codes_rows. intros r Hr.
        rewrite (bool_decide_eq_false_2 (f_unified_code r = c)).
        + by rewrite orb_false_r.
        + intros Hc. apply Ein. rewrite <- Hc. apply list_elem_of_fmap. by exists r. }
    rewrite IH. apply zero_codes_ext. intros c'.
    rewrite <- orb_assoc. f_equal.
    destruct (decide (c' = c)) as [->|Hne].
    + rewrite (bool_decide_eq_true_2 (c = c)) by done.
      rewrite (bool_decide_eq_true_2 (c ∈ c :: l)) by (apply elem_of_cons; by left).
      cbn. by destruct (withdraw_acts wb ozon our c), (bool_decide (c ∈ l)).
    + rewrite (bool_decide_eq_false_2 (c' = c)) by done. cbn.
      f_equal. apply bool_decide_ext. rewrite elem_of_cons. tauto.
Qed.

Lemma apply_withdraw_as_zero_codes (forecast : list forecast_row)
    (withdraw_list : list string) (wb_stocks ozon_stocks our_stocks : list stock_row) :
  apply_withdraw_constraints forecast withdraw_list wb_stocks ozon_stocks our_stocks
  = zero_codes
      (fun c => bool_decide (c ∈ withdraw_list)
                && withdraw_acts (_get_latest_stocks wb_stocks)
                     (_get_latest_stocks ozon_stocks) (_get_latest_stocks our_stocks) c)
      forecast.
Proof.
  unfold apply_withdraw_constraints. destruct withdraw_list as [|c0 rest].
  - rewrite (zero_codes_ext _ (fun _ => false)); [by rewrite zero_codes_none|].
    intros c. rewrite bool_decide_eq_false_2; [done|apply not_elem_of_nil].
  - rewrite <- (zero_codes_none forecast) at 1. rewrite withdraw_loop.
    apply zero_codes_ext. intros c. cbn [orb]. f_equal.
    apply bool_decide_ext. rewrite elem_of_elements, elem_of_list_to_set. done.
Qed.

Lemma apply_defecture_as_zero_codes (forecast : list forecast_row)
    (defecture_list : list defecture_row) (wb_stocks ozon_stocks : list stock_row) :
  apply_defecture_constraints forecast defecture_list wb_stocks ozon_stocks
  = zero_codes
      (fun c => existsb (fun d => entry_acts (_get_latest_stocks wb_stocks)
                                    (_get_latest_stocks ozon_stocks) forecast d
                                  && bool_decide (c = d_unified_code d))
                  defecture_list)
      forecast.
Proof.
  unfold apply_defecture_constraints. destruct defecture_list as [|d0 rest].
  - by rewrite (zero_codes_ext _ (fun _ => false)), zero_codes_none.
  - rewrite <- (zero_codes_none forecast) at 1.
    rewrite (defecture_loop _ _ forecast (d0 :: rest)). reflexivity.
Qed.

(** The withdraw pass over the forecast sets the quantity of a row to 0
    exactly when the product of the row is in the withdraw list and its
    latest stock, summed over Wildberries, Ozon and the own warehouse, is
    <= 0; every other row, and the date and product of every row, is kept;
    a second application changes nothing. *)
Theorem forecast_withdraw_zeroing (forecast : list forecast_row)
    (withdraw_list : list string) (wb_stocks ozon_stocks our_stocks : list stock_row) :
  let out :=
    apply_withdraw_constraints forecast withdraw_list wb_stocks ozon_stocks our_stocks in
  let total_stock := fun code : string =>
    (default 0 (_get_latest_stocks wb_stocks !! code)
     + default 0 (_get_latest_stocks ozon_stocks !! code)
     + default 0 (_get_latest_stocks our_stocks !! code))%Q in
  let zeroed := fun code : string =>
    code ∈ withdraw_list /\ (total_stock code <= 0)%Q in
  length out = length forecast
  /\ (forall i r, forecast !! i = Some r ->
        (zeroed (f_unified_code r) ->
         out !! i = Some (ForecastRow (f_date r) (f_unified_code r) 0))
        /\ (~ zeroed (f_unified_code r) -> out !! i = Some r))
  /\ apply_withdraw_constraints out withdraw_list wb_stocks ozon_stocks our_stocks = out.
Proof.
  intros out total_stock zeroed. subst out.
  rewrite !apply_withdraw_as_zero_codes.
  set (z := fun c => bool_decide (c ∈ withdraw_list) && withdraw_acts _ _ _ c).
  assert (Hz : forall c, z c = true <-> zeroed c).
  { intros c. unfold z, zeroed, withdraw_acts, total_stock.
    rewrite andb_true_iff, bool_decide_eq_true, Qle_bool_iff. done. }
  split; [apply length_fmap|]. split.
  - intros i r Hi. rewrite (zero_codes_lookup _ _ _ _ Hi). split.
    + intros H. apply Hz in H. by rewrite H.
    + intros H. destruct (z (f_unified_code r)) eqn:E; [|done].
      exfalso. by apply H, Hz.
  - rewrite zero_codes_compose. apply zero_codes_ext. intros c. apply orb_diag.
Qed.

(** ** The two passes over the forecast *)

(** The withdraw pass and the defecture pass over the forecast can be
    applied in either order, and the orchestrator's sequence of the two
    zeroes a row exactly when one of the passes alone would zero it; a
    second run of the sequence changes nothing. *)
Theorem forecast_passes_compose (forecast : list forecast_row)
    (withdraw : list string) (defecture : list defecture_row)
    (wb_stocks ozon_stocks our_stocks : list stock_row) :
  let withdrawn := fun f =>
    apply_withdraw_constraints f withdraw wb_stocks ozon_stocks our_stocks in
  let defected := fun f =>
    apply_defecture_constraints f defecture wb_stocks ozon_stocks in
  let out :=
    Forecaster.apply_constraints_to_forecast forecast withdraw defecture
      wb_stocks ozon_stocks our_stocks in
  out = defected (withdrawn forecast)
  /\ defected (withdrawn forecast) = withdrawn (defected forecast)
  /\ (forall i r, forecast !! i = Some r ->
        (withdrawn forecast !! i = Some r -> defected forecast !! i = Some r ->
         out !! i = Some r)
        /\ (withdrawn forecast !! i <> Some r \/ defected forecast !! i <> Some r ->
            out !! i = Some (ForecastRow (f_date r) (f_unified_code r) 0)))
  /\ Forecaster.apply_constraints_to_forecast out withdraw defecture
       wb_stocks ozon_stocks our_stocks = out.
Proof.
  intros withdrawn defected out.
  assert (Hout : forall f, Forecaster.apply_constraints_to_forecast f withdraw defecture
                   wb_stocks ozon_stocks our_stocks = defected (withdrawn f)).
  { intros f. unfold Forecaster.apply_constraints_to_forecast, withdrawn, defected.
    destruct withdraw, defecture; reflexivity. }
  set (wb := _get_latest_stocks wb_stocks).
  set (ozon := _get_latest_stocks ozon_stocks).
  set (zw := fun c => bool_decide (c ∈ withdraw)
                      && withdraw_acts wb ozon (_get_latest_stocks our_stocks) c).
  set (zd := fun c => existsb (fun d => entry_acts wb ozon forecast d
                                        && bool_decide (c = d_unified_code d))
                        defecture).
  assert (Hw : forall f, withdrawn f = zero_codes zw f).
  { intros f. apply apply_withdraw_as_zero_codes. }
  assert (Hd : forall z, defected (zero_codes z forecast)
                         = zero_codes zd (zero_codes z forecast)).
  { intros z. unfold defected. rewrite apply_defecture_as_zero_codes.
    apply zero_codes_ext. intros c. unfold zd. clear.
    induction defecture as [|d l IH]; [done|]. cbn [existsb].
    by rewrite IH, entry_acts_zero_codes. }
  assert (Hd0 : defected forecast = zero_codes zd forecast).
  { rewrite <- (zero_codes_none forecast) at 1. rewrite Hd. by rewrite zero_codes_none. }
  assert (Hall : out = zero_codes (fun c => zw c || zd c) forecast).
  { unfold out. rewrite Hout, Hw, Hd. apply zero_codes_compose. }
  split; [apply Hout|]. split; [|split].
  - rewrite Hw, Hd, Hd0, Hw, !zero_codes_compose. apply zero_codes_ext.
    intros c. apply orb_comm.
  - intros i r Hi. rewrite Hall, Hw, Hd0, !(zero_codes_lookup _ _ _ _ Hi).
    destruct (zw (f_unified_code r)) eqn:Ew, (zd (f_unified_code r)) eqn:Ed;
      cbn [orb]; (split; [intros H1 H2|intros [H|H]]); done.
  - rewrite Hout. fold out. rewrite Hall, Hw, zero_codes_compose, Hd, zero_codes_compose.
    apply zero_codes_ext. intros c.
    destruct (zw c), (zd c); reflexivity.
Qed.

(** ** Constraint engine: the defecture pass over the shipments *)

(** The defecture pass over the shipments sets to 0 the shipment of every
    row whose product has an entry in the defecture list, whatever the end
    date of the entry and whatever the stocks; it keeps every other column
    and every other row, and a second application changes nothing. *)
Theorem shipment_defecture_zeroing (shipments : list shipment_row)
    (defecture_list : list defecture_row) :
  let out := apply_shipment_defecture_constraints shipments defecture_list in
  length out = length shipments
  /\ (forall i r, shipments !! i = Some r ->
        ((exists d, d ∈ defecture_list /\ d_unified_code d = sh_unified_code r) ->
         out !! i = Some (ShipmentRow (sh_date r) (sh_warehouse r) (sh_unified_code r)
                            (sh_forecasted_sales r) (sh_current_stock r)
                            (sh_required_stock r) 0 (sh_boxes r)))
        /\ ((forall d, d ∈ defecture_list -> d_unified_code d <> sh_unified_code r) ->
            out !! i = Some r))
  /\ apply_shipment_defecture_constraints out defecture_list = out.
Proof.
  intros out. subst out. unfold apply_shipment_defecture_constraints.
  destruct defecture_list as [|d0 rest].
  { split; [done|]. split; [|done]. intros i r Hi. split; [|done].
    intros [d [Hd _]]. by apply elem_of_nil in Hd. }
  set (l := d0 :: rest).
  set (codes := list_to_set (d_unified_code <$> l) : gset string).
  set (f := fun r => if bool_decide (sh_unified_code r ∈ codes)
                     then set_shipment 0 r else r).
  assert (Hcodes : forall c, c ∈ codes <-> exists d, d ∈ l /\ d_unified_code d = c).
  { intros c. unfold codes. rewrite elem_of_list_to_set, list_elem_of_fmap.
    split; intros [d [? ?]]; by exists d. }
  split; [apply length_fmap|]. split.
  - intros i r Hi. rewrite list_lookup_fmap, Hi. cbn. unfold f. split.
    + intros Hd. by rewrite bool_decide_eq_true_2 by by apply Hcodes.
    + intros Hd. rewrite bool_decide_eq_false_2; [done|].
      intros [d [Hin Hc]]%Hcodes. by apply (Hd d).
  - rewrite <- list_fmap_compose. apply list_fmap_ext. intros i r _.
    cbn. unfold f. destruct (bool_decide (sh_unified_code r ∈ codes)) eqn:E.
    + cbn [set_shipment sh_unified_code]. by rewrite E.
    + by rewrite E.
Qed.

(** ** Constraint engine: how far rounding moves a shipment *)

Lemma Qceiling_zero (q : Q) : Qceiling (0 / q) = 0%Z.
Proof.
  assert (H : (0 / q == 0)%Q) by (unfold Qdiv; ring).
  rewrite H. reflexivity.
Qed.

Lemma round_to_box_tight (box_sizes : gmap string Z) (row : shipment_row) :
  map_Forall (fun _ b => (0 < b)%Z) box_sizes ->
  let b := resolve_box_size box_sizes (sh_unified_code row) in
  let row' := round_to_box box_sizes row in
  (sh_shipment row' < sh_shipment row + inject_Z b)%Q
  /\ (sh_shipment row <= sh_shipment row')%Q
  /\ ((0 < sh_shipment row)%Q -> exists n, sh_boxes row' = Some n /\ (1 <= n)%Z)
  /\ ((sh_shipment row == 0)%Q ->
      sh_boxes row' = Some 0%Z /\ (sh_shipment row' == 0)%Q)
  /\ (forall k : Z, (sh_shipment row == inject_Z k * inject_Z b)%Q ->
        sh_boxes row' = Some k /\ (sh_shipment row' == sh_shipment row)%Q).
Proof.
  intros Hpos b row'.
  assert (Hb : (0 < b)%Z) by by apply resolve_box_size_positive.
  assert (HbQ : (0 < inject_Z b)%Q) by (rewrite <- (Zlt_Qlt 0); exact Hb).
  subst row'. unfold round_to_box. cbn [sh_shipment sh_boxes]. fold b.
  set (s := sh_shipment row).
  set (boxes := Qceiling (s / inject_Z b)).
  assert (Hlt : (inject_Z boxes - 1 < s / inject_Z b)%Q).
  { pose proof (Qceiling_lt (s / inject_Z b)) as H. fold boxes in H.
    unfold Z.sub in H. rewrite inject_Z_plus in H. exact H. }
  assert (Hge : (s / inject_Z b <= inject_Z boxes)%Q) by apply Qle_ceiling.
  assert (Hsb : (s / inject_Z b * inject_Z b == s)%Q) by (field; lra).
  split; [|split; [|split; [|split]]].
  - apply (Qmult_lt_r _ _ (inject_Z b) HbQ) in Hlt.
    rewrite Hsb in Hlt. lra.
  - apply (Qmult_le_r _ _ (inject_Z b) HbQ) in Hge.
    by rewrite Hsb in Hge.
  - intros Hs. exists boxes. split; [done|].
    assert (0 < s / inject_Z b)%Q as H0.
    { apply Qlt_shift_div_l; [done|]. lra. }
    assert (H1 : (0 < inject_Z boxes)%Q) by lra.
    rewrite <- (Zlt_Qlt 0) in H1. lia.
  - intros Hs.
    assert (Hbx : boxes = 0%Z).
    { unfold boxes. assert (H : (s / inject_Z b == 0 / inject_Z b)%Q) by by rewrite Hs.
      rewrite H. apply Qceiling_zero. }
    rewrite Hbx. split; [done|]. ring.
  - intros k Hk.
    assert (Hbx : boxes = k).
    { unfold boxes.
      assert (H : (s / inject_Z b == inject_Z k * inject_Z b / inject_Z b)%Q)
        by by rewrite Hk.
      rewrite H. apply Qceiling_multiple. lia. }
    rewrite Hbx. split; [done|]. by rewrite Hk.
Qed.

(** With positive box sizes, rounding adds less than one box to a
    shipment: the rounded shipment is below the shipment plus the box size
    of the product.  A positive shipment gets at least one box; a shipment
    of 0 gets 0 boxes and stays 0; a shipment that is a whole number of
    boxes keeps its quantity. *)
Theorem box_rounding_tight (self_box_sizes : gmap string Z)
    (box_sizes : option (gmap string Z)) (shipments : list shipment_row) :
  let sizes := default self_box_sizes box_sizes in
  let rounded := apply_box_constraints self_box_sizes shipments box_sizes in
  map_Forall (fun _ b => (0 < b)%Z) sizes ->
  forall i row, shipments !! i = Some row ->
    exists row', rounded !! i = Some row'
      /\ let b := resolve_box_size sizes (sh_unified_code row) in
         (sh_shipment row' < sh_shipment row + inject_Z b)%Q
         /\ ((0 < sh_shipment row)%Q ->
             exists n, sh_boxes row' = Some n /\ (1 <= n)%Z)
         /\ ((sh_shipment row == 0)%Q ->
             sh_boxes row' = Some 0%Z /\ (sh_shipment row' == 0)%Q)
         /\ (forall k : Z, (sh_shipment row == inject_Z k * inject_Z b)%Q ->
               sh_boxes row' = Some k /\ (sh_shipment row' == sh_shipment row)%Q).
Proof.
  intros sizes rounded Hpos i row Hi.
  exists (round_to_box sizes row). split.
  - subst rounded. unfold apply_box_constraints. fold sizes.
    destruct shipments as [|r0 rest]; [done|].
    by rewrite list_lookup_fmap, Hi.
  - pose proof (round_to_box_tight sizes row Hpos) as H. cbv zeta in H |- *.
    destruct H as (H1 & _ & H2 & H3 & H4).
    split; [exact H1|]. split; [exact H2|]. split; [exact H3|exact H4].
Qed.

(** [box_rounding_tight] on the shipment of 100 of scenario A: 5 boxes of
    24 make 120, less than 100 + 24. *)
Lemma box_rounding_tight_witness :
  exists row',
    apply_box_constraints ∅ Scenario.shipments (Some Scenario.box_sizes) !! 0%nat
    = Some row'
    /\ (sh_shipment row' < 100 + inject_Z 24)%Q.
Proof.
  destruct (box_rounding_tight ∅ (Some Scenario.box_sizes) Scenario.shipments)
    with (i := 0%nat)
         (row := ShipmentRow (Timestamp 2024 2 1) "W" "P" 100 50 150 100 None)
    as [row' [Hrow' [Hlt _]]].
  - apply map_Forall_singleton. reflexivity.
  - reflexivity.
  - exists row'. split; [exact Hrow'|exact Hlt].
Defined.

(** ** The orchestrator: from the forecast to the boxes *)

Lemma shipment_withdraw_as_map (shipments : list shipment_row)
    (withdraw_list : list string) :
  apply_shipment_withdraw_constraints shipments withdraw_list
  = (fun r => if bool_decide (sh_unified_code r ∈ withdraw_list)
              then set_shipment 0 r else r) <$> shipments.
Proof.
  unfold apply_shipment_withdraw_constraints. destruct withdraw_list as [|w ws].
  - rewrite <- (list_fmap_id shipments) at 1. apply list_fmap_ext.
    intros i r _. rewrite bool_decide_eq_false_2; [done|apply not_elem_of_nil].
  - apply list_fmap_ext. intros i r _.
    rewrite (bool_decide_ext _ (sh_unified_code r ∈ w :: ws)); [done|].
    apply elem_of_list_to_set.
Qed.

Lemma shipment_defecture_as_map (shipments : list shipment_row)
    (defecture_list : list defecture_row) :
  apply_shipment_defecture_constraints shipments defecture_list
  = (fun r => if bool_decide (sh_unified_code r ∈ d_unified_code <$> defecture_list)
              then set_shipment 0 r else r) <$> shipments.
Proof.
  unfold apply_shipment_defecture_constraints. destruct defecture_list as [|d ds].
  - rewrite <- (list_fmap_id shipments) at 1. apply list_fmap_ext.
    intros i r _. rewrite bool_decide_eq_false_2; [done|apply not_elem_of_nil].
  - apply list_fmap_ext. intros i r _.
    rewrite (bool_decide_ext _ (sh_unified_code r ∈ d_unified_code <$> d :: ds)); [done|].
    apply elem_of_list_to_set.
Qed.

Lemma apply_box_as_map (self_box_sizes : gmap string Z) (shipments : list shipment_row)
    (box_sizes : option (gmap string Z)) :
  apply_box_constraints self_box_sizes shipments box_sizes
  = round_to_box (default self_box_sizes box_sizes) <$> shipments.
Proof.
  unfold apply_box_constraints. by destruct shipments.
Qed.

Lemma calculate_shipments_monthly (coverage : Q) (forecast : list forecast_row)
    (stocks : list stock_row) :
  ShipmentCalculator.calculate_shipments coverage (forecast_monthly forecast) stocks
  = ShipmentCalculator.calculate_shipments coverage forecast stocks.
Proof.
  unfold ShipmentCalculator.calculate_shipments. by rewrite forecast_monthly_again.
Qed.

Lemma calculate_shipments_no_stocks (coverage : Q) (forecast : list forecast_row) :
  ShipmentCalculator.calculate_shipments coverage forecast [] = [].
Proof.
  unfold ShipmentCalculator.calculate_shipments.
  induction (forecast_monthly forecast) as [|row l IH]; [reflexivity|].
  rewrite bind_cons, IH. reflexivity.
Qed.

(** The orchestrator's shipment calculation returns one row for every row
    of the shipment calculator, in the same order and with the same date,
    warehouse, product, demand and stocks; aggregating the forecast by month
    beforehand does not change the calculator's rows.  The row of a product
    that is in the withdraw table or has an entry in the defecture table
    ends with 0 boxes and a shipment of 0; every other row ends with at
    least one box, its shipment a whole number of boxes that is at least the
    calculated shipment and exceeds it by less than one box. *)
Theorem shipment_pipeline (coverage : Q) (box_sizes : gmap string Z)
    (stocks : list stock_row) (withdraw : list string)
    (defecture : list defecture_row) (forecast : list forecast_row) :
  map_Forall (fun _ b => (0 < b)%Z) box_sizes ->
  let base := ShipmentCalculator.calculate_shipments coverage forecast stocks in
  let out :=
    Forecaster.calculate_shipments coverage box_sizes stocks withdraw defecture
      forecast in
  let blocked := fun code : string =>
    code ∈ withdraw \/ exists d, d ∈ defecture /\ d_unified_code d = code in
  length out = length base
  /\ forall i r, base !! i = Some r ->
       exists r', out !! i = Some r'
         /\ sh_date r' = sh_date r
         /\ sh_warehouse r' = sh_warehouse r
         /\ sh_unified_code r' = sh_unified_code r
         /\ sh_forecasted_sales r' = sh_forecasted_sales r
         /\ sh_current_stock r' = sh_current_stock r
         /\ sh_required_stock r' = sh_required_stock r
         /\ (blocked (sh_unified_code r) ->
             sh_boxes r' = Some 0%Z /\ (sh_shipment r' == 0)%Q)
         /\ (~ blocked (sh_unified_code r) ->
             let b := resolve_box_size box_sizes (sh_unified_code r) in
             exists n, sh_boxes r' = Some n /\ (1 <= n)%Z
               /\ sh_shipment r' = (inject_Z n * inject_Z b)%Q
               /\ (sh_shipment r <= sh_shipment r')%Q
               /\ (sh_shipment r' < sh_shipment r + inject_Z b)%Q).
Proof.
  intros Hpos base out blocked.
  set (fw := fun r => if bool_decide (sh_unified_code r ∈ withdraw)
                      then set_shipment 0 r else r).
  set (fd := fun r => if bool_decide (sh_unified_code r ∈ d_unified_code <$> defecture)
                      then set_shipment 0 r else r).
  assert (Hout : out = round_to_box box_sizes <$> (fd <$> (fw <$> base))).
  { subst out base. unfold Forecaster.calculate_shipments.
    destruct stocks as [|s0 rest].
    - by rewrite calculate_shipments_no_stocks.
    - rewrite calculate_shipments_monthly.
      rewrite apply_box_as_map. cbn [default]. f_equal.
      transitivity (apply_shipment_defecture_constraints
                      (apply_shipment_withdraw_constraints
                         (ShipmentCalculator.calculate_shipments coverage forecast
                            (s0 :: rest)) withdraw) defecture).
      + destruct withdraw, defecture; reflexivity.
      + by rewrite shipment_defecture_as_map, shipment_withdraw_as_map. }
  split; [by rewrite Hout, !length_fmap|].
  intros i r Hi.
  exists (round_to_box box_sizes (fd (fw r))). split.
  { by rewrite Hout, !list_lookup_fmap, Hi. }
  assert (Hcols : forall x, sh_date (fd (fw x)) = sh_date x
                            /\ sh_warehouse (fd (fw x)) = sh_warehouse x
                            /\ sh_unified_code (fd (fw x)) = sh_unified_code x
                            /\ sh_forecasted_sales (fd (fw x)) = sh_forecasted_sales x
                            /\ sh_current_stock (fd (fw x)) = sh_current_stock x
                            /\ sh_required_stock (fd (fw x)) = sh_required_stock x).
  { intros x. unfold fd, fw.
    destruct (bool_decide (sh_unified_code x ∈ withdraw));
      cbn [set_shipment sh_unified_code];
      destruct (bool_decide (sh_unified_code x ∈ d_unified_code <$> defecture));
      done. }
  destruct (Hcols r) as (Hd & Hw & Hc & Hf & Hcs & Hrs).
  do 6 (split; [done|]).
  assert (Hb : blocked (sh_unified_code r) -> sh_shipment (fd (fw r)) = 0%Q).
  { intros [Hin|[d [Hin Hcode]]]; unfold fd, fw.
    - rewrite (bool_decide_eq_true_2 _ Hin). cbn [set_shipment sh_unified_code].
      by destruct (bool_decide _).
    - assert (Hdef : sh_unified_code r ∈ d_unified_code <$> defecture)
        by (apply list_elem_of_fmap; by exists d).
      destruct (bool_decide (sh_unified_code r ∈ withdraw));
        cbn [set_shipment sh_unified_code];
        by rewrite (bool_decide_eq_true_2 _ Hdef). }
  assert (Hnb : ~ blocked (sh_unified_code r) -> fd (fw r) = r).
  { intros Hn. unfold fd, fw.
    rewrite (bool_decide_eq_false_2 (sh_unified_code r ∈ withdraw)).
    - rewrite bool_decide_eq_false_2; [done|].
      intros [d [Hcode Hin]]%list_elem_of_fmap. apply Hn. right. by exists d.
    - intros Hin. apply Hn. by left. }
  pose proof (round_to_box_tight box_sizes (fd (fw r)) Hpos) as Ht.
  cbv zeta in Ht. destruct Ht as (Hlt & Hle & Hone & Hzero & _).
  split.
  - intros Hbl. apply Hzero. by rewrite (Hb Hbl).
  - intros Hn. rewrite (Hnb Hn) in *.
    destruct Hone as [n [Hn1 Hn2]].
    { apply list_elem_of_lookup_2 in Hi.
      by destruct (calculate_shipments_rows _ _ _ _ Hi) as [? _]. }
    exists n. split; [done|]. split; [done|]. split; [|split; done].
    unfold round_to_box in *. cbn [sh_boxes sh_shipment] in *. congruence.
Qed.

(** [shipment_pipeline] on scenario A with the default box size. *)
Lemma shipment_pipeline_witness :
  length (Forecaster.calculate_shipments 1.5 Scenario.box_sizes Scenario.stocks_A
            [] [] Scenario.forecast_A)
  = length (ShipmentCalculator.calculate_shipments 1.5 Scenario.forecast_A
              Scenario.stocks_A).
Proof.
  refine (proj1 (shipment_pipeline 1.5 Scenario.box_sizes Scenario.stocks_A [] []
                   Scenario.forecast_A _)).
  apply map_Forall_singleton. reflexivity.
Defined.

(** ** The orchestrator: the best forecast of every product *)

Lemma select_best_model_stored (st : store) (product : string) (metric : metric)
    (m : string) :
  select_best_model st product metric = Some m ->
  exists kv, kv ∈ st /\ String.prefix (product +:+ "_") kv.1 = true
             /\ model_name kv.2 = m.
Proof.
  unfold select_best_model.
  destruct (product_results st product) as [|first others] eqn:E; [done|].
  intros [= <-].
  set (best := if bool_decide (metric ∈ [Mae; Rmse; Mape])
               then min_by (fun kv => get kv.2 metric) first others
               else max_by (fun kv => get kv.2 metric) first others).
  assert (Hin : best ∈ first :: others).
  { unfold best. destruct (bool_decide _); [apply min_by_in|apply max_by_in]. }
  rewrite <- E in Hin. apply list_elem_of_filter in Hin as [Hp Hin].
  by exists best.
Qed.

Lemma select_best_forecasts_elem (st : store)
    (forecasts : gmap string (list forecast_row)) (row : forecast_row) (m : string) :
  (row, m) ∈ Forecaster.select_best_forecasts st forecasts <->
  m <> EmptyString
  /\ select_best_model st (f_unified_code row) Mape = Some m
  /\ exists forecast, forecasts !! m = Some forecast /\ row ∈ forecast.
Proof.
  unfold Forecaster.select_best_forecasts.
  rewrite list_elem_of_join. split.
  - intros [l [Hrow Hl]]. apply list_elem_of_omap in Hl as [product [_ Hl]].
    destruct (select_best_model st product Mape) as [best|] eqn:Ebest; [|done].
    destruct (truthy (Some best)) eqn:Etruthy; [|done].
    destruct (forecasts !! best) as [forecast|] eqn:Ef; [|done].
    injection Hl as <-. apply list_elem_of_fmap in Hrow as [r [Heq Hr]].
    injection Heq as -> ->. apply list_elem_of_filter in Hr as [Hc Hr].
    split; [by intros ->|]. split; [by rewrite Hc|]. by exists forecast.
  - intros (Hm & Hbest & forecast & Hf & Hrow).
    exists ((fun r => (r, m)) <$>
              filter (fun r => f_unified_code r = f_unified_code row) forecast).
    split.
    + apply list_elem_of_fmap. exists row. split; [done|].
      by apply list_elem_of_filter.
    + apply list_elem_of_omap. exists (f_unified_code row). split.
      * apply elem_of_elements, elem_of_list_to_set, list_elem_of_fmap.
        exists row. split; [done|]. apply list_elem_of_join. exists forecast.
        split; [done|]. apply list_elem_of_fmap. exists (m, forecast).
        split; [done|]. by apply elem_of_map_to_list.
      * rewrite Hbest. destruct m as [|c m]; [done|]. cbn [truthy].
        by rewrite Hf.
Qed.

Lemma select_best_forecasts_unmatched (st : store)
    (forecasts : gmap string (list forecast_row)) :
  (forall kv, kv ∈ st -> forecasts !! model_name kv.2 = None) ->
  Forecaster.select_best_forecasts st forecasts = [].
Proof.
  intros Hnone.
  destruct (Forecaster.select_best_forecasts st forecasts) as [|[row m] rest] eqn:E;
    [done|]. exfalso.
  assert (Hin : (row, m) ∈ Forecaster.select_best_forecasts st forecasts).
  { rewrite E. apply elem_of_cons. by left. }
  apply select_best_forecasts_elem in Hin as (_ & Hbest & forecast & Hf & _).
  apply select_best_model_stored in Hbest as [kv [Hkv [_ Hname]]].
  specialize (Hnone kv Hkv). rewrite Hname in Hnone. congruence.
Qed.

(** A row is in the table of best forecasts, with the column
    [selected_model] set to [m], exactly when [m] is a non-empty model name,
    the evaluator selects [m] for the product of the row by mape, and the row
    is a row of the forecast stored under the key [m].  So every product has
    the rows of one model only, a product without evaluation has none, and
    the table is empty when no model name of the evaluation store is a key
    of the forecasts. *)
Theorem best_forecast_rows (st : store) (forecasts : gmap string (list forecast_row)) :
  (forall row m,
     (row, m) ∈ Forecaster.select_best_forecasts st forecasts <->
     m <> EmptyString
     /\ select_best_model st (f_unified_code row) Mape = Some m
     /\ exists forecast, forecasts !! m = Some forecast /\ row ∈ forecast)
  /\ ((forall kv, kv ∈ st -> forecasts !! model_name kv.2 = None) ->
      Forecaster.select_best_forecasts st forecasts = []).
Proof.
  split.
  - intros row m. apply select_best_forecasts_elem.
  - apply select_best_forecasts_unmatched.
Qed.

(** ** Model evaluator: the comparison points that count *)

(** The pairs of an actual and a predicted value that [evaluate_model]
    keeps: those at a common index whose two values are finite and whose
    actual value is positive. *)
Definition valid_pairs (y_true y_pred : list float) : list (Q * Q) :=
  (fun tp => (to_Q tp.1, to_Q tp.2))
    <$> filter (fun tp => isfinite tp.1 && isfinite tp.2 && positive tp.1 = true)
          (zip y_true y_pred).

Lemma select_valid (ts ps : list float) :
  let mask := zip_with (fun t p => isfinite t && isfinite p && positive t) ts ps in
  to_Q <$> select mask ts = (valid_pairs ts ps).*1
  /\ to_Q <$> select mask ps = (valid_pairs ts ps).*2
  /\ length (filter (fun b => b = true) mask) = length (valid_pairs ts ps).
Proof.
  cbv zeta. unfold valid_pairs. revert ps.
  induction ts as [|t ts IH]; intros [|p ps]; try done.
  cbn [zip_with select zip]. rewrite !filter_cons.
  destruct (IH ps) as (IH1 & IH2 & IH3).
  destruct (isfinite t && isfinite p && positive t) eqn:E.
  - rewrite decide_True by done. rewrite decide_True by done.
    cbn [fmap list_fmap length fst snd]. cbn [fmap] in IH1, IH2.
    by rewrite IH1, IH2, IH3.
  - rewrite !decide_False by (cbn; congruence). done.
Qed.

Lemma valid_pairs_take (y_true y_pred : list float) :
  valid_pairs (take (Nat.min (length y_true) (length y_pred)) y_true)
              (take (Nat.min (length y_true) (length y_pred)) y_pred)
  = valid_pairs y_true y_pred.
Proof.
  unfold valid_pairs. by rewrite zip_with_take_both' by lia.
Qed.

Lemma valid_pairs_elem (y_true y_pred : list float) (a b : Q) :
  (a, b) ∈ valid_pairs y_true y_pred ->
  (0 < a)%Q
  /\ exists i, y_true !! i = Some (Finite a) /\ y_pred !! i = Some (Finite b).
Proof.
  unfold valid_pairs. intros [[t p] [Heq Hin]]%list_elem_of_fmap.
  apply list_elem_of_filter in Hin as [Hv Hin]. cbn in Hv, Heq.
  apply valid_point in Hv as (a' & b' & -> & -> & Ha). cbn in Heq.
  injection Heq as -> ->. split; [done|].
  apply elem_of_lookup_zip_with_1 in Hin as (i & x & y & Hxy & Hx & Hy).
  injection Hxy as <- <-. by exists i.
Qed.

(** The metrics, computed from the comparison points that count. *)
Definition scores_of (np_sqrt : Q -> Q) (pairs : list (Q * Q)) : metrics :=
  let errors := fmap (fun p => p.1 - p.2)%Q pairs in
  let ss_res := Qsum (fmap (fun e => e * e)%Q errors) in
  let mu := mean pairs.*1 in
  let ss_tot := Qsum (fmap (fun t => (t - mu) * (t - mu))%Q pairs.*1) in
  Metrics (Finite (mean (fmap Qabs errors)))
          (Finite (np_sqrt (mean (fmap (fun e => e * e)%Q errors))))
          (Finite (mean (fmap Qabs (fmap (fun p => (p.1 - p.2) / p.1)%Q pairs)) * 100))
          (if Qltb 0 ss_tot then Finite (1 - ss_res / ss_tot) else NegInf).

Lemma evaluate_model_valid_pairs (np_sqrt : Q -> Q) (st : store)
    (y_true y_pred : list float) (model unified : string) :
  evaluate_model np_sqrt st y_true y_pred model unified
  = match valid_pairs y_true y_pred with
    | [] => (Unscored worst_case, st)
    | _ :: _ =>
        let r := Result (scores_of np_sqrt (valid_pairs y_true y_pred)) model unified in
        (Scored r, dict_set (store_key unified model) r st)
    end.
Proof.
  unfold evaluate_model.
  destruct ((length y_true =? 0)%nat || (length y_pred =? 0)%nat) eqn:Elen.
  { assert (valid_pairs y_true y_pred = []) as ->; [|done].
    apply orb_true_iff in Elen as [E|E]; apply Nat.eqb_eq, nil_length_inv in E;
      subst; [done|]. by destruct y_true. }
  set (n := Nat.min (length y_true) (length y_pred)).
  destruct (select_valid (take n y_true) (take n y_pred)) as (H1 & H2 & H3).
  unfold n in H1, H2, H3. rewrite valid_pairs_take in H1, H2, H3. fold n in H1, H2, H3.
  rewrite H1, H2, H3.
  destruct (valid_pairs y_true y_pred) as [|p0 pairs] eqn:E; [done|].
  cbn [length Nat.eqb]. cbv zeta. unfold scores_of.
  rewrite zip_with_fst_snd.
  assert (Hdiv : zip_with Qdiv (uncurry Qminus <$> p0 :: pairs) (p0 :: pairs).*1
                 = (fun p => (p.1 - p.2) / p.1)%Q <$> p0 :: pairs).
  { generalize (p0 :: pairs). intros l. induction l as [|[a b] l IH]; [done|].
    cbn [fmap list_fmap zip_with uncurry fst snd]. cbn [fmap] in IH. by rewrite IH. }
  rewrite Hdiv.
  assert (Herr : uncurry Qminus <$> p0 :: pairs
                 = (fun p => p.1 - p.2)%Q <$> p0 :: pairs).
  { apply list_fmap_ext. by intros i [a b] _. }
  rewrite Herr. reflexivity.
Qed.

Lemma Qsum_nonneg (l : list Q) : (forall x, x ∈ l -> (0 <= x)%Q) -> (0 <= Qsum l)%Q.
Proof.
  induction l as [|x l IH]; intros H.
  - rewrite Qsum_nil. lra.
  - rewrite Qsum_cons.
    assert (0 <= x)%Q by (apply H, elem_of_cons; by left).
    assert (0 <= Qsum l)%Q by (apply IH; intros y Hy; apply H, elem_of_cons; by right).
    lra.
Qed.

Lemma Qsum_zero (l : list Q) : (forall x, x ∈ l -> (x == 0)%Q) -> (Qsum l == 0)%Q.
Proof.
  induction l as [|x l IH]; intros H.
  - by rewrite Qsum_nil.
  - rewrite Qsum_cons, (H x), IH; [ring| |apply elem_of_cons; by left].
    intros y Hy. apply H, elem_of_cons. by right.
Qed.


Lemma mean_nonneg (l : list Q) : (forall x, x ∈ l -> (0 <= x)%Q) -> (0 <= mean l)%Q.
Proof.
  intros H. unfold mean. destruct l as [|x l]; [by vm_compute|].
  apply Qle_shift_div_l.
  - rewrite <- (Zlt_Qlt 0). cbn [length]. lia.
  - rewrite Qmult_0_l. by apply Qsum_nonneg.
Qed.

Lemma mean_zero (l : list Q) : (forall x, x ∈ l -> (x == 0)%Q) -> (mean l == 0)%Q.
Proof.
  intros H. unfold mean. rewrite (Qsum_zero l H). unfold Qdiv. ring.
Qed.



(** A model whose prediction equals the actual value at every comparison
    point that counts scores mae = 0 and mape = 0, its rmse is the root of
    0, and its r2 is 1 or minus infinity. *)
Theorem exact_predictions_score_zero (np_sqrt : Q -> Q) (st : store)
    (y_true y_pred : list float) (model unified : string) :
  (forall i a b, y_true !! i = Some (Finite a) -> y_pred !! i = Some (Finite b) ->
     (0 < a)%Q -> (a == b)%Q) ->
  match (evaluate_model np_sqrt st y_true y_pred model unified).1 with
  | Unscored m => m = worst_case
  | Scored r =>
      (exists a, mae (scores r) = Finite a /\ (a == 0)%Q)
      /\ (exists x, rmse (scores r) = Finite (np_sqrt x) /\ (x == 0)%Q)
      /\ (exists p, mape (scores r) = Finite p /\ (p == 0)%Q)
      /\ (r2 (scores r) = NegInf \/ exists v, r2 (scores r) = Finite v /\ (v == 1)%Q)
  end.
Proof.
  intros Hexact. rewrite evaluate_model_valid_pairs.
  destruct (valid_pairs y_true y_pred) as [|p0 pairs] eqn:Epairs; [done|].
  cbn [fst scores]. unfold scores_of. cbn [mae rmse mape r2].
  set (l := p0 :: pairs) in *.
  assert (Herr : forall p, p ∈ l -> (p.1 - p.2 == 0)%Q).
  { intros [a b] Hp. rewrite <- Epairs in Hp.
    apply valid_pairs_elem in Hp as (Ha & i & Ht & Hp). cbn.
    rewrite (Hexact i a b Ht Hp Ha). ring. }
  split; [|split; [|split]].
  - eexists. split; [reflexivity|]. apply mean_zero.
    intros x [e [-> [p [-> Hp]]%list_elem_of_fmap]]%list_elem_of_fmap.
    by rewrite (Herr p Hp).
  - eexists. split; [reflexivity|]. apply mean_zero.
    intros x [e [-> [p [-> Hp]]%list_elem_of_fmap]]%list_elem_of_fmap.
    rewrite (Herr p Hp). ring.
  - eexists. split; [reflexivity|].
    rewrite mean_zero; [ring|].
    intros x [e [-> [p [-> Hp]]%list_elem_of_fmap]]%list_elem_of_fmap.
    rewrite (Herr p Hp). unfold Qdiv. rewrite Qmult_0_l. reflexivity.
  - destruct (Qltb 0 _) eqn:E; [|by left]. right. eexists. split; [reflexivity|].
    rewrite (Qsum_zero ((fun e => e * e)%Q <$> _)).
    + unfold Qdiv. ring.
    + intros x [e [-> [p [-> Hp]]%list_elem_of_fmap]]%list_elem_of_fmap.
      rewrite (Herr p Hp). ring.
Qed.

(** [exact_predictions_score_zero] on a prediction that is exact at the two
    valid points and differs where the actual value is 0. *)
Lemma exact_predictions_score_zero_witness :
  exists r,
    (evaluate_model (fun q => q) [] [Finite 2; Finite 0; Finite 4]
       [Finite 2; Finite 9; Finite 4] "Prophet" "P").1 = Scored r
    /\ exists a, mae (scores r) = Finite a /\ (a == 0)%Q.
Proof.
  pose proof (exact_predictions_score_zero (fun q => q) [] [Finite 2; Finite 0; Finite 4]
                [Finite 2; Finite 9; Finite 4] "Prophet" "P") as H.
  destruct (evaluate_model _ _ _ _ _ _).1 as [m|r] eqn:E; [by vm_compute in E|].
  exists r. split; [reflexivity|]. apply H.
  intros [|[|[|i]]] a b Ht Hp Ha; cbn in Ht, Hp; try done.
  - injection Ht as <-. by injection Hp as <-.
  - injection Ht as <-. lra.
  - injection Ht as <-. by injection Hp as <-.
Defined.

Lemma zip_app_longer {A B : Type} (l : list A) (k extra : list B) :
  (length l <= length k)%nat -> zip l (k ++ extra) = zip l k.
Proof.
  revert k. induction l as [|x l IH]; intros [|y k] Hlen; cbn in *; try done; try lia.
  f_equal. apply IH. lia.
Qed.

Lemma zip_app_shorter {A B : Type} (l extra : list A) (k : list B) :
  (length k <= length l)%nat -> zip (l ++ extra) k = zip l k.
Proof.
  revert k. induction l as [|x l IH]; intros [|y k] Hlen; cbn in *; try done; try lia.
  - by destruct extra.
  - f_equal. apply IH. lia.
Qed.

(** The two sequences are compared up to the shorter length only: what
    the longer sequence holds beyond the end of the other changes neither the
    returned metrics nor the store. *)
Theorem evaluation_truncates (np_sqrt : Q -> Q) (st : store)
    (y_true y_pred extra : list float) (model unified : string) :
  ((length y_true <= length y_pred)%nat ->
   evaluate_model np_sqrt st y_true (y_pred ++ extra) model unified
   = evaluate_model np_sqrt st y_true y_pred model unified)
  /\ ((length y_pred <= length y_true)%nat ->
      evaluate_model np_sqrt st (y_true ++ extra) y_pred model unified
      = evaluate_model np_sqrt st y_true y_pred model unified).
Proof.
  split; intros Hlen; rewrite !evaluate_model_valid_pairs; unfold valid_pairs.
  - by rewrite zip_app_longer.
  - by rewrite zip_app_shorter.
Qed.

(** ** Model evaluator: the store and its summaries *)

Import Evaluation.

Lemma dict_set_fresh (key : string) (value : result) (d : store) :
  key ∉ d.*1 -> dict_set key value d = d ++ [(key, value)].
Proof.
  induction d as [|[k v] d IH]; [done|]. cbn [dict_set fmap list_fmap fst app].
  intros Hk. destruct (String.eqb k key) eqn:E.
  - apply String.eqb_eq in E. exfalso. apply Hk, elem_of_cons. by left.
  - rewrite IH; [done|]. intros Hin. apply Hk, elem_of_cons. by right.
Qed.

Lemma dict_set_keys (key : string) (value : result) (d : store) :
  key ∈ d.*1 -> (dict_set key value d).*1 = d.*1.
Proof.
  induction d as [|[k v] d IH]; [by intros ?%elem_of_nil|].
  cbn [dict_set fmap list_fmap fst]. intros Hk.
  destruct (String.eqb k key) eqn:E; [done|].
  cbn [fmap list_fmap fst]. f_equal. apply IH.
  apply elem_of_cons in Hk as [->|Hk]; [|done].
  by rewrite String.eqb_refl in E.
Qed.

Lemma dict_set_other (key : string) (value : result) (d : store)
    (i : nat) (k : string) (r : result) :
  d !! i = Some (k, r) -> k <> key -> dict_set key value d !! i = Some (k, r).
Proof.
  revert i. induction d as [|[k0 v0] d IH]; intros i Hi Hne; [done|].
  cbn [dict_set]. destruct (String.eqb k0 key) eqn:E.
  - destruct i as [|i]; [|done]. cbn in Hi. injection Hi as -> ->.
    apply String.eqb_eq in E. done.
  - destruct i as [|i]; [done|]. cbn. by apply IH.
Qed.

Lemma dict_get_elem (key : string) (r : result) (d : store) :
  NoDup d.*1 -> (dict_get key d = Some r <-> (key, r) ∈ d).
Proof.
  induction d as [|[k v] d IH]; cbn [dict_get fmap list_fmap fst].
  - intros _. split; [done|by intros ?%elem_of_nil].
  - intros [Hk Hnd]%NoDup_cons. destruct (String.eqb k key) eqn:E.
    + apply String.eqb_eq in E. subst k. split.
      * intros [= ->]. apply elem_of_cons. by left.
      * intros [[= ->]|Hin]%elem_of_cons; [done|].
        exfalso. apply Hk. apply list_elem_of_fmap. by exists (key, r).
    + rewrite (IH Hnd). apply String.eqb_neq in E. split.
      * intros Hin. apply elem_of_cons. by right.
      * intros [[= -> ->]|Hin]%elem_of_cons; done.
Qed.

(** An evaluation touches one key of the store only: every other entry
    keeps its place and its result, an entry of the key itself is replaced
    in place, and a new key is appended at the end.  So the keys of the store
    stay distinct, and the summary of all evaluations gains at most one row,
    and none when the product was evaluated with the model before. *)
Theorem evaluation_store_keys (np_sqrt : Q -> Q) (st : store)
    (y_true y_pred : list float) (model unified : string) :
  let st' := (evaluate_model np_sqrt st y_true y_pred model unified).2 in
  let key := store_key unified model in
  (forall i k r, st !! i = Some (k, r) -> k <> key -> st' !! i = Some (k, r))
  /\ (key ∈ st.*1 -> st'.*1 = st.*1)
  /\ (key ∉ st.*1 -> st' = st \/ exists r, st' = st ++ [(key, r)])
  /\ (NoDup st.*1 -> NoDup st'.*1)
  /\ (length (get_evaluation_summary st) <= length (get_evaluation_summary st')
      <= S (length (get_evaluation_summary st)))%nat.
Proof.
  intros st' key. subst st'.
  destruct (evaluate_model_cases np_sqrt st y_true y_pred model unified)
    as [[_ ->]|[_ (r & _ & _ & ->)]]; cbn [snd]; fold key.
  { split; [done|]. split; [done|]. split; [by left|]. split; [done|]. lia. }
  split; [|split; [|split; [|split]]].
  - intros i k r' Hi Hne. by apply dict_set_other.
  - apply dict_set_keys.
  - intros Hk. right. exists r. by apply dict_set_fresh.
  - intros Hnd. destruct (decide (key ∈ st.*1)) as [Hk|Hk].
    + by rewrite dict_set_keys.
    + rewrite dict_set_fresh, fmap_app by done. apply NoDup_app. split; [done|].
      split; [|apply NoDup_singleton].
      intros k Hin ->%list_elem_of_singleton. done.
  - unfold get_evaluation_summary. rewrite !length_fmap.
    destruct (decide (key ∈ st.*1)) as [Hk|Hk].
    + pose proof (dict_set_keys key r st Hk) as H.
      apply (f_equal length) in H. rewrite !length_fmap in H. lia.
    + rewrite dict_set_fresh, length_app by done. cbn. lia.
Qed.

(** A store as the evaluator builds it from product keys without underscore
    and non-empty model names: distinct keys, each the key of the product
    and the model of its result. *)
Definition well_keyed (st : store) : Prop :=
  NoDup st.*1
  /\ forall k r, (k, r) ∈ st ->
       k = store_key (unified_code r) (model_name r)
       /\ contains "_" (unified_code r) = false
       /\ model_name r <> EmptyString.

Lemma well_keyed_evaluate (np_sqrt : Q -> Q) (st : store)
    (y_true y_pred : list float) (model unified : string) :
  well_keyed st -> contains "_" unified = false -> model <> EmptyString ->
  well_keyed (evaluate_model np_sqrt st y_true y_pred model unified).2.
Proof.
  intros [Hnd Hwf] Hu Hm.
  destruct (evaluate_model_cases np_sqrt st y_true y_pred model unified)
    as [[_ ->]|[_ (r & Hrm & Hru & ->)]]; cbn [snd]; [done|].
  set (key := store_key unified model).
  assert (Hin : forall k r', (k, r') ∈ dict_set key r st ->
                             (k, r') ∈ st \/ (k, r') = (key, r)).
  { clear. induction st as [|[k0 v0] st IH]; intros k r'; cbn [dict_set].
    - intros ->%list_elem_of_singleton. by right.
    - destruct (String.eqb k0 key) eqn:E.
      + apply String.eqb_eq in E. subst k0.
        intros [->|Hin]%elem_of_cons; [by right|].
        left. apply elem_of_cons. by right.
      + intros [->|Hin]%elem_of_cons; [left; apply elem_of_cons; by left|].
        destruct (IH _ _ Hin) as [?|?]; [|by right].
        left. apply elem_of_cons. by right. }
  split.
  - destruct (decide (key ∈ st.*1)) as [Hk|Hk].
    + by rewrite dict_set_keys.
    + rewrite dict_set_fresh, fmap_app by done. apply NoDup_app. split; [done|].
      split; [|apply NoDup_singleton].
      intros k Hin' ->%list_elem_of_singleton. done.
  - intros k r' [Hold|[= -> ->]]%Hin; [by apply Hwf|].
    by rewrite Hrm, Hru.
Qed.

Lemma key_product_store_key (unified model : string) :
  contains "_" unified = false -> key_product (store_key unified model) = unified.
Proof.
  intros Hu. unfold key_product, store_key.
  change ("_" +:+ model)%string with (String "_" model).
  by rewrite split_on_append.
Qed.

Lemma store_key_inj (u1 u2 m1 m2 : string) :
  contains "_" u1 = false -> contains "_" u2 = false ->
  store_key u1 m1 = store_key u2 m2 -> u1 = u2 /\ m1 = m2.
Proof.
  intros H1 H2 Heq.
  assert (u1 = u2) as <-.
  { rewrite <- (key_product_store_key u1 m1), <- (key_product_store_key u2 m2) by done.
    by rewrite Heq. }
  split; [done|]. unfold store_key in Heq.
  assert (Hb : String.eqb (u1 +:+ "_" +:+ m1) (u1 +:+ "_" +:+ m2) = true)
    by (rewrite Heq; apply String.eqb_refl).
  rewrite eqb_append in Hb. change ("_" +:+ m1)%string with (String "_" m1) in Hb.
  change ("_" +:+ m2)%string with (String "_" m2) in Hb.
  cbn in Hb. by apply String.eqb_eq in Hb.
Qed.

(** The entry that [select_best_model] picks for a product by mape. *)
Lemma select_best_model_entry (st : store) (product m : string) :
  select_best_model st product Mape = Some m ->
  exists k r, (k, r) ∈ st /\ String.prefix (product +:+ "_") k = true
              /\ model_name r = m
              /\ forall k' r', (k', r') ∈ st ->
                   String.prefix (product +:+ "_") k' = true ->
                   float_ltb (mape (scores r')) (mape (scores r)) = false.
Proof.
  unfold select_best_model.
  destruct (product_results st product) as [|first others] eqn:E; [done|].
  rewrite bool_decide_eq_true_2 by set_solver.
  intros [= <-].
  set (best := min_by (fun kv => get kv.2 Mape) first others).
  assert (Hin : best ∈ product_results st product) by (rewrite E; apply min_by_in).
  apply list_elem_of_filter in Hin as [Hp Hin].
  exists best.1, best.2. split; [by destruct best|]. split; [done|]. split; [done|].
  intros k' r' Hin' Hp'.
  assert (Hx : (k', r') ∈ first :: others).
  { rewrite <- E. by apply list_elem_of_filter. }
  exact (min_by_least (fun kv => get kv.2 Mape) first others (k', r') Hx).
Qed.

(** On a store built from product keys without underscore and non-empty
    model names, the table of best models has a row exactly for every stored
    result that the evaluator selects for its product by mape, with the
    column [best_model] set to the model name of the result.  Every product
    of the store has one such row, and no result of the product has a mape
    below that of the row. *)
Theorem best_models_summary_rows (st : store) :
  well_keyed st ->
  (forall r best_model,
     (r, best_model) ∈ get_best_models_summary st <->
     (store_key (unified_code r) (model_name r), r) ∈ st
     /\ best_model = model_name r
     /\ select_best_model st (unified_code r) Mape = Some (model_name r))
  /\ (forall k r, (k, r) ∈ st ->
        exists r', (r', model_name r') ∈ get_best_models_summary st
                   /\ unified_code r' = unified_code r)
  /\ (forall r1 r2 m1 m2,
        (r1, m1) ∈ get_best_models_summary st ->
        (r2, m2) ∈ get_best_models_summary st ->
        unified_code r1 = unified_code r2 -> r1 = r2)
  /\ (forall r best_model k' r',
        (r, best_model) ∈ get_best_models_summary st ->
        (k', r') ∈ st -> unified_code r' = unified_code r ->
        float_ltb (mape (scores r')) (mape (scores r)) = false).
Proof.
  intros [Hnd Hwf].
  assert (Hrows : forall r best_model,
     (r, best_model) ∈ get_best_models_summary st <->
     (store_key (unified_code r) (model_name r), r) ∈ st
     /\ best_model = model_name r
     /\ select_best_model st (unified_code r) Mape = Some (model_name r)).
  { intros r bm. unfold get_best_models_summary. rewrite list_elem_of_omap. split.
    - intros [p [Hp Hrow]].
      apply elem_of_elements, elem_of_list_to_set, list_elem_of_fmap in Hp
        as [[k0 r0] [-> Hin0]].
      destruct (Hwf _ _ Hin0) as (Hk0 & Hu0 & _). cbn [fst] in Hrow |- *.
      rewrite Hk0, key_product_store_key in Hrow by done.
      destruct (select_best_model st (unified_code r0) Mape) as [best|] eqn:Ebest;
        [|done].
      destruct (truthy (Some best)); [|done].
      destruct (dict_get _ st) as [r1|] eqn:Eget; [|done].
      injection Hrow as -> ->. apply dict_get_elem in Eget; [|done].
      destruct (Hwf _ _ Eget) as (Hk & Hu & _).
      apply store_key_inj in Hk as [Hc Hm]; [|done|done].
      rewrite <- Hc, <- Hm. by rewrite Ebest.
    - intros (Hin & -> & Hbest). exists (unified_code r).
      destruct (Hwf _ _ Hin) as (_ & Hu & Hm). split.
      + apply elem_of_elements, elem_of_list_to_set, list_elem_of_fmap.
        exists (store_key (unified_code r) (model_name r), r). split; [|done].
        cbn [fst]. by rewrite key_product_store_key.
      + rewrite Hbest. destruct (model_name r) as [|c m] eqn:En; [done|].
        cbn [truthy]. apply (dict_get_elem _ _ _ Hnd) in Hin. by rewrite Hin. }
  assert (Hbest : forall p k r, (k, r) ∈ st -> unified_code r = p ->
            exists kb rb, (kb, rb) ∈ st /\ unified_code rb = p
              /\ select_best_model st p Mape = Some (model_name rb)
              /\ forall k' r', (k', r') ∈ st -> unified_code r' = p ->
                   float_ltb (mape (scores r')) (mape (scores rb)) = false).
  { intros p k r Hin Hp. destruct (Hwf _ _ Hin) as (Hk & Hu & _).
    destruct (select_best_model st p Mape) as [m|] eqn:Esel.
    - destruct (select_best_model_entry _ _ _ Esel) as (kb & rb & Hinb & Hpre & Hm & Hmin).
      destruct (Hwf _ _ Hinb) as (Hkb & Hub & _).
      assert (Hpb : p = unified_code rb).
      { rewrite Hkb in Hpre. apply prefix_of_other_key in Hpre; [done| |done].
        by rewrite <- Hp. }
      exists kb, rb. split; [done|]. split; [done|]. split; [by rewrite Hm|].
      intros k' r' Hin' Hp'. apply (Hmin k' r' Hin').
      destruct (Hwf _ _ Hin') as (-> & _ & _). rewrite Hp'. apply prefix_store_key.
    - exfalso. unfold select_best_model in Esel.
      destruct (product_results st p) as [|first others] eqn:E; [|done].
      assert (Hx : (k, r) ∈ product_results st p).
      { apply list_elem_of_filter. split; [|done]. cbn [fst].
        rewrite Hk, Hp. apply prefix_store_key. }
      rewrite E in Hx. by apply elem_of_nil in Hx. }
  assert (Hsame : forall r best_model, (r, best_model) ∈ get_best_models_summary st ->
            forall kb rb, (kb, rb) ∈ st -> unified_code rb = unified_code r ->
              select_best_model st (unified_code r) Mape = Some (model_name rb) ->
              rb = r).
  { intros r bm Hrow kb rb Hinb Hub Hsel.
    apply Hrows in Hrow as (Hin & _ & Hsel').
    rewrite Hsel in Hsel'. injection Hsel' as Hm.
    destruct (Hwf _ _ Hinb) as (Hkb & _ & _). rewrite Hub, Hm in Hkb. subst kb.
    apply (dict_get_elem _ _ _ Hnd) in Hin, Hinb. congruence. }
  split; [exact Hrows|]. split; [|split].
  - intros k r Hin.
    destruct (Hbest (unified_code r) k r Hin eq_refl) as (kb & rb & Hinb & Hub & Hsel & _).
    exists rb. split; [|done]. apply Hrows.
    destruct (Hwf _ _ Hinb) as (Hkb & _ & _). rewrite <- Hkb. split; [done|].
    split; [done|]. by rewrite Hub.
  - intros r1 r2 m1 m2 H1 H2 Hu.
    pose proof H2 as H2'. apply Hrows in H2' as (Hin2 & _ & Hsel2).
    symmetry. apply (Hsame r1 m1 H1 _ r2 Hin2); [done|]. by rewrite Hu.
  - intros r bm k' r' Hrow Hin' Hu.
    pose proof Hrow as Hrow'. apply Hrows in Hrow' as (Hin & _ & Hsel).
    destruct (Hbest (unified_code r) _ r Hin eq_refl)
      as (kb & rb & Hinb & Hub & Hselb & Hmin).
    assert (rb = r) as <- by (by apply (Hsame r bm Hrow kb rb)).
    by apply (Hmin k' r' Hin').
Qed.

(** [best_models_summary_rows] on the store of two evaluations of the
    product ["P"]: the table of best models has a row for the product. *)
Lemma best_models_summary_rows_witness :
  exists r,
    (r, model_name r)
    ∈ get_best_models_summary
        (evaluate_model (fun q => q)
           (evaluate_model (fun q => q) [] [Finite 1; Finite 2] [Finite 1; Finite 3]
              "Prophet" "P").2
           [Finite 1; Finite 2] [Finite 1; Finite 2] "ARIMA" "P").2
    /\ unified_code r = "P"%string.
Proof.
  set (st := (evaluate_model (fun q => q)
                (evaluate_model (fun q => q) [] [Finite 1; Finite 2]
                   [Finite 1; Finite 3] "Prophet" "P").2
                [Finite 1; Finite 2] [Finite 1; Finite 2] "ARIMA" "P").2).
  assert (Hwf : well_keyed st).
  { apply well_keyed_evaluate; [|done|done].
    apply well_keyed_evaluate; [|done|done].
    split; [apply NoDup_nil_2|]. by intros k r ?%elem_of_nil. }
  assert (Hfirst : exists k r, st !! 0%nat = Some (k, r) /\ unified_code r = "P"%string).
  { vm_compute. eexists _, _. split; reflexivity. }
  destruct Hfirst as (k & r & Hk & Hu).
  apply list_elem_of_lookup_2 in Hk.
  destruct (proj1 (proj2 (best_models_summary_rows st Hwf)) k r Hk) as [r' [Hrow Hu']].
  exists r'. split; [exact Hrow|]. by rewrite Hu'.
Defined.

(** ** Model evaluator: cross-validation *)

Lemma iloc_partition {A : Type} (k : Z) (data : list A) :
  iloc_to k data ++ iloc_from k data = data.
Proof.
  unfold iloc_to, iloc_from. destruct (0 <=? k)%Z; apply take_drop.
Qed.

(** Cross-validation splits the history in time order, without overlap and
    without loss, at the index that [int] makes of the product of the number
    of rows and the training share, whatever the multiplication of the
    doubles rounds to: the rows before the index are the training data, the
    remaining rows the hold-out.  With at least 10 rows and a hold-out that
    is not empty, the model is fitted on the training data, asked for as
    many periods as the hold-out has rows, and its predictions are scored
    against the quantities of the hold-out only.  With fewer than 10 rows,
    with an empty hold-out (an index at or past the number of rows), or when
    the model fails, the result is the worst case and the store is left as
    it was. *)
Theorem cross_validate_split (np_sqrt : Q -> Q) (float_mul : Q -> Q -> Q)
    (st : store) (data : list forecast_row) (model : model) (unified : string)
    (train_size : Q) :
  let n := length data in
  let split_idx := py_int (float_mul (inject_Z (Z.of_nat n)) train_size) in
  let train_data := iloc_to split_idx data in
  let test_data := iloc_from split_idx data in
  let res := cross_validate np_sqrt float_mul st data model unified train_size in
  train_data ++ test_data = data
  /\ ((0 <= split_idx < Z.of_nat n)%Z ->
      train_data = take (Z.to_nat split_idx) data
      /\ test_data = drop (Z.to_nat split_idx) data
      /\ length test_data = (n - Z.to_nat split_idx)%nat
      /\ test_data <> [])
  /\ ((Z.of_nat n <= split_idx)%Z -> test_data = [])
  /\ ((n < 10)%nat -> res = (Unscored worst_case, st))
  /\ (test_data = [] -> res = (Unscored worst_case, st))
  /\ ((10 <= n)%nat -> test_data <> [] ->
      res = match fit_predict model train_data unified (length test_data) with
            | None => (Unscored worst_case, st)
            | Some y_pred =>
                evaluate_model np_sqrt st
                  ((fun r => Finite (f_quantity r)) <$> test_data) y_pred
                  (get_model_name model) unified
            end).
Proof.
  intros n split_idx train_data test_data res.
  split; [apply iloc_partition|].
  split; [|split; [|split; [|split]]].
  - intros [H0 Hn]. unfold train_data, test_data, iloc_to, iloc_from.
    rewrite (proj2 (Z.leb_le 0 split_idx) H0).
    split; [done|]. split; [done|].
    assert (Hlen : length (drop (Z.to_nat split_idx) data) = (n - Z.to_nat split_idx)%nat)
      by apply length_drop.
    split; [exact Hlen|].
    intros Hnil. rewrite Hnil in Hlen. cbn [length] in Hlen. lia.
  - intros Hn. unfold test_data, iloc_from.
    rewrite (proj2 (Z.leb_le 0 split_idx)) by lia.
    apply drop_ge. fold n. lia.
  - intros Hn. subst res. unfold cross_validate. fold n.
    by rewrite (proj2 (Nat.ltb_lt n 10) Hn).
  - intros Hnil. subst res. unfold cross_validate. fold n split_idx test_data.
    rewrite Hnil. cbn [length Nat.eqb]. by destruct (n <? 10)%nat.
  - intros Hn Hne. subst res. unfold cross_validate.
    fold n split_idx train_data test_data.
    rewrite (proj2 (Nat.ltb_ge n 10) Hn).
    destruct test_data as [|r0 rest] eqn:E; [done|]. reflexivity.
Qed.

(** ** Forecast ledger: loading a snapshot *)

Import Ledger.

Lemma latest_file_in (mtime : string -> Z) (first : string * file) (others : storage) :
  latest_file mtime first others ∈ first :: others
  /\ forall f, f ∈ first :: others ->
       (mtime f.1 <= mtime (latest_file mtime first others).1)%Z.
Proof.
  unfold latest_file. revert first.
  induction others as [|y others IH]; intros first; cbn [fold_left].
  - split; [apply elem_of_cons; by left|].
    intros f [->|Hf]%elem_of_cons; [lia|by apply elem_of_nil in Hf].
  - destruct (IH (if (mtime first.1 <? mtime y.1)%Z then y else first)) as [Hin Hmax].
    split.
    + apply elem_of_cons in Hin as [->|Hin].
      * destruct (_ <? _)%Z; [apply elem_of_cons; right|]; apply elem_of_cons; by left.
      * apply elem_of_cons. right. apply elem_of_cons. by right.
    + intros f Hf.
      assert (Hbest : (mtime first.1 <= mtime (if (mtime first.1 <? mtime y.1)%Z
                                               then y else first).1
                       /\ mtime y.1 <= mtime (if (mtime first.1 <? mtime y.1)%Z
                                              then y else first).1)%Z).
      { destruct (mtime first.1 <? mtime y.1)%Z eqn:E.
        - apply Z.ltb_lt in E. lia.
        - apply Z.ltb_ge in E. lia. }
      pose proof (Hmax _ (proj2 (elem_of_cons _ _ _) (or_introl eq_refl))) as H0.
      apply elem_of_cons in Hf as [->|Hf]; [lia|].
      apply elem_of_cons in Hf as [->|Hf]; [lia|].
      apply Hmax, elem_of_cons. by right.
Qed.

Lemma lookup_file_elem (name : string) (content : file) (dir : storage) :
  NoDup dir.*1 -> (name, content) ∈ dir -> lookup_file name dir = Some content.
Proof.
  unfold lookup_file. induction dir as [|[n c] dir IH]; [by intros _ ?%elem_of_nil|].
  cbn [fmap list_fmap fst List.find]. intros [Hn Hnd]%NoDup_cons Hin.
  destruct (String.eqb n name) eqn:E.
  - apply String.eqb_eq in E. subst n.
    apply elem_of_cons in Hin as [[= ->]|Hin]; [done|].
    exfalso. apply Hn. apply list_elem_of_fmap. by exists (name, content).
  - apply elem_of_cons in Hin as [[= -> ->]|Hin].
    + by rewrite String.eqb_refl in E.
    + by apply IH.
Qed.

(** Without a timestamp, [load_forecast] returns the content of a file
    whose name matches [marketplace_model_*.csv] and whose modification time
    no matching file exceeds; when no file matches it returns an empty
    table, and when the file is no table it raises the error of the reader.
    The empty string as timestamp stands for no timestamp. *)
Theorem load_latest_forecast (mtime : string -> Z) (dir : storage)
    (marketplace model : string) :
  NoDup dir.*1 ->
  let pattern := marketplace +:+ "_" +:+ model +:+ "_*.csv" in
  let loaded := load_forecast mtime dir marketplace model None in
  ((forall f, f ∈ dir -> fnmatch pattern f.1 = false) -> loaded = Frame [])
  /\ ((exists f, f ∈ dir /\ fnmatch pattern f.1 = true) ->
      exists name content,
        (name, content) ∈ dir /\ fnmatch pattern name = true
        /\ (forall f, f ∈ dir -> fnmatch pattern f.1 = true ->
              (mtime f.1 <= mtime name)%Z)
        /\ loaded = match content with
                    | Table rows => Frame rows
                    | Document => ReadError
                    end)
  /\ load_forecast mtime dir marketplace model (Some EmptyString) = loaded.
Proof.
  intros Hnd pattern loaded. subst loaded. unfold load_forecast. cbn [truthy].
  fold pattern. split; [|split; [|done]].
  - intros Hnone. rewrite filter_none; [done|].
    intros f Hf. by rewrite (Hnone f Hf).
  - intros [f0 [Hf0 Hm0]].
    destruct (filter (fun f => fnmatch pattern f.1 = true) dir)
      as [|first others] eqn:E.
    { assert (Hx : f0 ∈ filter (fun f => fnmatch pattern f.1 = true) dir)
        by (by apply list_elem_of_filter).
      rewrite E in Hx. by apply elem_of_nil in Hx. }
    destruct (latest_file_in mtime first others) as [Hin Hmax].
    rewrite <- E in Hin. apply list_elem_of_filter in Hin as [Hmatch Hin].
    destruct (latest_file mtime first others) as [name content] eqn:El.
    exists name, content. split; [done|]. split; [done|]. split.
    + intros f Hf Hm. apply (Hmax f). rewrite <- E. by apply list_elem_of_filter.
    + cbn [fst]. rewrite (lookup_file_elem name content dir Hnd Hin).
      by destruct content.
Qed.

(** [load_latest_forecast] on a directory of two snapshots of one model:
    the one modified last is loaded. *)
Lemma load_latest_forecast_witness :
  let older := [ForecastRow (Timestamp 2024 2 1) "P" 10] in
  let newer := [ForecastRow (Timestamp 2024 2 1) "P" 12] in
  let dir := [("wb_prophet_20240115_103000.csv"%string, Table older);
              ("wb_prophet_20240116_103000.csv"%string, Table newer)] in
  let mtime := fun name : string =>
    if String.eqb name "wb_prophet_20240116_103000.csv" then 2%Z else 1%Z in
  load_forecast mtime dir "wb" "prophet" (Some EmptyString)
  = load_forecast mtime dir "wb" "prophet" None.
Proof.
  intros older newer dir mtime.
  refine (proj2 (proj2 (load_latest_forecast mtime dir "wb" "prophet" _))).
  apply NoDup_cons. split; [|apply NoDup_singleton].
  intros Hin%list_elem_of_singleton. discriminate.
Defined.



(** ** Forecast ledger: what the rows of the history say *)

Fixpoint count_char (c : ascii) (s : string) : nat :=
  match s with
  | EmptyString => 0
  | String d s' => (if Ascii.eqb d c then 1 else 0) + count_char c s'
  end.

Lemma count_char_append (c : ascii) (a b : string) :
  count_char c (a +:+ b) = (count_char c a + count_char c b)%nat.
Proof.
  induction a as [|d a IH]; [done|]. rewrite append_cons. cbn [count_char].
  rewrite IH. lia.
Qed.

Lemma count_char_contains (c : ascii) (s : string) :
  count_char c s = 0%nat <-> contains c s = false.
Proof.
  induction s as [|d s IH]; [done|]. cbn [count_char contains].
  rewrite (Ascii.eqb_sym c d). destruct (Ascii.eqb d c); cbn; [split; [lia|done]|].
  exact IH.
Qed.

(** A name that matches a pattern holds every plain character of the
    pattern at least as often as the pattern does. *)
Lemma fnmatch_count (c : ascii) (pattern name : string) :
  c <> "*"%char -> fnmatch pattern name = true ->
  (count_char c pattern <= count_char c name)%nat.
Proof.
  intros Hc. revert name. induction pattern as [|x p IH]; intros name.
  - destruct name; [done|discriminate].
  - destruct (Ascii.eqb x "*") eqn:Ex.
    + apply Ascii.eqb_eq in Ex. subst x. cbn [count_char].
      rewrite (proj2 (Ascii.eqb_neq "*" c)) by congruence. cbn [Nat.add].
      induction name as [|d s IHs]; rewrite fnmatch_star.
      * rewrite orb_false_r. apply IH.
      * intros [H|H]%orb_true_iff; [by apply IH|].
        specialize (IHs H). cbn [count_char]. lia.
    + cbn [fnmatch]. rewrite Ex. destruct name as [|d s]; [done|].
      intros [Hxd H]%andb_true_iff. apply Ascii.eqb_eq in Hxd. subst d.
      specialize (IH s H). cbn [count_char]. lia.
Qed.

Lemma fnmatch_literal (literal name : string) :
  contains "*" literal = false -> fnmatch literal name = true -> name = literal.
Proof.
  revert name. induction literal as [|x l IH]; intros name.
  - by destruct name.
  - cbn [contains]. intros [Hx Hl]%orb_false_iff. cbn [fnmatch].
    rewrite Ascii.eqb_sym, Hx. destruct name as [|d s]; [done|].
    intros [Hxd H]%andb_true_iff. apply Ascii.eqb_eq in Hxd. subst d.
    by rewrite (IH s Hl H).
Qed.

Lemma fnmatch_suffix (pattern literal name : string) :
  contains "*" literal = false ->
  fnmatch (pattern +:+ literal) name = true ->
  exists t, name = t +:+ literal.
Proof.
  intros Hl. revert name. induction pattern as [|x p IH]; intros name.
  - rewrite append_nil. intros H. exists EmptyString.
    by rewrite (fnmatch_literal _ _ Hl H).
  - rewrite append_cons. destruct (Ascii.eqb x "*") eqn:Ex.
    + apply Ascii.eqb_eq in Ex. subst x.
      induction name as [|d s IHs]; rewrite fnmatch_star.
      * rewrite orb_false_r. apply IH.
      * intros [H|H]%orb_true_iff; [by apply IH|].
        destruct (IHs H) as [t ->]. by exists (String d t).
    + cbn [fnmatch]. rewrite Ex. destruct name as [|d s]; [done|].
      intros [Hxd H]%andb_true_iff. apply Ascii.eqb_eq in Hxd. subst d.
      destruct (IH s H) as [t ->]. by exists (String x t).
Qed.

Lemma glob_pattern_shape (marketplace model_name : option string) :
  exists q, glob_pattern marketplace model_name = q +:+ ".csv"
            /\ (2 <= count_char "_" q)%nat.
Proof.
  unfold glob_pattern. destruct (truthy model_name).
  - exists ("*_" +:+ default EmptyString model_name +:+ "_*"). split.
    + by rewrite !append_assoc.
    + rewrite !count_char_append. cbn. lia.
  - destruct (truthy marketplace).
    + exists (default EmptyString marketplace +:+ "_*_*"). split.
      * by rewrite !append_assoc.
      * rewrite !count_char_append. cbn. lia.
    + exists "*_*_*"%string. split; [done|]. cbn. lia.
Qed.

Lemma split_on_not_nil (sep : ascii) (s : string) : split_on sep s <> [].
Proof.
  induction s as [|c s IH]; [done|]. cbn [split_on].
  destruct (Ascii.eqb c sep); [done|]. by destruct (split_on sep s).
Qed.

Lemma length_split_on (sep : ascii) (s : string) :
  length (split_on sep s) = S (count_char sep s).
Proof.
  induction s as [|c s IH]; [done|]. cbn [split_on count_char].
  destruct (Ascii.eqb c sep); cbn [length Nat.add]; [by rewrite IH|].
  pose proof (split_on_not_nil sep s).
  destruct (split_on sep s) as [|p ps]; [done|]. exact IH.
Qed.

Lemma split_on_join (sep : ascii) (a b : string) :
  split_on sep (a +:+ String sep b) = split_on sep a ++ split_on sep b.
Proof.
  induction a as [|c a IH].
  - rewrite append_nil. cbn [split_on]. by rewrite Ascii.eqb_refl.
  - rewrite append_cons. cbn [split_on]. rewrite IH.
    destruct (Ascii.eqb c sep); [done|].
    pose proof (split_on_not_nil sep a).
    by destruct (split_on sep a) as [|p ps].
Qed.

Lemma concat_split_on (sep : ascii) (s : string) :
  String.concat (String sep EmptyString) (split_on sep s) = s.
Proof.
  induction s as [|c s IH]; [done|]. cbn [split_on].
  pose proof (split_on_not_nil sep s) as Hne.
  destruct (Ascii.eqb c sep) eqn:E.
  - apply Ascii.eqb_eq in E. subst c.
    destruct (split_on sep s) as [|p ps]; [done|].
    cbn [String.concat] in *. by rewrite IH.
  - destruct (split_on sep s) as [|p ps]; [done|].
    destruct ps as [|p' ps]; cbn [String.concat] in *; by rewrite <- IH.
Qed.

Lemma split_on_pieces (sep : ascii) (s p : string) :
  p ∈ split_on sep s -> contains sep p = false.
Proof.
  revert p. induction s as [|c s IH]; intros p.
  - by intros ->%list_elem_of_singleton.
  - cbn [split_on]. destruct (Ascii.eqb c sep) eqn:E.
    + intros [->|Hp]%elem_of_cons; [done|by apply IH].
    + pose proof (split_on_not_nil sep s).
      destruct (split_on sep s) as [|q qs]; [done|].
      intros [->|Hp]%elem_of_cons.
      * cbn [contains]. rewrite Ascii.eqb_sym, E. apply IH, elem_of_cons. by left.
      * apply IH, elem_of_cons. by right.
Qed.

(** [Path.stem] of a name that ends in [.csv]. *)
Lemma stem_of_csv (t : string) : t <> EmptyString -> stem (t +:+ ".csv") = t.
Proof.
  intros Hne. unfold stem.
  change (t +:+ ".csv") with (t +:+ String "." "csv").
  rewrite split_on_join. change (split_on "." "csv") with ["csv"].
  rewrite reverse_app. change (reverse ["csv"]) with ["csv"]. cbn [app].
  pose proof (split_on_not_nil "." t) as Hl.
  destruct (reverse (split_on "." t)) as [|y ys] eqn:E.
  - apply (f_equal reverse) in E. rewrite reverse_involutive in E. done.
  - rewrite <- E, reverse_involutive, concat_split_on. by destruct t.
Qed.

(** The columns that [get_forecast_history] adds to the rows of a file
    whose name matches its pattern. *)
Lemma annotate_matched (marketplace model_name : option string) (name : string)
    (rows : list forecast_row) :
  fnmatch (glob_pattern marketplace model_name) name = true ->
  exists a b c,
    name = a +:+ "_" +:+ b +:+ "_" +:+ c +:+ ".csv"
    /\ contains "_" a = false /\ contains "_" b = false
    /\ annotate name rows = (fun r => HistoryRow r (Some a) (Some b) (Some c)) <$> rows.
Proof.
  intros Hmatch.
  destruct (glob_pattern_shape marketplace model_name) as (q & Hq & Hcount).
  rewrite Hq in Hmatch.
  destruct (fnmatch_suffix q ".csv" name eq_refl Hmatch) as [t ->].
  apply (fnmatch_count "_") in Hmatch; [|done].
  rewrite !count_char_append in Hmatch. cbn [count_char Ascii.eqb] in Hmatch.
  assert (Ht : (2 <= count_char "_" t)%nat).
  { change (count_char "_" ".csv") with 0%nat in Hmatch. lia. }
  assert (Hne : t <> EmptyString) by (intros ->; cbn in Ht; lia).
  unfold annotate. rewrite (stem_of_csv t Hne).
  pose proof (length_split_on "_" t) as Hlen.
  pose proof (concat_split_on "_" t) as Hcat.
  pose proof (split_on_pieces "_" t) as Hpieces.
  destruct (split_on "_" t) as [|a [|b [|c0 rest]]]; cbn [length] in Hlen; try lia.
  exists a, b, (String.concat "_" (c0 :: rest)).
  split; [|split; [|split]].
  - rewrite <- Hcat at 1. cbn [String.concat]. by rewrite !append_assoc.
  - apply Hpieces. set_solver.
  - apply Hpieces. set_solver.
  - done.
Qed.

Lemma history_row_origin (dir : storage)
    (marketplace model_name unified_code : option string) (r : history_row) :
  r ∈ get_forecast_history dir marketplace model_name unified_code ->
  exists name rows a b c,
    (name, Table rows) ∈ dir /\ h_row r ∈ rows
    /\ fnmatch (glob_pattern marketplace model_name) name = true
    /\ h_marketplace r = Some a /\ h_model_name r = Some b
    /\ h_forecast_date r = Some c
    /\ name = a +:+ "_" +:+ b +:+ "_" +:+ c +:+ ".csv"
    /\ contains "_" a = false /\ contains "_" b = false
    /\ (truthy unified_code = true ->
        f_unified_code (h_row r) = default EmptyString unified_code).
Proof.
  intros Hr. unfold get_forecast_history in Hr.
  assert (Hin : r ∈ mjoin (omap (fun f => match f.2 with
                                          | Table rows => Some (annotate f.1 rows)
                                          | Document => None
                                          end)
                             (filter (fun f => fnmatch (glob_pattern marketplace
                                                          model_name) f.1 = true) dir))
                /\ (truthy unified_code = true ->
                    f_unified_code (h_row r) = default EmptyString unified_code)).
  { destruct (truthy unified_code); [|done].
    apply list_elem_of_filter in Hr as [Hc Hr]. done. }
  destruct Hin as [Hin Hcode].
  apply list_elem_of_join in Hin as [l [Hrl Hl]].
  apply list_elem_of_omap in Hl as [[name content] [Hf Hl]].
  apply list_elem_of_filter in Hf as [Hmatch Hf]. cbn [fst snd] in Hmatch, Hl.
  destruct content as [rows|]; [|done]. injection Hl as <-.
  destruct (annotate_matched _ _ name rows Hmatch) as (a & b & c & Hname & Ha & Hb & Hann).
  rewrite Hann in Hrl. apply list_elem_of_fmap in Hrl as [row [-> Hrow]].
  exists name, rows, a, b, c. done.
Qed.

(** Every row of the history comes from a table of the directory whose
    name matches the pattern of the call and reads
    [marketplace_model_date.csv] for the three columns that the row got,
    where the marketplace and the model column hold no underscore; with a
    product filter the row is a row of that product. *)
Theorem history_rows_annotated (dir : storage)
    (marketplace model_name unified_code : option string) :
  Forall (fun r =>
            exists name rows a b c,
              (name, Table rows) ∈ dir /\ h_row r ∈ rows
              /\ fnmatch (glob_pattern marketplace model_name) name = true
              /\ h_marketplace r = Some a /\ h_model_name r = Some b
              /\ h_forecast_date r = Some c
              /\ name = a +:+ "_" +:+ b +:+ "_" +:+ c +:+ ".csv"
              /\ contains "_" a = false /\ contains "_" b = false
              /\ (truthy unified_code = true ->
                  f_unified_code (h_row r) = default EmptyString unified_code))
         (get_forecast_history dir marketplace model_name unified_code).
Proof.
  apply Forall_forall. intros r Hr. by apply history_row_origin.
Qed.

Lemma history_app (dir1 dir2 : storage)
    (marketplace model_name unified_code : option string) :
  get_forecast_history (dir1 ++ dir2) marketplace model_name unified_code
  = get_forecast_history dir1 marketplace model_name unified_code
    ++ get_forecast_history dir2 marketplace model_name unified_code.
Proof.
  unfold get_forecast_history. rewrite filter_app, omap_app, join_app.
  destruct (truthy unified_code); [|done]. by rewrite filter_app.
Qed.

(** The history is collected file by file, in the order of the
    directory: the history of two directories put together is the history
    of the first followed by that of the second, and a file that is no table
    or whose name does not match the pattern adds nothing, wherever it
    stands. *)
Theorem history_file_by_file (dir1 dir2 : storage)
    (marketplace model_name unified_code : option string)
    (name : string) (content : file) :
  get_forecast_history (dir1 ++ dir2) marketplace model_name unified_code
  = get_forecast_history dir1 marketplace model_name unified_code
    ++ get_forecast_history dir2 marketplace model_name unified_code
  /\ get_forecast_history (dir1 ++ (name, Document) :: dir2)
       marketplace model_name unified_code
     = get_forecast_history (dir1 ++ dir2) marketplace model_name unified_code
  /\ (fnmatch (glob_pattern marketplace model_name) name = false ->
      get_forecast_history (dir1 ++ (name, content) :: dir2)
        marketplace model_name unified_code
      = get_forecast_history (dir1 ++ dir2) marketplace model_name unified_code).
Proof.
  assert (Happ : forall d1 d2,
            get_forecast_history (d1 ++ d2) marketplace model_name unified_code
            = get_forecast_history d1 marketplace model_name unified_code
              ++ get_forecast_history d2 marketplace model_name unified_code).
  { intros d1 d2. apply history_app. }
  assert (Hnil : forall c,
            (c = Document \/ fnmatch (glob_pattern marketplace model_name) name = false) ->
            get_forecast_history [(name, c)] marketplace model_name unified_code = []).
  { intros c Hc. unfold get_forecast_history. rewrite filter_cons.
    destruct (decide _) as [Hm|Hm]; cbn [fst] in Hm.
    - destruct Hc as [->|Hc]; [|congruence].
      cbn. by destruct (truthy unified_code).
    - cbn. by destruct (truthy unified_code). }
  split; [apply Happ|]. split.
  - rewrite (Happ dir1 (_ :: _)), (Happ [(name, Document)] dir2 : get_forecast_history
      ((name, Document) :: dir2) _ _ _ = _), Hnil by (by left). by rewrite Happ.
  - intros Hm.
    rewrite (Happ dir1 (_ :: _)), (Happ [(name, content)] dir2 : get_forecast_history
      ((name, content) :: dir2) _ _ _ = _), Hnil by (by right). by rewrite Happ.
Qed.

(** ** Baseline model *)

Lemma insert_sorted_elem (x y : Q) (l : list Q) :
  y ∈ BaselineModel.insert_sorted x l <-> y = x \/ y ∈ l.
Proof.
  induction l as [|z l IH]; cbn [BaselineModel.insert_sorted].
  - rewrite list_elem_of_singleton. split; [by left|].
    intros [?|?%elem_of_nil]; done.
  - destruct (Qle_bool x z).
    + by rewrite elem_of_cons.
    + rewrite !elem_of_cons, IH. tauto.
Qed.

Lemma length_insert_sorted (x : Q) (l : list Q) :
  length (BaselineModel.insert_sorted x l) = S (length l).
Proof.
  induction l as [|z l IH]; [done|]. cbn [BaselineModel.insert_sorted].
  destruct (Qle_bool x z); cbn [length]; by rewrite ?IH.
Qed.

Lemma sort_values_elem (y : Q) (l : list Q) :
  y ∈ BaselineModel.sort_values l <-> y ∈ l.
Proof.
  induction l as [|x l IH]; [done|].
  cbn [BaselineModel.sort_values foldr]. fold (BaselineModel.sort_values l).
  by rewrite insert_sorted_elem, elem_of_cons, IH.
Qed.

Lemma length_sort_values (l : list Q) : length (BaselineModel.sort_values l) = length l.
Proof.
  induction l as [|x l IH]; [done|].
  cbn [BaselineModel.sort_values foldr]. fold (BaselineModel.sort_values l).
  by rewrite length_insert_sorted, IH.
Qed.

Lemma nth_sort_values (l : list Q) (i : nat) :
  (i < length l)%nat -> nth i (BaselineModel.sort_values l) 0%Q ∈ l.
Proof.
  intros Hi. apply sort_values_elem, list_elem_of_In, nth_In.
  by rewrite length_sort_values.
Qed.

Lemma median_nonneg (l : list Q) :
  (forall x, x ∈ l -> (0 <= x)%Q) -> (0 <= BaselineModel.median l)%Q.
Proof.
  intros Hall. unfold BaselineModel.median.
  assert (Hnth : forall i, (0 <= nth i (BaselineModel.sort_values l) 0)%Q).
  { intros i. destruct (Nat.lt_ge_cases i (length l)) as [Hi|Hi].
    - by apply Hall, nth_sort_values.
    - rewrite nth_overflow by (by rewrite length_sort_values). lra. }
  destruct (Nat.even (length l)); [|apply Hnth].
  pose proof (Hnth (length l / 2 - 1)%nat). pose proof (Hnth (length l / 2)%nat).
  apply Qle_shift_div_l; lra.
Qed.

Lemma median_odd (l : list Q) :
  Nat.odd (length l) = true -> BaselineModel.median l ∈ l.
Proof.
  intros Hodd. unfold BaselineModel.median.
  rewrite <- Nat.negb_odd, Hodd. cbn [negb].
  apply nth_sort_values. apply Nat.div_lt; [|lia].
  destruct l; [discriminate|cbn [length]; lia].
Qed.

Lemma last_elem (l : list Q) : l <> [] -> List.last l 0%Q ∈ l.
Proof.
  induction l as [|x l IH]; [done|]. intros _. destruct l as [|y l].
  - apply elem_of_cons. by left.
  - apply elem_of_cons. right. by apply IH.
Qed.

(** The baseline model predicts as many values as periods are asked for,
    all of them equal.  After a fit on a non-empty history without negative
    quantities no prediction for the product is negative, for the mean, the
    median, the last value and any other method name, which is read as the
    mean.  The method last predicts the last quantity of the history, and
    the median of a history with an odd number of rows is one of its
    quantities.  A product fitted on an empty history, or not fitted at all,
    is predicted as 0 throughout; fitting one product leaves the predictions
    for every other product as they were. *)
Theorem baseline_prediction_bounds (method : string) (fitted_values : gmap string Q)
    (data : list Q) (unified_code : string) (periods : nat) :
  let fitted := BaselineModel.fit method fitted_values data unified_code in
  length (BaselineModel.predict fitted unified_code periods) = periods
  /\ (exists value, BaselineModel.predict fitted unified_code periods
                    = replicate periods value)
  /\ (data <> [] -> (forall x, x ∈ data -> (0 <= x)%Q) ->
      forall y, y ∈ BaselineModel.predict fitted unified_code periods -> (0 <= y)%Q)
  /\ (method = "last"%string -> data <> [] ->
      BaselineModel.predict fitted unified_code periods
      = replicate periods (List.last data 0%Q))
  /\ (method = "median"%string -> Nat.odd (length data) = true ->
      exists value, value ∈ data
        /\ BaselineModel.predict fitted unified_code periods = replicate periods value)
  /\ (data = [] ->
      BaselineModel.predict fitted unified_code periods = replicate periods 0%Q)
  /\ (fitted_values !! unified_code = None ->
      BaselineModel.predict fitted_values unified_code periods = replicate periods 0%Q)
  /\ (forall other, other <> unified_code ->
        BaselineModel.predict fitted other periods
        = BaselineModel.predict fitted_values other periods).
Proof.
  intros fitted.
  assert (Hfit : exists value,
            fitted = <[unified_code := value]> fitted_values
            /\ (data = [] -> value = 0%Q)
            /\ (data <> [] -> (forall x, x ∈ data -> (0 <= x)%Q) -> (0 <= value)%Q)
            /\ (method = "last"%string -> data <> [] -> value = List.last data 0%Q)
            /\ (method = "median"%string -> Nat.odd (length data) = true ->
                value ∈ data)).
  { subst fitted. unfold BaselineModel.fit. destruct data as [|x0 data].
    - exists 0%Q. split; [done|]. split; [done|]. split; [done|].
      split; [done|]. intros _ Hodd. discriminate.
    - set (l := x0 :: data).
      destruct (String.eqb method "mean") eqn:Emean;
        [|destruct (String.eqb method "median") eqn:Emedian;
          [|destruct (String.eqb method "last") eqn:Elast]];
        eexists; (split; [reflexivity|]); (split; [done|]);
        (split; [intros _ Hall|]); (try split).
      + by apply mean_nonneg.
      + intros ->. discriminate.
      + intros ->. discriminate.
      + by apply median_nonneg.
      + intros ->. discriminate.
      + intros _ Hodd. by apply median_odd.
      + by apply Hall, last_elem.
      + done.
      + intros ->. discriminate.
      + by apply mean_nonneg.
      + intros ->. discriminate.
      + intros ->. discriminate. }
  destruct Hfit as (value & -> & Hempty & Hnonneg & Hlast & Hmedian).
  assert (Hpred : BaselineModel.predict (<[unified_code := value]> fitted_values)
                    unified_code periods = replicate periods value).
  { unfold BaselineModel.predict. by rewrite lookup_insert_eq. }
  rewrite Hpred. split; [apply length_replicate|]. split; [by exists value|].
  split; [|split; [|split; [|split; [|split]]]].
  - intros Hne Hall y [-> _]%elem_of_replicate. by apply Hnonneg.
  - intros Hm Hne. by rewrite (Hlast Hm Hne).
  - intros Hm Hodd. exists value. split; [by apply Hmedian|done].
  - intros Hd. by rewrite (Hempty Hd).
  - intros Hnone. unfold BaselineModel.predict. by rewrite Hnone.
  - intros other Hne. unfold BaselineModel.predict.
    by rewrite lookup_insert_ne.
Qed.

(** ** The orchestrator: model keys and model names *)

Lemma get_model_name_capital (model : Forecaster.model_kind) :
  exists c rest, Forecaster.get_model_name model = String c rest
                 /\ (c = "B" \/ c = "L" \/ c = "A" \/ c = "S" \/ c = "P")%char.
Proof.
  destruct model as [method|[|]| |order [seasonal|]|order seasonal|];
    cbn [Forecaster.get_model_name]; unfold BaselineModel.get_model_name;
    rewrite ?append_cons; eexists _, _; (split; [reflexivity|]); tauto.
Qed.

(** The evaluator stores its results under the names that the models
    give themselves, the forecasts are kept under the keys of
    [prepare_models], and no such name is such a key (the names start with a
    capital letter, the keys do not).  So whenever the forecasts carry keys
    of [prepare_models] only and every stored evaluation carries the name of
    a model of the program, the table of best forecasts is empty, whatever
    the metrics are. *)
Theorem best_forecasts_never_selected (st : store)
    (forecasts : gmap string (list forecast_row)) :
  (forall key, is_Some (forecasts !! key) -> key ∈ Forecaster.prepare_models.*1) ->
  (forall kv, kv ∈ st ->
     exists model, model_name kv.2 = Forecaster.get_model_name model) ->
  Forall (fun km => Forecaster.get_model_name km.2 ∉ Forecaster.prepare_models.*1)
         Forecaster.prepare_models
  /\ Forecaster.select_best_forecasts st forecasts = [].
Proof.
  intros Hkeys Hnames.
  assert (Hdiff : forall model,
            Forecaster.get_model_name model ∉ Forecaster.prepare_models.*1).
  { intros model Hin.
    destruct (get_model_name_capital model) as (c & rest & Hname & Hc).
    rewrite Hname in Hin. cbn in Hin.
    destruct Hc as [-> | [-> | [-> | [-> | ->]]]];
      repeat (apply elem_of_cons in Hin as [Hin|Hin]; [discriminate|]);
      by apply elem_of_nil in Hin. }
  split.
  - apply Forall_forall. intros km _. apply Hdiff.
  - apply select_best_forecasts_unmatched. intros kv Hkv.
    destruct (Hnames kv Hkv) as [model Hm].
    destruct (forecasts !! model_name kv.2) eqn:E; [|done].
    exfalso. apply (Hdiff model). rewrite <- Hm. apply Hkeys. by rewrite E.
Qed.

(** [best_forecasts_never_selected] on the forecast of the model kept under
    the key ["prophet"], which the evaluator scored under its name
    ["Prophet"]. *)
Lemma best_forecasts_never_selected_witness :
  let st := (evaluate_model (fun q => q) [] [Finite 1; Finite 2] [Finite 1; Finite 3]
               "Prophet" "P").2 in
  let forecasts : gmap string (list forecast_row) :=
    {[ "prophet"%string := [ForecastRow (Timestamp 2024 2 1) "P" 10] ]} in
  Forecaster.select_best_forecasts st forecasts = [].
Proof.
  intros st forecasts.
  refine (proj2 (best_forecasts_never_selected st forecasts _ _)).
  - intros key [fc Hfc]. apply lookup_singleton_Some in Hfc as [<- _].
    apply list_elem_of_In. cbn. tauto.
  - intros kv Hkv. exists Forecaster.Prophet.
    apply list_elem_of_singleton in Hkv. by subst kv.
Defined.

(** ** Forecast ledger: the comparison of the models *)

Lemma filter_same_on {A : Type} (P1 P2 : A -> Prop)
    `{!forall x, Decision (P1 x)} `{!forall x, Decision (P2 x)} (l : list A) :
  (forall x, x ∈ l -> P1 x <-> P2 x) -> filter P1 l = filter P2 l.
Proof.
  induction l as [|x l IH]; intros Hiff; [done|].
  rewrite !filter_cons.
  assert (Hx : P1 x <-> P2 x) by (apply Hiff, elem_of_cons; by left).
  rewrite IH by (intros y Hy; apply Hiff, elem_of_cons; by right).
  destruct (decide (P1 x)), (decide (P2 x)); tauto.
Qed.

Lemma omap_as_fmap {A B : Type} (f : A -> option B) (g : A -> B) (l : list A) :
  (forall x, x ∈ l -> f x = Some (g x)) -> omap f l = g <$> l.
Proof.
  induction l as [|x l IH]; intros Hall; [done|].
  cbn [omap list_omap fmap list_fmap].
  rewrite (Hall x) by (apply elem_of_cons; by left).
  by rewrite IH by (intros y Hy; apply Hall, elem_of_cons; by right).
Qed.

(** The comparison table is empty when the history of the marketplace
    and the product is empty, also when actual sales are given.  Otherwise
    it holds one row for every model name and date of that history, whose
    quantity is the mean of the quantities that the history has for the model
    and the date; the actual sales of the product follow as rows of the model
    ["Actual"], one for every date, with the sum of the sales of that date. *)
Theorem comparison_rows (dir : storage) (marketplace unified_code : string)
    (actual_sales : list forecast_row) :
  let history :=
    get_forecast_history dir (Some marketplace) None (Some unified_code) in
  let forecasts_part := compare_forecasts dir marketplace unified_code None in
  (history = [] ->
   compare_forecasts dir marketplace unified_code (Some actual_sales) = [])
  /\ (forall row, row ∈ forecasts_part ->
        let group :=
          filter (fun r => h_model_name r = Some (c_model_name row)
                           /\ f_date (h_row r) = c_date row) history in
        group <> []
        /\ (c_quantity row == mean (fmap (fun r => f_quantity (h_row r)) group))%Q)
  /\ (forall r, r ∈ history ->
        exists row, row ∈ forecasts_part
                    /\ h_model_name r = Some (c_model_name row)
                    /\ c_date row = f_date (h_row r))
  /\ NoDup (fmap (fun row => (c_model_name row, c_date row)) forecasts_part)
  /\ (history <> [] ->
      exists actual_part,
        compare_forecasts dir marketplace unified_code (Some actual_sales)
        = forecasts_part ++ actual_part
        /\ NoDup (fmap c_date actual_part)
        /\ (forall row, row ∈ actual_part ->
              c_model_name row = "Actual"%string
              /\ (c_quantity row ==
                  Qsum (fmap f_quantity
                          (filter (fun r => f_unified_code r = unified_code
                                            /\ f_date r = c_date row)
                                  actual_sales)))%Q)
        /\ (forall r, r ∈ actual_sales -> f_unified_code r = unified_code ->
              exists row, row ∈ actual_part /\ c_date row = f_date r)).
Proof.
  intros history forecasts_part.
  set (leb := pair_leb String.compare timestamp_leb).
  set (key := fun r : history_row =>
                (default EmptyString (h_model_name r), f_date (h_row r))).
  set (keyed := (fun r => (key r, f_quantity (h_row r))) <$> history).
  assert (Hsome : forall r, r ∈ history -> is_Some (h_model_name r)).
  { intros r Hr. apply history_row_origin in Hr
      as (name & rows & a & b & c & _ & _ & _ & _ & Hb & _). by rewrite Hb. }
  assert (Hkeyed : omap (fun r => (fun m => ((m, f_date (h_row r)), f_quantity (h_row r)))
                                    <$> h_model_name r) history = keyed).
  { apply omap_as_fmap. intros r Hr. destruct (Hsome r Hr) as [m Hm].
    unfold key. by rewrite Hm. }
  assert (Hkey : forall r m d, r ∈ history ->
            key r = (m, d) <-> h_model_name r = Some m /\ f_date (h_row r) = d).
  { intros r m d Hr. destruct (Hsome r Hr) as [m' Hm]. unfold key. rewrite Hm.
    cbn [default]. split; [by intros [= -> ->]|by intros [[= ->] ->]]. }
  assert (Hpart : history <> [] ->
            forecasts_part
            = (fun kv => ComparisonRow kv.1.1 kv.1.2 kv.2) <$> groupby_mean leb keyed).
  { intros Hne. unfold forecasts_part, compare_forecasts. fold history.
    destruct history as [|r0 rest] eqn:E; [done|]. rewrite <- E in *.
    by rewrite Hkeyed. }
  assert (Hempty : history = [] -> forecasts_part = []).
  { intros Hnil. unfold forecasts_part, compare_forecasts. fold history.
    by rewrite Hnil. }
  assert (Hgroup : forall m d,
            filter (fun x => x.1 = (m, d)) keyed
            = (fun r => (key r, f_quantity (h_row r)))
                <$> filter (fun r => h_model_name r = Some m /\ f_date (h_row r) = d)
                      history).
  { intros m d. unfold keyed. rewrite filter_fmap. f_equal.
    apply filter_same_on. intros r Hr. cbn [fst]. by apply Hkey. }
  split; [|split; [|split; [|split]]].
  - intros Hnil. unfold compare_forecasts. fold history. by rewrite Hnil.
  - intros row Hrow group.
    destruct (decide (history = [])) as [Hnil|Hne].
    { rewrite (Hempty Hnil) in Hrow. by apply elem_of_nil in Hrow. }
    rewrite (Hpart Hne) in Hrow.
    apply list_elem_of_fmap in Hrow as [[[m d] q] [-> Hq]].
    unfold groupby_mean in Hq.
    apply list_elem_of_fmap in Hq as [[k s] [Heq Hs]]. cbn [fst snd] in Heq.
    injection Heq as <- ->. cbn [c_model_name c_date c_quantity fst snd] in *.
    pose proof (groupby_sum_value leb keyed _ _ Hs) as Hsum.
    rewrite (Hgroup m d) in Hsum |- *. fold group in Hsum |- *.
    assert (Hk : (m, d) ∈ keyed.*1).
    { apply (groupby_sum_keys leb). apply list_elem_of_fmap. by exists ((m, d), s). }
    split.
    + intros Hnil. unfold keyed in Hk. rewrite <- list_fmap_compose in Hk.
      apply list_elem_of_fmap in Hk as [r [Hr Hin]]. cbn in Hr. symmetry in Hr.
      apply (Hkey r m d Hin) in Hr.
      assert (Hx : r ∈ group) by (by apply list_elem_of_filter).
      rewrite Hnil in Hx. by apply elem_of_nil in Hx.
    + rewrite <- list_fmap_compose in Hsum. unfold mean.
      rewrite !length_fmap. rewrite Hsum. reflexivity.
  - intros r Hr.
    assert (Hne : history <> []) by (intros Hnil; rewrite Hnil in Hr; by apply elem_of_nil in Hr).
    destruct (Hsome r Hr) as [m Hm].
    assert (Hk : (m, f_date (h_row r)) ∈ (groupby_sum leb keyed).*1).
    { apply groupby_sum_keys. unfold keyed. rewrite <- list_fmap_compose.
      apply list_elem_of_fmap. exists r. split; [|done]. cbn. unfold key.
      by rewrite Hm. }
    apply list_elem_of_fmap in Hk as [[k s] [Hk Hs]]. cbn [fst] in Hk. subst k.
    rewrite (Hpart Hne).
    set (q := (s / inject_Z (Z.of_nat (length (filter
                 (fun x => x.1 = (m, f_date (h_row r))) keyed))))%Q).
    exists (ComparisonRow m (f_date (h_row r)) q). split; [|by split].
    apply list_elem_of_fmap. exists ((m, f_date (h_row r)), q). split; [done|].
    unfold groupby_mean. apply list_elem_of_fmap.
    by exists ((m, f_date (h_row r)), s).
  - destruct (decide (history = [])) as [Hnil|Hne].
    { rewrite (Hempty Hnil). apply NoDup_nil_2. }
    rewrite (Hpart Hne), <- list_fmap_compose. unfold groupby_mean.
    rewrite <- list_fmap_compose.
    match goal with |- NoDup (?f <$> ?l) => replace (f <$> l) with (l.*1) end.
    + apply groupby_sum_NoDup.
    + apply list_fmap_ext. by intros i [[m d] s] _.
  - intros Hne.
    exists ((fun kv => ComparisonRow "Actual" kv.1 kv.2)
              <$> groupby_sum timestamp_leb
                    ((fun r => (f_date r, f_quantity r))
                       <$> filter (fun r => f_unified_code r = unified_code)
                             actual_sales)).
    split; [|split; [|split]].
    + rewrite (Hpart Hne). unfold compare_forecasts. fold history.
      destruct history as [|r0 rest] eqn:E; [done|]. rewrite <- E in *.
      rewrite Hkeyed. fold leb.
      destruct actual_sales as [|s0 sales]; [symmetry; apply app_nil_r|].
      destruct (filter (fun r => f_unified_code r = unified_code) (s0 :: sales))
        as [|a0 actual]; [symmetry; apply app_nil_r|].
      reflexivity.
    + rewrite <- list_fmap_compose.
      match goal with |- NoDup (?f <$> ?l) => replace (f <$> l) with (l.*1) end.
      * apply groupby_sum_NoDup.
      * apply list_fmap_ext. by intros i [d s] _.
    + intros row [[d s] [-> Hs]]%list_elem_of_fmap. split; [done|].
      cbn [c_quantity c_date fst snd].
      rewrite (groupby_sum_value _ _ _ _ Hs).
      rewrite filter_fmap, <- list_fmap_compose.
      rewrite list_filter_filter.
      erewrite list_filter_iff; [reflexivity|]. intros x. cbn. tauto.
    + intros r Hr Hc.
      assert (Hk : f_date r
                   ∈ (groupby_sum timestamp_leb
                        ((fun r => (f_date r, f_quantity r))
                           <$> filter (fun r => f_unified_code r = unified_code)
                                 actual_sales)).*1).
      { apply groupby_sum_keys. rewrite <- list_fmap_compose.
        apply list_elem_of_fmap. exists r. split; [done|].
        by apply list_elem_of_filter. }
      apply list_elem_of_fmap in Hk as [[d s] [Hd Hs]]. cbn [fst] in Hd. subst d.
      exists (ComparisonRow "Actual" (f_date r) s). split; [|done].
      apply list_elem_of_fmap. by exists (f_date r, s).
Qed.

(** ** Model evaluator: the selection among the results of a product *)

Lemma product_results_by_code (st : store) (product : string) :
  well_keyed st -> contains "_" product = false ->
  product_results st product
  = filter (fun kv => unified_code kv.2 = product) st.
Proof.
  intros [_ Hwf] Hp. unfold product_results. apply filter_same_on.
  intros [k r] Hin. destruct (Hwf k r Hin) as (-> & Hu & _). cbn [fst snd]. split.
  - intros Hpre. symmetry. by apply (prefix_of_other_key product _ (model_name r)).
  - intros <-. apply prefix_store_key.
Qed.

(** On a store built from product keys without underscore and non-empty
    model names, [select_best_model] chooses among the results that were
    stored for the product itself, those whose [unified_code] is the
    product: it returns none when there is none, and otherwise the model
    name of one of them, for mae, rmse and mape one whose value no other
    result of the product is below, for r2 one whose value no other result
    of the product is above. *)
Theorem select_best_model_of_product (st : store) (product : string) (m : metric) :
  well_keyed st -> contains "_" product = false ->
  let results := filter (fun kv => unified_code kv.2 = product) st in
  (results = [] -> select_best_model st product m = None)
  /\ (results <> [] ->
      exists best, best ∈ results
        /\ select_best_model st product m = Some (model_name best.2)
        /\ (m ∈ [Mae; Rmse; Mape] ->
            forall other, other ∈ results ->
              float_ltb (get other.2 m) (get best.2 m) = false)
        /\ (m = R2 ->
            forall other, other ∈ results ->
              float_ltb (get best.2 m) (get other.2 m) = false)).
Proof.
  intros Hwf Hp results.
  pose proof (product_results_by_code st product Hwf Hp) as Hres.
  fold results in Hres.
  destruct (select_best_model_extremum st product m) as (Hnone & Hsome & _).
  rewrite Hres in Hnone, Hsome. split; [exact Hnone|].
  intros Hne. destruct (Hsome Hne) as (best & Hin & Hsel & Hmin & Hmax).
  exists best. split; [exact Hin|]. split; [exact Hsel|]. split.
  - intros Hm other Hother. by apply (Hmin Hm other Hother).
  - intros Hm other Hother. by apply (Hmax Hm other Hother).
Qed.

(** [select_best_model_of_product] on the store of two evaluations of the
    product ["P"] and one of the product ["Q"]. *)
Lemma select_best_model_of_product_witness :
  exists best,
    best ∈ filter (fun kv => unified_code kv.2 = "P"%string)
             (evaluate_model (fun q => q)
                (evaluate_model (fun q => q)
                   (evaluate_model (fun q => q) [] [Finite 1; Finite 2]
                      [Finite 1; Finite 3] "Prophet" "P").2
                   [Finite 1; Finite 2] [Finite 2; Finite 2] "ARIMA" "Q").2
                [Finite 1; Finite 2] [Finite 1; Finite 2] "ARIMA" "P").2
    /\ select_best_model
         (evaluate_model (fun q => q)
            (evaluate_model (fun q => q)
               (evaluate_model (fun q => q) [] [Finite 1; Finite 2]
                  [Finite 1; Finite 3] "Prophet" "P").2
               [Finite 1; Finite 2] [Finite 2; Finite 2] "ARIMA" "Q").2
            [Finite 1; Finite 2] [Finite 1; Finite 2] "ARIMA" "P").2
         "P" Mape
       = Some (model_name best.2).
Proof.
  set (st := (evaluate_model (fun q => q)
                (evaluate_model (fun q => q)
                   (evaluate_model (fun q => q) [] [Finite 1; Finite 2]
                      [Finite 1; Finite 3] "Prophet" "P").2
                   [Finite 1; Finite 2] [Finite 2; Finite 2] "ARIMA" "Q").2
                [Finite 1; Finite 2] [Finite 1; Finite 2] "ARIMA" "P").2).
  assert (Hwf : well_keyed st).
  { do 3 (apply well_keyed_evaluate; [|done|done]).
    split; [apply NoDup_nil_2|]. by intros k r ?%elem_of_nil. }
  destruct (proj2 (select_best_model_of_product st "P" Mape Hwf eq_refl))
    as (best & Hin & Hsel & _).
  - intros Hnil.
    assert (Hfirst : exists kv, st !! 0%nat = Some kv /\ unified_code kv.2 = "P"%string).
    { vm_compute. eexists. split; reflexivity. }
    destruct Hfirst as (kv & Hkv & Hu). apply list_elem_of_lookup_2 in Hkv.
    assert (Hx : kv ∈ filter (fun kv => unified_code kv.2 = "P"%string) st)
      by (by apply list_elem_of_filter).
    rewrite Hnil in Hx. by apply elem_of_nil in Hx.
  - exists best. split; [exact Hin|exact Hsel].
Defined.
